(** * Story synchronisation engine: frontmatter codec, push and pull

    A shallow embedding of [src/bmad_sync/sync.py] and [src/bmad_sync/pull.py]
    together with the client interface they are written against, the
    in-memory client of [tests/test_bmad_sync.py], the GraphQL client of
    [src/bmad_sync/github_project.py] up to its transport, and the game of
    [src/hangman/game.py].

    Python [str] values are modelled as lists of code points below 256
    (type [ascii] read as the Latin-1 block of Unicode).  On that range
    [str.isspace], [str.lower] and the line boundaries of [str.splitlines]
    are the finite tables given below. *)

From Stdlib Require Import String.
From Stdlib Require Import List Ascii Bool Arith NArith Lia.
From Stdlib Require Import Sorted Permutation.
Import ListNotations.
Open Scope char_scope.
Open Scope string_scope.
Open Scope list_scope.

(* ================================================================== *)
(** ** Python strings *)
(* ================================================================== *)

Module Py.

Definition str := list ascii.

Definition lit (s : String.string) : str := String.list_ascii_of_string s.
Coercion lit : String.string >-> str.

Definition str_eq_dec : forall a b : str, {a = b} + {a <> b} :=
  list_eq_dec ascii_dec.

Definition code (c : ascii) : N := N_of_ascii c.

Definition code_in (c : ascii) (l : list N) : bool :=
  existsb (N.eqb (code c)) l.

(** [c.isspace()] for a code point below 256. *)
Definition isspace (c : ascii) : bool :=
  code_in c [9; 10; 11; 12; 13; 28; 29; 30; 31; 32; 133; 160]%N.

(** The code points at which [str.splitlines] ends a line. *)
Definition is_linebreak (c : ascii) : bool :=
  code_in c [10; 11; 12; 13; 28; 29; 30; 133]%N.

(** [c.lower()] for a code point below 256: A-Z and the Latin-1 capitals. *)
Definition lower_char (c : ascii) : ascii :=
  let n := code c in
  if ((65 <=? n) && (n <=? 90))%N
     || ((192 <=? n) && (n <=? 222) && negb (n =? 215))%N
  then ascii_of_N (n + 32)
  else c.

(** [s.lower()].  On text of code points below 256 lower-casing is
    character by character; the rules of [str.lower] that look at the
    neighbours of a character, or change the length, concern code points
    outside this range. *)
Definition lower (s : str) : str := map lower_char s.

Fixpoint dropwhile (p : ascii -> bool) (s : str) : str :=
  match s with
  | [] => []
  | c :: rest => if p c then dropwhile p rest else s
  end.

(** [s.lstrip(chars)], [s.rstrip(chars)], [s.strip(chars)] with the set of
    characters given as a predicate. *)
Definition lstrip_by (p : ascii -> bool) (s : str) : str := dropwhile p s.
Definition rstrip_by (p : ascii -> bool) (s : str) : str :=
  rev (dropwhile p (rev s)).
Definition strip_by (p : ascii -> bool) (s : str) : str :=
  rstrip_by p (lstrip_by p s).

Definition lstrip : str -> str := lstrip_by isspace.
Definition rstrip : str -> str := rstrip_by isspace.
Definition strip : str -> str := strip_by isspace.

(** [s.strip(c)] for a one-character argument. *)
Definition strip_char (c : ascii) : str -> str := strip_by (Ascii.eqb c).

Fixpoint startswith (s prefix : str) {struct prefix} : bool :=
  match prefix, s with
  | [], _ => true
  | _ :: _, [] => false
  | p :: prefix', c :: s' => Ascii.eqb c p && startswith s' prefix'
  end.

(** [s.replace(old, new)] for one-character [old] and [new]. *)
Definition replace (old new : ascii) (s : str) : str :=
  map (fun c => if Ascii.eqb c old then new else c) s.

(** [sep.join(parts)] *)
Fixpoint join (sep : str) (parts : list str) : str :=
  match parts with
  | [] => []
  | [p] => p
  | p :: rest => p ++ sep ++ join sep rest
  end.

(** [s.splitlines()]: [cur] holds the current line, reversed. *)
Fixpoint splitlines_from (cur : str) (s : str) : list str :=
  match s with
  | [] => match cur with [] => [] | _ :: _ => [rev cur] end
  | c :: rest =>
      if is_linebreak c then
        rev cur ::
          match rest with
          | c' :: rest' =>
              if Ascii.eqb c "013" && Ascii.eqb c' "010"
              then splitlines_from [] rest'
              else splitlines_from [] rest
          | [] => splitlines_from [] rest
          end
      else splitlines_from (c :: cur) rest
  end.

Definition splitlines (s : str) : list str := splitlines_from [] s.

(** [s.split(sep, 1)] for a one-character separator: one or two pieces. *)
Fixpoint split1 (sep : ascii) (s : str) : list str :=
  match s with
  | [] => [[]]
  | c :: rest =>
      if Ascii.eqb c sep then [[]; rest]
      else match split1 sep rest with
           | hd :: tl => (c :: hd) :: tl
           | [] => [[c]]
           end
  end.

(** [name.rfind(".")], as an index from the left; [None] for -1. *)
Fixpoint rfind_from (i : nat) (c : ascii) (s : str) : option nat :=
  match s with
  | [] => None
  | x :: rest =>
      match rfind_from (S i) c rest with
      | Some j => Some j
      | None => if Ascii.eqb x c then Some i else None
      end
  end.

Definition rfind (c : ascii) (s : str) : option nat := rfind_from 0 c s.

(** Lexicographic order on code points: [a <= b] on Python strings. *)
Fixpoint str_leb (a b : str) : bool :=
  match a, b with
  | [], _ => true
  | _ :: _, [] => false
  | x :: a', y :: b' =>
      if (code x <? code y)%N then true
      else if (code y <? code x)%N then false
      else str_leb a' b'
  end.

Fixpoint insert_sorted (x : str) (l : list str) : list str :=
  match l with
  | [] => [x]
  | y :: l' => if str_leb x y then x :: l else y :: insert_sorted x l'
  end.

(** [sorted(xs)] on strings. *)
Definition sorted (l : list str) : list str :=
  fold_right insert_sorted [] l.

End Py.
Import Py.

Definition dquote : ascii := "034"%char.
Definition squote : ascii := "039"%char.
Definition newline : str := ["010"%char].

(* ================================================================== *)
(** ** pull.py: status normalisation and the frontmatter codec *)
(* ================================================================== *)

Definition _normalize_status (status : str) : str :=
  let normalized := lower (strip status) in
  if str_eq_dec normalized "todo" then "todo"
  else if in_dec str_eq_dec normalized
            [lit "in progress"; lit "in_progress"; lit "in-progress"]
  then "in_progress"
  else if str_eq_dec normalized "done" then "done"
  else replace " " "_" normalized.

(** [lines[a:b]] *)
Definition slice {A : Type} (a b : nat) (l : list A) : list A :=
  firstn (b - a) (skipn a l).

(** The [for idx in range(...)] loop of [_split_frontmatter]: [ls] is
    [lines[idx:]]; the result is the first index whose stripped line is
    the delimiter. *)
Fixpoint find_delimiter (idx : nat) (ls : list str) : option nat :=
  match ls with
  | [] => None
  | l :: ls' =>
      if str_eq_dec (strip l) "---" then Some idx
      else find_delimiter (S idx) ls'
  end.

Definition _split_frontmatter (content : str) : option (list str) * list str :=
  let lines := splitlines content in
  match lines with
  | [] => (None, lines)
  | first :: rest =>
      if str_eq_dec (strip first) "---" then
        match find_delimiter 1 rest with
        | Some idx => (Some (slice 1 idx lines), skipn (idx + 1) lines)
        | None => (None, lines)
        end
      else (None, lines)
  end.

Definition title_line (title : str) : str :=
  lit "title: " ++ [dquote] ++ title ++ [dquote].
Definition status_line (status : str) : str :=
  lit "status: " ++ [dquote] ++ status ++ [dquote].

(** The test of the loop body of [_build_frontmatter]. *)
Definition is_owned_line (line : str) : bool :=
  let stripped := lower (strip line) in
  startswith stripped "title:" || startswith stripped "status:".

Definition _build_frontmatter (title status : str)
    (existing : option (list str)) : list str :=
  let filtered :=
    match existing with
    | Some ((_ :: _) as lines) =>
        filter (fun line => negb (is_owned_line line)) lines
    | _ => []
    end in
  [title_line title; status_line status] ++ filtered.

Definition _render_story_content (title status : str)
    (existing_content : option str) : str :=
  let '(frontmatter, body_lines) :=
    match existing_content with
    | Some ((_ :: _) as c) => _split_frontmatter c
    | _ => (None, [])
    end in
  let frontmatter_lines := _build_frontmatter title status frontmatter in
  let body_lines :=
    match body_lines with
    | [] => [lit "# " ++ title; lit ""]
    | _ :: _ => body_lines
    end in
  let output_lines :=
    [lit "---"] ++ frontmatter_lines ++ [lit "---"; lit ""] ++ body_lines in
  rstrip (join newline output_lines) ++ newline.

(* ================================================================== *)
(** ** sync.py: frontmatter value extraction *)
(* ================================================================== *)

(** [line.split(":", 1)[1]].  The index is in range whenever the stripped
    line starts with [key ++ ":"], the only place it is evaluated
    ([split1_index1_some] below); [nth] never falls back to its default
    there. *)
Definition after_first_colon (line : str) : str :=
  nth 1 (split1 ":" line) [].

Fixpoint _extract_frontmatter_value (lines : list str) (key : str)
  : option str :=
  let prefix := key ++ lit ":" in
  match lines with
  | [] => None
  | line :: lines' =>
      if startswith (strip line) prefix
      then Some (strip_char squote (strip_char dquote
                   (strip (after_first_colon line))))
      else _extract_frontmatter_value lines' key
  end.

(* ================================================================== *)
(** ** Effects: exceptions, the project-board client, the directory *)
(* ================================================================== *)

Inductive exn : Type :=
| AuthenticationError (msg : str)
| GitHubApiError (msg : str)
| ValueError (msg : str)
| AttributeError (msg : str)
| OSError (msg : str).

Inductive result (A : Type) : Type :=
| Ok (a : A)
| Raise (e : exn).
Arguments Ok {A} a.
Arguments Raise {A} e.

(** [pull.StoryRecord] *)
Record StoryRecord : Type := {
  story_id : str;
  title : str;
  status : str
}.

(** The methods [sync_stories] and [pull_stories] call on [github_client].
    A client is a state of type [S] and one transition per method; a method
    that raises still returns the state it leaves behind. *)
Record client_ops (S : Type) : Type := {
  validate_auth : S -> result unit * S;
  list_project_stories : S -> result (list str) * S;
  list_project_story_details : S -> result (list StoryRecord) * S;
  upsert_story : str -> str -> str -> S -> result unit * S;
  archive_story : str -> S -> result unit * S
}.
Arguments validate_auth {S}.
Arguments list_project_stories {S}.
Arguments list_project_story_details {S}.
Arguments upsert_story {S}.
Arguments archive_story {S}.

(** [bmad_output_dir] on disk: whether the directory exists and, by name,
    what it directly contains.  File contents are the decoded text. *)
Inductive node : Type :=
| File (content : str)
| Directory.

Record filesystem : Type := {
  dir_exists : bool;
  entries : list (str * node)
}.

Fixpoint lookup (name : str) (es : list (str * node)) : option node :=
  match es with
  | [] => None
  | (n, x) :: es' => if str_eq_dec n name then Some x else lookup name es'
  end.

Fixpoint store (name : str) (x : node) (es : list (str * node))
  : list (str * node) :=
  match es with
  | [] => [(name, x)]
  | (n, y) :: es' =>
      if str_eq_dec n name then (n, x) :: es' else (n, y) :: store name x es'
  end.

(** What a run does to the outside: the client methods it invokes and the
    directory operations that change the disk, in order. *)
Inductive event : Type :=
| CallValidateAuth
| CallListProjectStories
| CallListProjectStoryDetails
| CallUpsertStory (story_id title status : str)
| CallArchiveStory (story_id : str)
| FsMkdir
| FsWriteText (name content : str).

Record world (S : Type) : Type := {
  remote : S;
  disk : filesystem;
  trace : list event
}.
Arguments remote {S}.
Arguments disk {S}.
Arguments trace {S}.

(** [PurePath.suffix] and [PurePath.stem] of a final path component. *)
Definition suffix (name : str) : str :=
  match rfind "." name with
  | Some i => if ((0 <? i) && (i <? length name - 1))%nat then skipn i name else []
  | None => []
  end.

Definition stem (name : str) : str :=
  match rfind "." name with
  | Some i => if ((0 <? i) && (i <? length name - 1))%nat then firstn i name else name
  | None => name
  end.

(** Python sets of strings, as duplicate-free lists. *)
Definition set_of (l : list str) : list str := nodup str_eq_dec l.

Definition mem (x : str) (l : list str) : bool :=
  if in_dec str_eq_dec x l then true else false.

Definition set_difference (a b : list str) : list str :=
  filter (fun x => negb (mem x b)) a.

(** [sync.SyncResult] and [pull.PullResult] *)
Record SyncResult : Type := {
  total_stories : nat;
  updated_stories : nat
}.

Record PullResult : Type := {
  total_items : nat;
  written_stories : nat
}.

Section Synchronizers.

Context {S : Type}.
Variable github_client : client_ops S.

(** Computations over the world that may raise. *)
Definition M (A : Type) : Type := world S -> result A * world S.

Definition ret {A : Type} (a : A) : M A := fun w => (Ok a, w).

Definition raise {A : Type} (e : exn) : M A := fun w => (Raise e, w).

Definition bind {A B : Type} (m : M A) (k : A -> M B) : M B :=
  fun w =>
    match m w with
    | (Ok a, w') => k a w'
    | (Raise e, w') => (Raise e, w')
    end.

Notation "x <- m ;; k" := (bind m (fun x => k))
  (at level 61, m at next level, right associativity).
Notation "m ;;; k" := (bind m (fun _ => k))
  (at level 61, right associativity).

Fixpoint for_each {A : Type} (l : list A) (body : A -> M unit) : M unit :=
  match l with
  | [] => ret tt
  | x :: l' => body x ;;; for_each l' body
  end.

Fixpoint map_m {A B : Type} (f : A -> M B) (l : list A) : M (list B) :=
  match l with
  | [] => ret []
  | x :: l' => y <- f x ;; ys <- map_m f l' ;; ret (y :: ys)
  end.

Fixpoint filter_m {A : Type} (p : A -> M bool) (l : list A) : M (list A) :=
  match l with
  | [] => ret []
  | x :: l' =>
      b <- p x ;; ys <- filter_m p l' ;; ret (if b then x :: ys else ys)
  end.

(** A method call on [github_client], recorded in the trace. *)
Definition call {A : Type} (ev : event) (method : S -> result A * S) : M A :=
  fun w =>
    let '(r, s') := method (remote w) in
    (r, {| remote := s'; disk := disk w; trace := trace w ++ [ev] |}).

(** Paths are the names of the entries of [bmad_output_dir]. *)
Definition iterdir : M (list str) :=
  fun w =>
    if dir_exists (disk w) then (Ok (map fst (entries (disk w))), w)
    else (Raise (OSError "No such file or directory"), w).

Definition is_file (path : str) : M bool :=
  fun w =>
    match lookup path (entries (disk w)) with
    | Some (File _) => (Ok true, w)
    | _ => (Ok false, w)
    end.

Definition exists_ (path : str) : M bool :=
  fun w =>
    match lookup path (entries (disk w)) with
    | Some _ => (Ok true, w)
    | None => (Ok false, w)
    end.

Definition read_text (path : str) : M str :=
  fun w =>
    match lookup path (entries (disk w)) with
    | Some (File content) => (Ok content, w)
    | Some Directory => (Raise (OSError "Is a directory"), w)
    | None => (Raise (OSError "No such file or directory"), w)
    end.

Definition write_text (path content : str) : M unit :=
  fun w =>
    if negb (dir_exists (disk w))
    then (Raise (OSError "No such file or directory"), w)
    else
      match lookup path (entries (disk w)) with
      | Some Directory => (Raise (OSError "Is a directory"), w)
      | _ =>
          (Ok tt,
           {| remote := remote w;
              disk := {| dir_exists := true;
                         entries := store path (File content)
                                      (entries (disk w)) |};
              trace := trace w ++ [FsWriteText path content] |})
      end.

(** [bmad_output_dir.mkdir(parents=True, exist_ok=True)] *)
Definition mkdir : M unit :=
  fun w =>
    (Ok tt,
     {| remote := remote w;
        disk := {| dir_exists := true; entries := entries (disk w) |};
        trace := trace w ++ [FsMkdir] |}).

(** *** sync.py *)

Definition _parse_story_file (path : str) : M (str * str * str) :=
  content <- read_text path ;;
  let lines := splitlines content in
  let title := _extract_frontmatter_value lines "title" in
  let status := _extract_frontmatter_value lines "status" in
  match title, status with
  | Some title, Some status => ret (stem path, title, status)
  | _, _ => raise (ValueError (lit "Missing frontmatter fields in " ++ path))
  end.

(** The condition of the generator in [sync_stories]:
    [p.is_file() and p.suffix == ".md"]. *)
Definition is_story_file (p : str) : M bool :=
  f <- is_file p ;;
  ret (f && if str_eq_dec (suffix p) ".md" then true else false).

Definition sync_stories : M SyncResult :=
  call CallValidateAuth (validate_auth github_client) ;;;
  paths <- iterdir ;;
  kept <- filter_m is_story_file paths ;;
  let story_files := sorted kept in
  parsed_stories <- map_m _parse_story_file story_files ;;
  for_each parsed_stories
    (fun '(story_id, title, status) =>
       call (CallUpsertStory story_id title status)
            (upsert_story github_client story_id title status)) ;;;
  listed <- call CallListProjectStories (list_project_stories github_client) ;;
  let existing_story_ids := set_of listed in
  let current_story_ids :=
    set_of (map (fun '(story_id, _, _) => story_id) parsed_stories) in
  for_each (sorted (set_difference existing_story_ids current_story_ids))
    (fun story_id =>
       call (CallArchiveStory story_id)
            (archive_story github_client story_id)) ;;;
  ret {| total_stories := length parsed_stories;
         updated_stories := length parsed_stories |}.

(** *** pull.py *)

(** The body of the [for story in stories] loop; [written] is the counter.
    The target [bmad_output_dir / f"{story.story_id}.md"] is taken to be
    the entry of that name in the directory: this is the path pathlib
    builds when the id holds no "/" (and the file can be opened when it
    holds no NUL).  An id with a "/" names a file in another directory,
    which [filesystem] does not describe; the statements about what a run
    leaves in the directory are made for ids without them. *)
Definition pull_one (written : nat) (story : StoryRecord) : M nat :=
  let target := story_id story ++ lit ".md" in
  present <- exists_ target ;;
  existing <- (if present
               then c <- read_text target ;; ret (Some c)
               else ret None) ;;
  let content :=
    _render_story_content (title story) (_normalize_status (status story))
      existing in
  write_text target content ;;;
  ret (written + 1).

Fixpoint pull_loop (written : nat) (stories : list StoryRecord) : M nat :=
  match stories with
  | [] => ret written
  | story :: stories' =>
      written' <- pull_one written story ;; pull_loop written' stories'
  end.

Definition pull_stories : M PullResult :=
  call CallValidateAuth (validate_auth github_client) ;;;
  mkdir ;;;
  stories <- call CallListProjectStoryDetails
               (list_project_story_details github_client) ;;
  written <- pull_loop 0 stories ;;
  ret {| total_items := length stories; written_stories := written |}.

End Synchronizers.

(* ================================================================== *)
(** ** tests/test_bmad_sync.py: the in-memory client *)
(* ================================================================== *)

Module TestClient.

Record RecordedStory : Type := {
  story_id : str;
  title : str;
  status : str
}.

Record FakeGithubProjectClient : Type := {
  _valid_token : bool;
  _existing_story_ids : list str;
  upserted : list RecordedStory;
  archived : list str
}.

Definition validate_auth (c : FakeGithubProjectClient)
  : result unit * FakeGithubProjectClient :=
  if negb (_valid_token c)
  then (Raise (AuthenticationError "Invalid GitHub token"), c)
  else (Ok tt, c).

Definition list_project_stories (c : FakeGithubProjectClient)
  : result (list str) * FakeGithubProjectClient :=
  (Ok (_existing_story_ids c), c).

Definition upsert_story (story_id title status : str)
    (c : FakeGithubProjectClient) : result unit * FakeGithubProjectClient :=
  (Ok tt,
   {| _valid_token := _valid_token c;
      _existing_story_ids := _existing_story_ids c;
      upserted := upserted c ++
                  [{| story_id := story_id; title := title;
                      status := status |}];
      archived := archived c |}).

Definition archive_story (story_id : str) (c : FakeGithubProjectClient)
  : result unit * FakeGithubProjectClient :=
  (Ok tt,
   {| _valid_token := _valid_token c;
      _existing_story_ids := _existing_story_ids c;
      upserted := upserted c;
      archived := archived c ++ [story_id] |}).

(** The class defines no [list_project_story_details]: looking it up is an
    [AttributeError]. *)
Definition list_project_story_details (c : FakeGithubProjectClient)
  : result (list StoryRecord) * FakeGithubProjectClient :=
  (Raise (AttributeError "list_project_story_details"), c).

Definition ops : client_ops FakeGithubProjectClient :=
  Build_client_ops FakeGithubProjectClient
    validate_auth list_project_stories list_project_story_details
    upsert_story archive_story.

(** [FakeGithubProjectClient(valid_token=..., existing_story_ids=...)] *)
Definition new (valid_token : bool) (existing_story_ids : list str)
  : FakeGithubProjectClient :=
  {| _valid_token := valid_token;
     _existing_story_ids := existing_story_ids;
     upserted := [];
     archived := [] |}.

(** [write_story_file] of the test module: the text it writes. *)
Definition story_file_content (title status : str) : str :=
  lit "---" ++ newline ++
  title_line title ++ newline ++
  status_line status ++ newline ++
  lit "---" ++ newline ++ newline ++
  lit "# " ++ title ++ newline.

End TestClient.

Definition initial_world {S : Type} (client : S) (fs : filesystem) : world S :=
  {| remote := client; disk := fs; trace := [] |}.

(* ================================================================== *)
(** ** The specification's wording, for comparison *)
(* ================================================================== *)

(** Status normalisation as section 4.3 words it: lower-case and trim, map
    the recognised spellings, otherwise convert the characters selected by
    [converted] to underscores. *)
Definition normalize_status_spec (converted : ascii -> bool) (s : str) : str :=
  let n := strip (lower s) in
  if str_eq_dec n "todo" then "todo"
  else if str_eq_dec n "in progress" then "in_progress"
  else if str_eq_dec n "in_progress" then "in_progress"
  else if str_eq_dec n "in-progress" then "in_progress"
  else if str_eq_dec n "done" then "done"
  else map (fun c => if converted c then "_"%char else c) n.

(* ================================================================== *)
(** ** Definitions used in the statements *)
(* ================================================================== *)

(** The first character of [l], if any, is kept by [p]-stripping. *)
Definition head_kept (p : ascii -> bool) (l : str) : Prop :=
  match l with
  | [] => True
  | c :: _ => p c = false
  end.

Definition last_kept (p : ascii -> bool) (l : str) : Prop :=
  head_kept p (rev l).

Definition space_to_underscore (c : ascii) : ascii :=
  if Ascii.eqb c " " then "_"%char else c.

Definition is_delimiter (l : str) : Prop := strip l = lit "---".

Definition matches_key (key line : str) : bool :=
  startswith (strip line) (key ++ lit ":").

(** The value as section 4.1 words it: surrounding whitespace removed, then
    one layer of matching quote characters. *)
Definition unquote_one_layer (s : str) : str :=
  match s with
  | q :: rest =>
      if Ascii.eqb q dquote || Ascii.eqb q squote then
        match rev rest with
        | q' :: middle => if Ascii.eqb q' q then rev middle else s
        | [] => s
        end
      else s
  | [] => []
  end.

(** The two branches at the top of [_render_story_content]. *)
Definition existing_parts (existing_content : option str)
  : option (list str) * list str :=
  match existing_content with
  | Some ((_ :: _) as c) => _split_frontmatter c
  | _ => (None, [])
  end.

Definition carried_forward (frontmatter : option (list str)) : list str :=
  match frontmatter with
  | Some l => l
  | None => []
  end.

Definition body_or_heading (title : str) (body_lines : list str) : list str :=
  match body_lines with
  | [] => [lit "# " ++ title; lit ""]
  | _ :: _ => body_lines
  end.

Definition no_linebreak (l : str) : Prop :=
  Forall (fun c => is_linebreak c = false) l.

(** The text whose lines are [ls], each ended by a newline. *)
Definition unlines (ls : list str) : str :=
  concat (map (fun l => l ++ newline) ls).

(** The document [doc] with [extra] inserted as a new line before line
    number [i] (counting from 0). *)
Definition insert_line (i : nat) (extra : str) (doc : str) : str :=
  let ls := splitlines doc in
  unlines (firstn i ls ++ extra :: skipn i ls).

(** The string neither begins nor ends with a quote character. *)
Definition quote_free_ends (v : str) : Prop :=
  head_kept (Ascii.eqb dquote) v /\ last_kept (Ascii.eqb dquote) v
  /\ head_kept (Ascii.eqb squote) v /\ last_kept (Ascii.eqb squote) v.

(** A quoted value after a key; both rendered lines have this shape. *)
Definition quoted (v : str) : str := " "%char :: dquote :: v ++ [dquote].

Definition heading (title : str) : str := rstrip (lit "# " ++ title).

Definition str_le (a b : str) : Prop := str_leb a b = true.

Definition after_call {S : Type} (w : world S) (s' : S) (ev : event)
  : world S :=
  {| remote := s'; disk := disk w; trace := trace w ++ [ev] |}.

(** The file test of [sync_stories], as a function of the directory. *)
Definition is_md_file (fs : filesystem) (p : str) : bool :=
  match lookup p (entries fs) with
  | Some (File _) => true
  | _ => false
  end
  && if str_eq_dec (suffix p) ".md" then true else false.

Definition story_files (fs : filesystem) : list str :=
  sorted (filter (is_md_file fs) (map fst (entries fs))).

Definition file_content (fs : filesystem) (p : str) : str :=
  match lookup p (entries fs) with
  | Some (File c) => c
  | _ => []
  end.

(** What [_parse_story_file] computes from a file's name and text. *)
Definition parse_content (name content : str) : result (str * str * str) :=
  match _extract_frontmatter_value (splitlines content) "title",
        _extract_frontmatter_value (splitlines content) "status" with
  | Some title, Some status => Ok (stem name, title, status)
  | _, _ => Raise (ValueError (lit "Missing frontmatter fields in " ++ name))
  end.

Fixpoint parse_all (fs : filesystem) (l : list str)
  : result (list (str * str * str)) :=
  match l with
  | [] => Ok []
  | p :: l' =>
      match parse_content p (file_content fs p) with
      | Ok r =>
          match parse_all fs l' with
          | Ok rs => Ok (r :: rs)
          | Raise e => Raise e
          end
      | Raise e => Raise e
      end
  end.

Definition id_of (r : str * str * str) : str :=
  let '(story_id, _, _) := r in story_id.

Definition upsert_event (r : str * str * str) : event :=
  let '(story_id, title, status) := r in CallUpsertStory story_id title status.

(** Each parsed record comes from one story file, in order: its id is the
    file's stem and its title and status are the values extracted from the
    file's lines. *)
Definition parsed_from (fs : filesystem) (p : str) (r : str * str * str)
  : Prop :=
  exists title status,
    r = (stem p, title, status)
    /\ _extract_frontmatter_value (splitlines (file_content fs p)) "title"
       = Some title
    /\ _extract_frontmatter_value (splitlines (file_content fs p)) "status"
       = Some status.

(** The part of [sync_stories] that follows parsing. *)
Definition push_and_archive {S : Type} (github_client : client_ops S)
    (parsed_stories : list (str * str * str)) : M SyncResult :=
  bind
    (for_each parsed_stories
       (fun '(story_id, title, status) =>
          call (CallUpsertStory story_id title status)
               (upsert_story github_client story_id title status)))
    (fun _ =>
       bind (call CallListProjectStories (list_project_stories github_client))
         (fun listed =>
            let existing_story_ids := set_of listed in
            let current_story_ids :=
              set_of (map (fun '(story_id, _, _) => story_id) parsed_stories) in
            bind
              (for_each
                 (sorted (set_difference existing_story_ids current_story_ids))
                 (fun story_id =>
                    call (CallArchiveStory story_id)
                         (archive_story github_client story_id)))
              (fun _ =>
                 ret {| total_stories := length parsed_stories;
                        updated_stories := length parsed_stories |}))).

Definition sample_directory : filesystem :=
  {| dir_exists := true;
     entries :=
       [ (lit "story-2.md",
          File (TestClient.story_file_content "Story Two" "todo"));
         (lit "notes.txt", File (lit "not a story"));
         (lit "drafts.md", Directory) ] |}.

Definition directory_with_bad_file : filesystem :=
  {| dir_exists := true;
     entries :=
       [ (lit "story-1.md",
          File (TestClient.story_file_content "Story One" "todo"));
         (lit "story-2.md", File (lit "title: only a title")) ] |}.

Definition title_in_body : str :=
  lit "---" ++ newline ++ lit "status: todo" ++ newline ++ lit "---"
  ++ newline ++ lit "title: x" ++ newline.

Definition directory_title_in_body : filesystem :=
  {| dir_exists := true;
     entries := [ (lit "a.md", File title_in_body) ] |}.

(** The in-memory client of the tests keeps the three laws, with the
    stories on the board being its fixed list of existing ids. *)
Definition fake_present (c : TestClient.FakeGithubProjectClient) (x : str)
  : Prop :=
  In x (TestClient._existing_story_ids c).

Definition sample_world : world TestClient.FakeGithubProjectClient :=
  initial_world
    (TestClient.new true [lit "story-1"; lit "story-2"; lit "story-0"])
    sample_directory.

(* ================================================================== *)
(** ** github_project.py: the GraphQL client *)
(* ================================================================== *)

Module GitHub.

Record ProjectItem : Type := {
  item_id : str;
  story_id : str
}.

Record StatusOptions : Type := {
  todo : str;
  in_progress : str;
  done : str
}.

(** The fields of [GitHubProjectClient.__init__]. *)
Record GitHubProjectClient : Type := {
  _token : str;
  _project_id : str;
  _status_field_id : str;
  _status_options : StatusOptions
}.

(** One element of [nodes] in the reply to the items query: its ["id"], the
    ["title"] of its ["content"] ([None] when the content is null or
    absent, [Some None] when it has no title) and its own ["title"]. *)
Record node : Type := {
  node_id : str;
  node_content : option (option str);
  node_title : option str
}.

(** [a or b] on [str | None]. *)
Definition or_ (a b : option str) : option str :=
  match a with
  | Some (_ :: _) => a
  | _ => b
  end.

Definition _extract_title (n : node) : str :=
  let content_title :=
    match node_content n with
    | Some t => t
    | None => None
    end in
  match or_ (or_ content_title (node_title n)) (Some (lit "")) with
  | Some t => t
  | None => []
  end.

(** [c in s] for a one-character [c]. *)
Definition mem_char (c : ascii) (s : str) : bool := existsb (Ascii.eqb c) s.

Definition _extract_story_id (title : str) : option str :=
  if startswith title "[" && mem_char "]" title
  then Some (lstrip_by (Ascii.eqb "[") (nth 0 (split1 "]" title) []))
  else None.

Definition _status_option_id (self : GitHubProjectClient) (status : str)
  : result str :=
  let normalized := lower (strip status) in
  if str_eq_dec normalized "todo" then Ok (todo (_status_options self))
  else if in_dec str_eq_dec normalized [lit "in_progress"; lit "in-progress"]
  then Ok (in_progress (_status_options self))
  else if str_eq_dec normalized "done" then Ok (done (_status_options self))
  else Raise (ValueError (lit "Unsupported status value: " ++ status)).

(** The loop of [_list_project_items] over the nodes of the reply. *)
Fixpoint items_of_nodes (nodes : list node) : list ProjectItem :=
  match nodes with
  | [] => []
  | n :: nodes' =>
      match _extract_story_id (_extract_title n) with
      | Some ((_ :: _) as sid) =>
          {| item_id := node_id n; story_id := sid |} :: items_of_nodes nodes'
      | _ => items_of_nodes nodes'
      end
  end.

(** The requests [_graphql] is called with: the query and its variables. *)
Inductive request : Type :=
| ViewerQuery
| ItemsQuery (project_id : str)
| AddDraftIssue (project_id title : str)
| UpdateItemStatus (project_id item_id field_id option_id : str)
| ArchiveItem (project_id item_id : str).

(** The far end of [_graphql]: for each request, the reply (or the
    exception [_graphql] raises) and the next state of the service.  The
    items reply is the list found under data/node/items/nodes. *)
Record service (B : Type) : Type := {
  viewer : B -> result unit * B;
  project_items : str -> B -> result (list node) * B;
  add_draft_issue : str -> str -> B -> result str * B;
  update_item_status : str -> str -> str -> str -> B -> result unit * B;
  archive_item : str -> str -> B -> result unit * B
}.
Arguments viewer {B}.
Arguments project_items {B}.
Arguments add_draft_issue {B}.
Arguments update_item_status {B}.
Arguments archive_item {B}.

(** A client in use: its fields, the service state and the requests sent
    so far. *)
Record session (B : Type) : Type := {
  self : GitHubProjectClient;
  backend : B;
  sent : list request
}.
Arguments self {B}.
Arguments backend {B}.
Arguments sent {B}.

Section Client.

Context {B : Type}.
Variable api : service B.

Definition G (A : Type) : Type := session B -> result A * session B.

Definition gret {A : Type} (a : A) : G A := fun s => (Ok a, s).

Definition graise {A : Type} (e : exn) : G A := fun s => (Raise e, s).

Definition gbind {A C : Type} (m : G A) (k : A -> G C) : G C :=
  fun s =>
    match m s with
    | (Ok a, s') => k a s'
    | (Raise e, s') => (Raise e, s')
    end.

Notation "x <- m ;; k" := (gbind m (fun x => k))
  (at level 61, m at next level, right associativity).

(** One call of [_graphql]. *)
Definition _graphql {A : Type} (rq : request) (reply : B -> result A * B)
  : G A :=
  fun s =>
    let '(r, b') := reply (backend s) in
    (r, {| self := self s; backend := b'; sent := sent s ++ [rq] |}).

Definition get_self : G GitHubProjectClient := fun s => (Ok (self s), s).

Definition validate_auth : G unit := _graphql ViewerQuery (viewer api).

Definition _list_project_items : G (list ProjectItem) :=
  me <- get_self ;;
  nodes <- _graphql (ItemsQuery (_project_id me))
             (project_items api (_project_id me)) ;;
  gret (items_of_nodes nodes).

Definition list_project_stories : G (list str) :=
  items <- _list_project_items ;;
  gret (map story_id items).

Definition _add_draft_issue (title : str) : G str :=
  me <- get_self ;;
  _graphql (AddDraftIssue (_project_id me) title)
    (add_draft_issue api (_project_id me) title).

Definition _update_status (item_id status : str) : G unit :=
  me <- get_self ;;
  match _status_option_id me status with
  | Raise e => graise e
  | Ok option_id =>
      _graphql
        (UpdateItemStatus (_project_id me) item_id (_status_field_id me)
           option_id)
        (update_item_status api (_project_id me) item_id
           (_status_field_id me) option_id)
  end.

Definition _archive_item (item_id : str) : G unit :=
  me <- get_self ;;
  _graphql (ArchiveItem (_project_id me) item_id)
    (archive_item api (_project_id me) item_id).

(** [next((item for item in items if item.story_id == story_id), None)] *)
Definition find_item (story_id : str) (items : list ProjectItem)
  : option ProjectItem :=
  find (fun item => if str_eq_dec (GitHub.story_id item) story_id
                    then true else false) items.

Definition upsert_story (story_id title status : str) : G unit :=
  items <- _list_project_items ;;
  item_id <- match find_item story_id items with
             | None => _add_draft_issue (lit "[" ++ story_id ++ lit "] " ++ title)
             | Some existing => gret (item_id existing)
             end ;;
  _update_status item_id status.

Definition archive_story (story_id : str) : G unit :=
  items <- _list_project_items ;;
  match find_item story_id items with
  | None => gret tt
  | Some existing => _archive_item (item_id existing)
  end.

(** The class defines no [list_project_story_details]. *)
Definition list_project_story_details : G (list StoryRecord) :=
  graise (AttributeError "list_project_story_details").

(** The methods as [sync_stories] and [pull_stories] see them. *)
Definition ops : client_ops (session B) :=
  Build_client_ops (session B)
    validate_auth list_project_stories list_project_story_details
    upsert_story archive_story.

End Client.

(** [os.getenv]: the environment as a lookup. *)
Definition environ : Type := str -> option str.

Definition _required_env (env : environ) (name : str) : result str :=
  match env name with
  | Some ((_ :: _) as value) => Ok value
  | _ => Raise (ValueError (lit "Missing required environment variable: "
                            ++ name))
  end.

Definition rbind {A C : Type} (m : result A) (k : A -> result C) : result C :=
  match m with
  | Ok a => k a
  | Raise e => Raise e
  end.

Definition build_client_from_env (env : environ) : result GitHubProjectClient :=
  rbind (_required_env env "GITHUB_TOKEN") (fun token =>
  rbind (_required_env env "GITHUB_PROJECT_ID") (fun project_id =>
  rbind (_required_env env "GITHUB_STATUS_FIELD_ID") (fun status_field_id =>
  rbind (_required_env env "GITHUB_STATUS_TODO_ID") (fun todo_id =>
  rbind (_required_env env "GITHUB_STATUS_IN_PROGRESS_ID") (fun in_progress_id =>
  rbind (_required_env env "GITHUB_STATUS_DONE_ID") (fun done_id =>
  Ok {| _token := token;
        _project_id := project_id;
        _status_field_id := status_field_id;
        _status_options :=
          {| todo := todo_id; in_progress := in_progress_id;
             done := done_id |} |})))))).

End GitHub.

(* ================================================================== *)
(** ** Definitions used in the further properties *)
(* ================================================================== *)

(** Every event a computation adds to the trace satisfies [P]. *)
Definition steps_within {S A : Type} (P : event -> Prop) (m : M (S := S) A)
  : Prop :=
  forall w, exists t, trace (snd (m w)) = trace w ++ t /\ Forall P t.

(** A computation leaves the directory as it found it. *)
Definition keeps_disk {S A : Type} (m : M (S := S) A) : Prop :=
  forall w, disk (snd (m w)) = disk w.


Definition is_client_call (ev : event) : Prop :=
  match ev with
  | FsMkdir | FsWriteText _ _ => False
  | _ => True
  end.

(** The events [pull_stories] may cause: it reads the board, it never
    changes it. *)
Definition is_pull_event (ev : event) : Prop :=
  match ev with
  | CallValidateAuth | CallListProjectStoryDetails
  | FsMkdir | FsWriteText _ _ => True
  | _ => False
  end.

Definition is_upsert (ev : event) : bool :=
  match ev with
  | CallUpsertStory _ _ _ => true
  | _ => false
  end.

(** The text of the regular file called [name], if there is one. *)
Definition previous (fs : filesystem) (name : str) : option str :=
  match lookup name (entries fs) with
  | Some (File c) => Some c
  | _ => None
  end.

(** The file [pull_stories] writes for a story. *)
Definition target_of (story : StoryRecord) : str :=
  story_id story ++ lit ".md".

Definition write_of (story : StoryRecord) (ev : event) : Prop :=
  exists content, ev = FsWriteText (target_of story) content.

(** What [pull_stories] writes for a story, given the directory it finds. *)
Definition written_content (fs : filesystem) (story : StoryRecord) : str :=
  _render_story_content (title story) (_normalize_status (status story))
    (previous fs (target_of story)).

(** A client that authenticates and lists a fixed sequence of stories; its
    other methods do nothing.  Used to run [pull_stories] in examples. *)
Definition listing_ops (stories : list StoryRecord) : client_ops unit :=
  Build_client_ops unit
    (fun s => (Ok tt, s))
    (fun s => (Ok (map story_id stories), s))
    (fun s => (Ok stories, s))
    (fun _ _ _ s => (Ok tt, s))
    (fun _ s => (Ok tt, s)).

Definition sample_stories : list StoryRecord :=
  [ {| story_id := lit "story-9"; title := lit "Example";
       status := lit "In Progress" |};
    {| story_id := lit "story-2"; title := lit "Story Two, renamed";
       status := lit "done" |} ].

Definition pull_world : world unit :=
  initial_world tt sample_directory.

(** The title [upsert_story] gives a new draft issue. *)
Definition draft_title (story_id title : str) : str :=
  lit "[" ++ story_id ++ lit "] " ++ title.

(** A story id the client can find again in a listing. *)
Definition findable (story_id : str) : Prop :=
  story_id <> [] /\ ~ In "]"%char story_id
  /\ head_kept (Ascii.eqb "[") story_id.

Definition is_add_draft (rq : GitHub.request) : Prop :=
  match rq with
  | GitHub.AddDraftIssue _ _ => True
  | _ => False
  end.

(** The variables [build_client_from_env] reads, in the order it reads
    them. *)
Definition required_names : list str :=
  [ lit "GITHUB_TOKEN"; lit "GITHUB_PROJECT_ID";
    lit "GITHUB_STATUS_FIELD_ID"; lit "GITHUB_STATUS_TODO_ID";
    lit "GITHUB_STATUS_IN_PROGRESS_ID"; lit "GITHUB_STATUS_DONE_ID" ].

Definition env_set (env : GitHub.environ) (name : str) : Prop :=
  exists value, env name = Some value /\ value <> [].

Definition env_unset (env : GitHub.environ) (name : str) : Prop :=
  env name = None \/ env name = Some [].

(** A service kept in memory, for examples: its state is the list of nodes
    of the project; a new draft issue is appended under the id "new". *)
Definition memory_service : GitHub.service (list GitHub.node) :=
  GitHub.Build_service (list GitHub.node)
    (fun b => (Ok tt, b))
    (fun _ b => (Ok b, b))
    (fun _ title b =>
       (Ok (lit "new"),
        b ++ [ {| GitHub.node_id := lit "new";
                  GitHub.node_content := Some (Some title);
                  GitHub.node_title := None |} ]))
    (fun _ _ _ _ b => (Ok tt, b))
    (fun _ _ b => (Ok tt, b)).

Definition sample_client : GitHub.GitHubProjectClient :=
  {| GitHub._token := lit "t";
     GitHub._project_id := lit "P";
     GitHub._status_field_id := lit "F";
     GitHub._status_options :=
       {| GitHub.todo := lit "o1"; GitHub.in_progress := lit "o2";
          GitHub.done := lit "o3" |} |}.

Definition sample_session : GitHub.session (list GitHub.node) :=
  {| GitHub.self := sample_client;
     GitHub.backend :=
       [ {| GitHub.node_id := lit "I1";
            GitHub.node_content := Some (Some (lit "[story-1] One"));
            GitHub.node_title := None |};
         {| GitHub.node_id := lit "I2";
            GitHub.node_content := None;
            GitHub.node_title := Some (lit "not a story") |} ];
     GitHub.sent := [] |}.

Definition sample_env : GitHub.environ :=
  fun name =>
    if str_eq_dec name "GITHUB_TOKEN" then Some (lit "t")
    else if str_eq_dec name "GITHUB_PROJECT_ID" then Some (lit "P")
    else if str_eq_dec name "GITHUB_STATUS_FIELD_ID" then Some (lit "")
    else None.

(** The session once [_list_project_items] has sent its query. *)
Definition after_items {B : Type} (api : GitHub.service B)
    (s : GitHub.session B) : GitHub.session B :=
  {| GitHub.self := GitHub.self s;
     GitHub.backend :=
       snd (GitHub.project_items api (GitHub._project_id (GitHub.self s))
              (GitHub.backend s));
     GitHub.sent :=
       GitHub.sent s ++ [GitHub.ItemsQuery (GitHub._project_id (GitHub.self s))]
  |}.

(* ================================================================== *)
(** ** hangman/game.py *)
(* ================================================================== *)

From Stdlib Require Import ZArith.

Module Hangman.

(** [sub in s] on strings: [sub] occurs in [s] as a substring. *)
Fixpoint contains (s sub : str) : bool :=
  startswith s sub
  || match s with
     | [] => false
     | _ :: s' => contains s' sub
     end.

(** The set [guessed_letters] is kept as a list without repetitions. *)
Record HangmanGame : Type := {
  word : str;
  max_errors : Z;
  guessed_letters : list str;
  score : Z
}.

(** [HangmanGame(word)]: the defaults of the dataclass, then
    [__post_init__]. *)
Definition new (word : str) : HangmanGame :=
  {| word := lower word;
     max_errors := 5%Z;
     guessed_letters := [];
     score := 0%Z |}.

Definition masked_word (self : HangmanGame) : str :=
  join (lit " ")
    (map (fun letter : ascii =>
            if mem [letter] (guessed_letters self) then [letter] else lit "_")
       (word self)).

Definition guess (letter : str) (self : HangmanGame) : bool * HangmanGame :=
  let letter := lower letter in
  match letter with
  | [] => (false, self)
  | _ :: _ =>
      if mem letter (guessed_letters self)
      then (contains (word self) letter, self)
      else
        let added :=
          {| word := word self;
             max_errors := max_errors self;
             guessed_letters := letter :: guessed_letters self;
             score := score self |} in
        if contains (word self) letter then (true, added)
        else (false,
              {| word := word self;
                 max_errors := max_errors self;
                 guessed_letters := letter :: guessed_letters self;
                 score := (score self + 1)%Z |})
  end.

Definition is_won (self : HangmanGame) : bool :=
  forallb (fun letter : ascii => mem [letter] (guessed_letters self))
    (word self).

Definition is_lost (self : HangmanGame) : bool :=
  (max_errors self <=? score self)%Z.

Definition status (self : HangmanGame) : str :=
  if is_won self then "won"
  else if is_lost self then "lost"
  else "ongoing".

(** A sequence of guesses, one after the other. *)
Fixpoint play (letters : list str) (self : HangmanGame) : HangmanGame :=
  match letters with
  | [] => self
  | letter :: letters' => play letters' (snd (guess letter self))
  end.

End Hangman.

(* ================================================================== *)
(** ** Definitions used in the statements about render, archive and pull *)
(* ================================================================== *)

(** A title: or status: line as section 4.1 words it: once trimmed and
    lower-cased, the line begins with the key and its colon. *)
Definition owned_key_line (line : str) : Prop :=
  exists rest,
    lower (strip line) = lit "title:" ++ rest
    \/ lower (strip line) = lit "status:" ++ rest.

(** [kept_lines dropped ls ks]: [ks] is [ls] without its [dropped] lines,
    the others unchanged and in order. *)
Inductive kept_lines (dropped : str -> Prop) : list str -> list str -> Prop :=
| kept_nil : kept_lines dropped [] []
| kept_drop (l : str) (ls ks : list str) :
    dropped l -> kept_lines dropped ls ks -> kept_lines dropped (l :: ls) ks
| kept_keep (l : str) (ls ks : list str) :
    ~ dropped l -> kept_lines dropped ls ks ->
    kept_lines dropped (l :: ls) (l :: ks).

(** The client method an event stands for, applied to a client state;
    [None] when the method raises.  Events of the directory leave the
    client as it is. *)
Definition method_of {S : Type} (client : client_ops S) (ev : event) (s : S)
  : option S :=
  match ev with
  | CallValidateAuth =>
      match validate_auth client s with
      | (Ok _, s') => Some s'
      | (Raise _, _) => None
      end
  | CallListProjectStories =>
      match list_project_stories client s with
      | (Ok _, s') => Some s'
      | (Raise _, _) => None
      end
  | CallListProjectStoryDetails =>
      match list_project_story_details client s with
      | (Ok _, s') => Some s'
      | (Raise _, _) => None
      end
  | CallUpsertStory story_id title status =>
      match upsert_story client story_id title status s with
      | (Ok _, s') => Some s'
      | (Raise _, _) => None
      end
  | CallArchiveStory story_id =>
      match archive_story client story_id s with
      | (Ok _, s') => Some s'
      | (Raise _, _) => None
      end
  | FsMkdir | FsWriteText _ _ => Some s
  end.

(** The client state reached by invoking, in order, the methods a list of
    events stands for. *)
Fixpoint replay {S : Type} (client : client_ops S) (evs : list event) (s : S)
  : option S :=
  match evs with
  | [] => Some s
  | ev :: evs' =>
      match method_of client ev s with
      | Some s' => replay client evs' s'
      | None => None
      end
  end.

(** A story id that names a file directly in the output directory: it
    holds no path separator and no NUL.  For such an id the path
    [bmad_output_dir / f"{story_id}.md"] is the entry [story_id ++ ".md"]
    of the directory, which is how [pull_one] reads it. *)
Definition flat_id (story_id : str) : Prop :=
  ~ In "/"%char story_id /\ ~ In "000"%char story_id.




(* ================================================================== *)
(** ** Characters *)
(* ================================================================== *)

Ltac ascii_cases c := destruct c as [[] [] [] [] [] [] [] []].

Lemma isspace_lower_char (c : ascii) : isspace (lower_char c) = isspace c.
Proof. ascii_cases c; reflexivity. Qed.

Lemma lower_char_idem (c : ascii) : lower_char (lower_char c) = lower_char c.
Proof. ascii_cases c; reflexivity. Qed.

Lemma linebreak_isspace (c : ascii) : is_linebreak c = true -> isspace c = true.
Proof. ascii_cases c; intros H; try reflexivity; discriminate H. Qed.

Lemma ascii_eqb_eq (a b : ascii) : Ascii.eqb a b = true <-> a = b.
Proof. apply Ascii.eqb_eq. Qed.

Lemma ascii_eqb_neq (a b : ascii) : Ascii.eqb a b = false <-> a <> b.
Proof. apply Ascii.eqb_neq. Qed.

(* ================================================================== *)
(** ** Stripping *)
(* ================================================================== *)

Section Strip.

Variable p : ascii -> bool.

Lemma dropwhile_head_kept (s : str) : head_kept p (dropwhile p s).
Proof.
  induction s as [|c s IH]; simpl; [exact I|].
  destruct (p c) eqn:E; [exact IH | simpl; exact E].
Qed.

Lemma dropwhile_fixed (l : str) : head_kept p l -> dropwhile p l = l.
Proof. destruct l as [|c l]; simpl; [reflexivity|]. intros ->. reflexivity. Qed.

Lemma dropwhile_split (s : str) :
  exists a, s = a ++ dropwhile p s /\ forallb p a = true.
Proof.
  induction s as [|c s [a [IH1 IH2]]]; simpl.
  - exists []. split; reflexivity.
  - destruct (p c) eqn:E.
    + exists (c :: a). simpl. rewrite E, IH2. split; [f_equal; exact IH1 | reflexivity].
    + exists []. split; reflexivity.
Qed.

Lemma dropwhile_all (a l : str) :
  forallb p a = true -> dropwhile p (a ++ l) = dropwhile p l.
Proof.
  induction a as [|c a IH]; simpl; [reflexivity|].
  intros H. apply andb_true_iff in H as [-> H]. apply IH, H.
Qed.

Lemma rstrip_by_split (l : str) :
  exists t, l = rstrip_by p l ++ t /\ forallb p t = true.
Proof.
  unfold rstrip_by. destruct (dropwhile_split (rev l)) as [a [H1 H2]].
  exists (rev a). split.
  - rewrite <- rev_app_distr, <- H1, rev_involutive. reflexivity.
  - rewrite forallb_forall in *. intros x Hx. apply H2, in_rev, Hx.
Qed.

Lemma rstrip_by_last_kept (l : str) : last_kept p (rstrip_by p l).
Proof.
  unfold last_kept, rstrip_by. rewrite rev_involutive. apply dropwhile_head_kept.
Qed.

Lemma rstrip_by_head_kept (l : str) : head_kept p l -> head_kept p (rstrip_by p l).
Proof.
  intros H. destruct (rstrip_by_split l) as [t [E _]].
  destruct (rstrip_by p l) as [|c r] eqn:R; [exact I|].
  rewrite E in H. exact H.
Qed.

Lemma rstrip_by_fixed (l : str) : last_kept p l -> rstrip_by p l = l.
Proof.
  unfold last_kept, rstrip_by. intros H.
  rewrite (dropwhile_fixed _ H). apply rev_involutive.
Qed.

Lemma strip_by_kept (s : str) :
  head_kept p (strip_by p s) /\ last_kept p (strip_by p s).
Proof.
  unfold strip_by, lstrip_by. split.
  - apply rstrip_by_head_kept, dropwhile_head_kept.
  - apply rstrip_by_last_kept.
Qed.

Lemma strip_by_fixed (l : str) :
  head_kept p l -> last_kept p l -> strip_by p l = l.
Proof.
  intros H1 H2. unfold strip_by, lstrip_by.
  rewrite (dropwhile_fixed _ H1). apply rstrip_by_fixed, H2.
Qed.

Lemma strip_by_idem (s : str) : strip_by p (strip_by p s) = strip_by p s.
Proof. destruct (strip_by_kept s). apply strip_by_fixed; assumption. Qed.

(** Appending a kept character protects everything before it. *)
Lemma rstrip_by_app_kept (a b : str) :
  b <> [] -> last_kept p b -> rstrip_by p (a ++ b) = a ++ b.
Proof.
  intros Hb H. apply rstrip_by_fixed. unfold last_kept in *.
  rewrite rev_app_distr. destruct (rev b) as [|c r] eqn:E.
  - apply (f_equal (@rev ascii)) in E. rewrite rev_involutive in E.
    simpl in E. contradiction.
  - simpl. exact H.
Qed.

Lemma rstrip_by_app_all (a t : str) :
  forallb p t = true -> rstrip_by p (a ++ t) = rstrip_by p a.
Proof.
  intros H. unfold rstrip_by. rewrite rev_app_distr, dropwhile_all; [reflexivity|].
  rewrite forallb_forall in *. intros x Hx. apply H, in_rev. exact Hx.
Qed.

End Strip.

Lemma head_kept_map (p : ascii -> bool) (f : ascii -> ascii) (l : str) :
  (forall c, p c = false -> p (f c) = false) ->
  head_kept p l -> head_kept p (map f l).
Proof. intros Hf. destruct l as [|c l]; simpl; [trivial | apply Hf]. Qed.

Lemma last_kept_map (p : ascii -> bool) (f : ascii -> ascii) (l : str) :
  (forall c, p c = false -> p (f c) = false) ->
  last_kept p l -> last_kept p (map f l).
Proof.
  intros Hf. unfold last_kept. rewrite <- map_rev. apply head_kept_map, Hf.
Qed.

Lemma dropwhile_map (p : ascii -> bool) (f : ascii -> ascii) (s : str) :
  (forall c, p (f c) = p c) ->
  dropwhile p (map f s) = map f (dropwhile p s).
Proof.
  intros Hf. induction s as [|c s IH]; simpl; [reflexivity|].
  rewrite Hf. destruct (p c); [exact IH | reflexivity].
Qed.

Lemma strip_by_map (p : ascii -> bool) (f : ascii -> ascii) (s : str) :
  (forall c, p (f c) = p c) ->
  strip_by p (map f s) = map f (strip_by p s).
Proof.
  intros Hf. unfold strip_by, rstrip_by, lstrip_by.
  rewrite (dropwhile_map p f s Hf), <- map_rev, (dropwhile_map p f _ Hf), map_rev.
  reflexivity.
Qed.

Lemma strip_lower (s : str) : strip (lower s) = lower (strip s).
Proof. apply strip_by_map, isspace_lower_char. Qed.

Lemma lower_idem (s : str) : lower (lower s) = lower s.
Proof.
  unfold lower. rewrite map_map. apply map_ext. intros c. apply lower_char_idem.
Qed.

(* ================================================================== *)
(** ** Status normalisation *)
(* ================================================================== *)

Lemma replace_space_map (n : str) :
  replace " " "_" n = map space_to_underscore n.
Proof. reflexivity. Qed.

Lemma space_to_underscore_idem (c : ascii) :
  space_to_underscore (space_to_underscore c) = space_to_underscore c.
Proof. ascii_cases c; reflexivity. Qed.

Lemma space_to_underscore_kept (c : ascii) :
  isspace c = false -> isspace (space_to_underscore c) = false.
Proof. ascii_cases c; intros H; try reflexivity; discriminate H. Qed.

Lemma space_to_underscore_lower (c : ascii) :
  lower_char (space_to_underscore (lower_char c))
  = space_to_underscore (lower_char c).
Proof. ascii_cases c; reflexivity. Qed.

Lemma space_to_underscore_inv (c d : ascii) :
  space_to_underscore c = d ->
  (c = d /\ d <> " "%char) \/ (c = " "%char /\ d = "_"%char).
Proof.
  unfold space_to_underscore. destruct (Ascii.eqb c " ") eqn:E; intros <-.
  - right. apply ascii_eqb_eq in E. split; [exact E | reflexivity].
  - left. apply ascii_eqb_neq in E. split; [reflexivity | exact E].
Qed.

(** A result without underscore comes from an input equal to it. *)
Lemma replace_space_inv_plain (n l : str) :
  replace " " "_" n = l -> ~ In "_"%char l -> n = l.
Proof.
  rewrite replace_space_map. revert l.
  induction n as [|c n IH]; intros l H Hl; simpl in H; subst l; [reflexivity|].
  destruct (space_to_underscore_inv c _ eq_refl) as [[E _]|[_ E]].
  - simpl. f_equal; [exact E|]. apply IH; [reflexivity|].
    intros Hin. apply Hl. right. exact Hin.
  - exfalso. apply Hl. left. exact E.
Qed.

(** Around one underscore of the result, the input has an underscore or a
    space. *)
Lemma replace_space_inv_one (n a b : str) :
  replace " " "_" n = a ++ "_"%char :: b ->
  ~ In "_"%char a -> ~ In "_"%char b ->
  n = a ++ "_"%char :: b \/ n = a ++ " "%char :: b.
Proof.
  revert n. induction a as [|x a IH]; intros n H Ha Hb.
  - destruct n as [|c n]; [discriminate H|]. simpl in H.
    injection H as Hc Hn. apply replace_space_inv_plain in Hn; [|exact Hb].
    subst b. destruct (space_to_underscore_inv c _ Hc) as [[E _]|[E _]];
      subst c; [left | right]; reflexivity.
  - destruct n as [|c n]; [discriminate H|]. simpl in H.
    injection H as Hc Hn.
    assert (c = x) as ->.
    { destruct (space_to_underscore_inv c _ Hc) as [[E _]|[_ E]]; [exact E|].
      exfalso. apply Ha. left. exact E. }
    destruct (IH n Hn) as [E|E]; [intros Hin; apply Ha; right; exact Hin
                                 | exact Hb | | ];
      subst n; [left | right]; reflexivity.
Qed.

Lemma replace_space_no_space (n : str) : ~ In " "%char (replace " " "_" n).
Proof.
  rewrite replace_space_map. intros H. apply in_map_iff in H as [c [H _]].
  revert H. ascii_cases c; discriminate.
Qed.

Lemma normalized_kept (s : str) :
  head_kept isspace (lower (strip s)) /\ last_kept isspace (lower (strip s)).
Proof.
  destruct (strip_by_kept isspace s) as [H1 H2]. split.
  - apply head_kept_map; [|exact H1]. intros c. rewrite isspace_lower_char. trivial.
  - apply last_kept_map; [|exact H2]. intros c. rewrite isspace_lower_char. trivial.
Qed.

(** The fall-through result is a fixed point of the first two steps. *)
Lemma fallthrough_stable (s : str) :
  lower (strip (replace " " "_" (lower (strip s))))
  = replace " " "_" (lower (strip s)).
Proof.
  destruct (normalized_kept s) as [H1 H2].
  unfold strip. rewrite strip_by_fixed.
  - rewrite replace_space_map. unfold lower. rewrite !map_map.
    apply map_ext. intros c. apply space_to_underscore_lower.
  - rewrite replace_space_map. apply head_kept_map; [|exact H1].
    apply space_to_underscore_kept.
  - rewrite replace_space_map. apply last_kept_map; [|exact H2].
    apply space_to_underscore_kept.
Qed.

Lemma replace_space_idem (n : str) :
  replace " " "_" (replace " " "_" n) = replace " " "_" n.
Proof.
  rewrite !replace_space_map, map_map. apply map_ext.
  intros c. apply space_to_underscore_idem.
Qed.

(** C4 as worded fails: a tab inside an unrecognised status is whitespace,
    and [_normalize_status] leaves it in place where the specification's
    wording turns it into an underscore. *)
Lemma normalize_status_keeps_tab :
  _normalize_status (lit "a" ++ ["009"%char] ++ lit "b")
    = lit "a" ++ ["009"%char] ++ lit "b"
  /\ normalize_status_spec isspace (lit "a" ++ ["009"%char] ++ lit "b")
    = lit "a_b"
  /\ _normalize_status (lit "a" ++ ["009"%char] ++ lit "b")
    <> normalize_status_spec isspace (lit "a" ++ ["009"%char] ++ lit "b").
Proof.
  split; [reflexivity|]. split; [reflexivity|]. vm_compute. discriminate.
Qed.

(** C4, amended: for every input string, status normalisation agrees with
    lower-casing and trimming it, mapping "todo" to todo, each of
    "in progress", "in_progress", "in-progress" to in_progress, "done" to
    done, and passing every other string through with each space character
    (code point 32, and no other whitespace) replaced by an underscore. *)
Theorem normalize_status_replaces_spaces (s : str) :
  _normalize_status s = normalize_status_spec (fun c => Ascii.eqb c " ") s.
Proof.
  unfold _normalize_status, normalize_status_spec.
  rewrite strip_lower. set (n := lower (strip s)).
  destruct (str_eq_dec n "todo"); [reflexivity|].
  destruct (in_dec str_eq_dec n _) as [Hin|Hout].
  - simpl in Hin.
    destruct (str_eq_dec n "in progress"); [reflexivity|].
    destruct (str_eq_dec n "in_progress"); [reflexivity|].
    destruct (str_eq_dec n "in-progress"); [reflexivity|].
    exfalso. destruct Hin as [H|[H|[H|[]]]]; symmetry in H; contradiction.
  - simpl in Hout.
    destruct (str_eq_dec n "in progress") as [E|_];
      [exfalso; apply Hout; left; symmetry; exact E|].
    destruct (str_eq_dec n "in_progress") as [E|_];
      [exfalso; apply Hout; right; left; symmetry; exact E|].
    destruct (str_eq_dec n "in-progress") as [E|_];
      [exfalso; apply Hout; right; right; left; symmetry; exact E|].
    destruct (str_eq_dec n "done"); reflexivity.
Qed.

(** C10: status normalisation is idempotent: normalising the result of
    normalising [s] gives the same string as normalising [s] once. *)
Theorem normalize_status_idempotent (s : str) :
  _normalize_status (_normalize_status s) = _normalize_status s.
Proof.
  unfold _normalize_status at 2 3.
  set (n := lower (strip s)).
  destruct (str_eq_dec n "todo"); [reflexivity|].
  destruct (in_dec str_eq_dec n _) as [Hin|Hout]; [reflexivity|].
  destruct (str_eq_dec n "done"); [reflexivity|].
  unfold _normalize_status. subst n. rewrite fallthrough_stable.
  set (n := lower (strip s)) in *.
  destruct (str_eq_dec (replace " " "_" n) "todo") as [E|_].
  { apply replace_space_inv_plain in E; [contradiction|].
    simpl. intros H. repeat (destruct H as [H|H]; [discriminate H|]). exact H. }
  destruct (in_dec str_eq_dec (replace " " "_" n) _) as [Hin|_].
  { exfalso. simpl in Hin. destruct Hin as [E|[E|[E|[]]]]; symmetry in E.
    - apply (replace_space_no_space n). rewrite E. simpl. tauto.
    - apply (replace_space_inv_one n (lit "in") (lit "progress")) in E.
      + apply Hout. simpl. destruct E as [E|E]; rewrite E; tauto.
      + simpl. intros H. repeat (destruct H as [H|H]; [discriminate H|]). exact H.
      + simpl. intros H. repeat (destruct H as [H|H]; [discriminate H|]). exact H.
    - apply replace_space_inv_plain in E.
      + apply Hout. rewrite E. simpl. tauto.
      + simpl. intros H. repeat (destruct H as [H|H]; [discriminate H|]). exact H. }
  destruct (str_eq_dec (replace " " "_" n) "done") as [E|_].
  { apply replace_space_inv_plain in E; [contradiction|].
    simpl. intros H. repeat (destruct H as [H|H]; [discriminate H|]). exact H. }
  apply replace_space_idem.
Qed.

(* ================================================================== *)
(** ** Splitting a document into frontmatter and body *)
(* ================================================================== *)

Lemma find_delimiter_some (i idx : nat) (ls : list str) :
  find_delimiter i ls = Some idx ->
  exists fm close body,
    ls = fm ++ close :: body /\ Forall (fun l => ~ is_delimiter l) fm
    /\ is_delimiter close /\ idx = i + length fm.
Proof.
  revert i. induction ls as [|l ls IH]; intros i H;
    cbn [find_delimiter] in H; [discriminate|].
  destruct (str_eq_dec (strip l) "---") as [E|E].
  - injection H as <-. exists [], l, ls. simpl.
    repeat split; [constructor | exact E | lia].
  - destruct (IH _ H) as [fm [close [body [H1 [H2 [H3 H4]]]]]].
    exists (l :: fm), close, body. simpl. subst ls.
    repeat split; [constructor; assumption | exact H3 | lia].
Qed.

Lemma find_delimiter_none (i : nat) (ls : list str) :
  find_delimiter i ls = None -> Forall (fun l => ~ is_delimiter l) ls.
Proof.
  revert i. induction ls as [|l ls IH]; intros i H;
    cbn [find_delimiter] in H; [constructor|].
  destruct (str_eq_dec (strip l) "---") as [E|E]; [discriminate|].
  constructor; [exact E | exact (IH _ H)].
Qed.

Lemma slice_frontmatter {A : Type} (first close : A) (fm body : list A) :
  slice 1 (1 + length fm) (first :: fm ++ close :: body) = fm
  /\ skipn (1 + length fm + 1) (first :: fm ++ close :: body) = body.
Proof.
  unfold slice. split.
  - replace (1 + length fm - 1) with (length fm) by lia. simpl skipn.
    rewrite firstn_app, firstn_all, Nat.sub_diag. simpl. apply app_nil_r.
  - replace (1 + length fm + 1) with (S (length fm + 1)) by lia. simpl skipn.
    rewrite skipn_app, skipn_all2 by lia.
    replace (length fm + 1 - length fm) with 1 by lia. reflexivity.
Qed.

(** C5 as worded fails: a first line that is not exactly "---" (here it
    carries a leading space) still opens a frontmatter block. *)
Lemma split_frontmatter_padded_delimiter :
  let content := lit " ---" ++ newline ++ lit "a: 1" ++ newline
                 ++ lit "---" ++ newline ++ lit "b" in
  hd_error (splitlines content) <> Some (lit "---")
  /\ _split_frontmatter content = (Some [lit "a: 1"], [lit "b"]).
Proof. split; [vm_compute; discriminate | reflexivity]. Qed.

(** C5, amended: for every content string, with its lines as produced by
    [splitlines], parse returns frontmatter exactly when the first line,
    trimmed of surrounding whitespace, equals "---" and a later line,
    trimmed, equals "---"; it then returns the lines strictly between the
    opening line and the first such closing line as frontmatter and the
    lines after that closing line as body.  Otherwise (no line, a first
    line whose trimmed form is not "---", or no closing delimiter) it
    returns all lines as body with frontmatter absent.  The function is
    total: it never raises. *)
Theorem split_frontmatter_cases (content : str) :
  let lines := splitlines content in
  (exists first fm close body,
      lines = first :: fm ++ close :: body
      /\ is_delimiter first
      /\ Forall (fun l => ~ is_delimiter l) fm
      /\ is_delimiter close
      /\ _split_frontmatter content = (Some fm, body))
  \/ (_split_frontmatter content = (None, lines)
      /\ (lines = []
          \/ (exists first rest, lines = first :: rest /\ ~ is_delimiter first)
          \/ (exists first rest, lines = first :: rest /\ is_delimiter first
                /\ Forall (fun l => ~ is_delimiter l) rest))).
Proof.
  unfold _split_frontmatter. cbv zeta.
  destruct (splitlines content) as [|first rest] eqn:L.
  - right. split; [reflexivity | left; reflexivity].
  - destruct (str_eq_dec (strip first) "---") as [E|E].
    + destruct (find_delimiter 1 rest) as [idx|] eqn:F.
      * left. apply find_delimiter_some in F
          as [fm [close [body [H1 [H2 [H3 H4]]]]]].
        exists first, fm, close, body. subst rest idx.
        destruct (slice_frontmatter first close fm body) as [S1 S2].
        rewrite S1, S2. repeat split; assumption.
      * right. split; [reflexivity|]. right. right.
        exists first, rest. repeat split; [exact E|].
        exact (find_delimiter_none _ _ F).
    + right. split; [reflexivity|]. right. left.
      exists first, rest. split; [reflexivity | exact E].
Qed.

(* ================================================================== *)
(** ** Extracting a frontmatter value *)
(* ================================================================== *)

Lemma startswith_app (s prefix : str) :
  startswith s prefix = true <-> exists r, s = prefix ++ r.
Proof.
  revert s. induction prefix as [|x prefix IH]; intros s; simpl.
  - split; [intros _; exists s; reflexivity | reflexivity].
  - destruct s as [|c s]; simpl.
    + split; [discriminate | intros [r H]; discriminate H].
    + rewrite andb_true_iff, ascii_eqb_eq, IH. split.
      * intros [-> [r ->]]. exists r. reflexivity.
      * intros [r H]. injection H as -> ->. split; [reflexivity | exists r; reflexivity].
Qed.

Lemma strip_by_decompose (p : ascii -> bool) (l : str) :
  exists a t, l = a ++ strip_by p l ++ t
              /\ forallb p a = true /\ forallb p t = true.
Proof.
  destruct (dropwhile_split p l) as [a [H1 H2]].
  destruct (rstrip_by_split p (dropwhile p l)) as [t [H3 H4]].
  exists a, t. unfold strip_by, lstrip_by. rewrite <- H3.
  repeat split; assumption.
Qed.

Lemma split1_first (sep : ascii) (a rest : str) :
  ~ In sep a -> split1 sep (a ++ sep :: rest) = [a; rest].
Proof.
  induction a as [|c a IH]; intros H; simpl.
  - rewrite Ascii.eqb_refl. reflexivity.
  - destruct (Ascii.eqb c sep) eqn:E.
    + apply ascii_eqb_eq in E. exfalso. apply H. left. exact E.
    + rewrite IH; [reflexivity|]. intros Hin. apply H. right. exact Hin.
Qed.

Lemma first_occurrence (sep : ascii) (s : str) :
  In sep s -> exists a rest, s = a ++ sep :: rest /\ ~ In sep a.
Proof.
  induction s as [|c s IH]; intros H; [destruct H|].
  destruct (ascii_dec c sep) as [->|N].
  - exists [], s. split; [reflexivity | intros []].
  - destruct H as [H|H]; [contradiction|].
    destruct (IH H) as [a [rest [-> Ha]]].
    exists (c :: a), rest. split; [reflexivity|].
    intros [E|E]; [contradiction | exact (Ha E)].
Qed.

(** Where [_extract_frontmatter_value] evaluates [split(":", 1)[1]], the
    line contains a colon, so the index is in range. *)
Lemma split1_index1_some (line key : str) :
  startswith (strip line) (key ++ lit ":") = true ->
  exists a, ~ In ":"%char a
            /\ split1 ":" line = [a; after_first_colon line]
            /\ line = a ++ ":"%char :: after_first_colon line.
Proof.
  intros H. apply startswith_app in H as [r H].
  destruct (strip_by_decompose isspace line) as [a [t [E _]]].
  fold strip in E. rewrite H in E.
  assert (Hin : In ":"%char line).
  { rewrite E. apply in_or_app. right. apply in_or_app. left.
    apply in_or_app. left. apply in_or_app. right. left. reflexivity. }
  destruct (first_occurrence _ _ Hin) as [b [rest [-> Hb]]].
  exists b. unfold after_first_colon. rewrite (split1_first _ _ _ Hb).
  simpl. split; [exact Hb | split; reflexivity].
Qed.

(** When the key has no colon of its own, the first colon of a matching
    line is the one that ends "<key>:", and the value is what follows it. *)
Lemma after_first_colon_of_key (line key : str) :
  ~ In ":"%char key ->
  startswith (strip line) (key ++ lit ":") = true ->
  exists ws, forallb isspace ws = true
             /\ line = ws ++ key ++ ":"%char :: after_first_colon line.
Proof.
  intros Hk H. apply startswith_app in H as [r H].
  destruct (strip_by_decompose isspace line) as [a [t [E [Ha _]]]].
  fold strip in E. rewrite H in E.
  assert (E' : line = (a ++ key) ++ ":"%char :: (r ++ t)).
  { rewrite E. rewrite <- !app_assoc. simpl. reflexivity. }
  assert (Hn : ~ In ":"%char (a ++ key)).
  { intros Hin. apply in_app_or in Hin as [Hin|Hin]; [|exact (Hk Hin)].
    rewrite forallb_forall in Ha. apply Ha in Hin. discriminate Hin. }
  exists a. split; [exact Ha|].
  unfold after_first_colon. rewrite E' at 2. rewrite (split1_first _ _ _ Hn).
  simpl. rewrite E'. rewrite <- app_assoc. reflexivity.
Qed.

(** C7 as worded fails: with two layers of quotes around the value the code
    removes both, where removing a single matching layer leaves one. *)
Lemma extract_value_strips_every_quote :
  _extract_frontmatter_value [lit "title: ''x''"] "title" = Some (lit "x")
  /\ unquote_one_layer (strip (after_first_colon (lit "title: ''x''")))
     = lit "'x'"
  /\ _extract_frontmatter_value [lit "title: ''x''"] "title"
     <> Some (unquote_one_layer
                (strip (after_first_colon (lit "title: ''x''")))).
Proof.
  split; [reflexivity|]. split; [reflexivity|]. vm_compute. discriminate.
Qed.

(** C7, amended: for every sequence of lines and every key, extractValue
    looks for the first line whose trimmed form starts with "<key>:".  When
    there is none it returns absent.  Otherwise it returns the remainder of
    that line after its first colon, trimmed of surrounding whitespace, then
    of every leading and trailing double-quote character, then of every
    leading and trailing single-quote character (not just one matching
    layer). *)
Theorem extract_frontmatter_value_first_match (lines : list str) (key : str) :
  (Forall (fun l => matches_key key l = false) lines
   /\ _extract_frontmatter_value lines key = None)
  \/ (exists pre line post before,
        lines = pre ++ line :: post
        /\ Forall (fun l => matches_key key l = false) pre
        /\ matches_key key line = true
        /\ line = before ++ ":"%char :: after_first_colon line
        /\ ~ In ":"%char before
        /\ _extract_frontmatter_value lines key
           = Some (strip_char squote
                     (strip_char dquote (strip (after_first_colon line))))).
Proof.
  induction lines as [|l lines IH].
  - left. split; [constructor | reflexivity].
  - cbn [_extract_frontmatter_value].
    destruct (startswith (strip l) (key ++ lit ":")) eqn:E.
    + right. destruct (split1_index1_some _ _ E) as [a [Ha [_ Hl]]].
      exists [], l, lines, a.
      split; [reflexivity|]. split; [constructor|]. split; [exact E|].
      split; [exact Hl|]. split; [exact Ha | reflexivity].
    + destruct IH as [[H1 H2]|[pre [line [post [a [H1 [H2 [H3 [H4 [H5 H6]]]]]]]]]].
      * left. split; [constructor; assumption | exact H2].
      * right. exists (l :: pre), line, post, a. subst lines.
        split; [reflexivity|]. split; [constructor; assumption|].
        split; [exact H3|]. split; [exact H4|]. split; [exact H5 | exact H6].
Qed.

(* ================================================================== *)
(** ** Rendering *)
(* ================================================================== *)

Lemma build_frontmatter_filter (title status : str)
    (existing : option (list str)) :
  _build_frontmatter title status existing
  = title_line title :: status_line status
    :: filter (fun l => negb (is_owned_line l)) (carried_forward existing).
Proof. destruct existing as [[|l ls]|]; reflexivity. Qed.

Lemma render_unfold (title status : str) (existing_content : option str) :
  _render_story_content title status existing_content
  = rstrip (join newline
              ([lit "---"]
               ++ _build_frontmatter title status
                    (fst (existing_parts existing_content))
               ++ [lit "---"; lit ""]
               ++ body_or_heading title
                    (snd (existing_parts existing_content))))
    ++ newline.
Proof.
  unfold _render_story_content, existing_parts.
  destruct existing_content as [[|c s]|]; try reflexivity.
  destruct (_split_frontmatter (c :: s)) as [fm [|b body]]; reflexivity.
Qed.

Lemma join_cons_cons (sep p q : str) (rest : list str) :
  join sep (p :: q :: rest) = p ++ sep ++ join sep (q :: rest).
Proof. reflexivity. Qed.

(* ================================================================== *)
(** ** Lines and documents *)
(* ================================================================== *)

Lemma unlines_cons (l : str) (ls : list str) :
  unlines (l :: ls) = (l ++ newline) ++ unlines ls.
Proof. reflexivity. Qed.

Lemma join_unlines_cons (l : str) (ls : list str) :
  join newline (l :: ls) ++ newline = (l ++ newline) ++ unlines ls.
Proof.
  revert l. induction ls as [|l' ls IH]; intros l.
  - simpl. rewrite app_nil_r. reflexivity.
  - rewrite join_cons_cons, unlines_cons, <- IH, <- !app_assoc. reflexivity.
Qed.

Lemma join_unlines (ls : list str) :
  ls <> [] -> join newline ls ++ newline = unlines ls.
Proof.
  destruct ls as [|l ls]; intros H; [contradiction|].
  rewrite join_unlines_cons. reflexivity.
Qed.

Lemma join_snoc (ls : list str) (x : str) :
  ls <> [] -> join newline (ls ++ [x]) = join newline ls ++ newline ++ x.
Proof.
  induction ls as [|l ls IH]; intros H; [contradiction|].
  destruct ls as [|l' ls]; [reflexivity|].
  change ((l :: l' :: ls) ++ [x]) with (l :: l' :: (ls ++ [x])).
  rewrite !join_cons_cons.
  change (l' :: ls ++ [x]) with ((l' :: ls) ++ [x]).
  rewrite IH by discriminate. rewrite <- !app_assoc. reflexivity.
Qed.

Lemma splitlines_from_line (cur l rest : str) :
  no_linebreak l ->
  splitlines_from cur (l ++ newline ++ rest)
  = (rev cur ++ l) :: splitlines_from [] rest.
Proof.
  revert cur. induction l as [|c l IH]; intros cur H.
  - rewrite app_nil_r. simpl. destruct rest; reflexivity.
  - inversion H as [|? ? Hc Hl]; subst.
    change ((c :: l) ++ newline ++ rest) with (c :: (l ++ newline ++ rest)).
    cbn [splitlines_from]. rewrite Hc, IH by exact Hl.
    simpl. rewrite <- app_assoc. reflexivity.
Qed.

Lemma splitlines_unlines (ls : list str) :
  Forall no_linebreak ls -> splitlines (unlines ls) = ls.
Proof.
  unfold splitlines, unlines. induction 1 as [|l ls Hl _ IH]; [reflexivity|].
  simpl map. simpl concat. rewrite <- app_assoc.
  rewrite splitlines_from_line by exact Hl. simpl. f_equal. exact IH.
Qed.

Lemma rstrip_app_nonblank (a x : str) :
  rstrip x <> [] -> rstrip (a ++ x) = a ++ rstrip x.
Proof.
  intros H. destruct (rstrip_by_split isspace x) as [t [E Ht]].
  fold rstrip in E. rewrite E at 1. rewrite app_assoc.
  unfold rstrip. rewrite rstrip_by_app_all by exact Ht.
  apply rstrip_by_app_kept; [exact H | apply rstrip_by_last_kept].
Qed.

Lemma rstrip_newline (x : str) : rstrip (x ++ newline) = rstrip x.
Proof. apply rstrip_by_app_all. reflexivity. Qed.

(** What [rstrip] makes of joined lines that end with a non-blank line,
    possibly followed by one empty line. *)
Lemma rstrip_join_last (ls : list str) (x : str) :
  ls <> [] -> rstrip x <> [] ->
  rstrip (join newline (ls ++ [x])) ++ newline = unlines (ls ++ [rstrip x]).
Proof.
  intros Hls Hx. rewrite join_snoc by exact Hls.
  rewrite (app_assoc (join newline ls) newline x).
  rewrite rstrip_app_nonblank by exact Hx.
  rewrite <- (app_assoc (join newline ls) newline (rstrip x)).
  rewrite <- join_snoc by exact Hls.
  apply join_unlines. destruct ls; discriminate.
Qed.

Lemma rstrip_join_last_blank (ls : list str) (x : str) :
  ls <> [] -> rstrip x <> [] ->
  rstrip (join newline (ls ++ [x; lit ""])) ++ newline
  = unlines (ls ++ [rstrip x]).
Proof.
  intros Hls Hx.
  change (ls ++ [x; lit ""]) with (ls ++ [x] ++ [lit ""]).
  rewrite app_assoc, join_snoc by (destruct ls; discriminate).
  change (newline ++ lit "") with newline.
  rewrite rstrip_newline. apply rstrip_join_last; assumption.
Qed.

Lemma find_delimiter_app (i : nat) (fm body : list str) (close : str) :
  Forall (fun l => ~ is_delimiter l) fm -> is_delimiter close ->
  find_delimiter i (fm ++ close :: body) = Some (i + length fm).
Proof.
  intros Hfm Hc. revert i.
  induction Hfm as [|l fm Hl _ IH]; intros i; cbn [app find_delimiter].
  - destruct (str_eq_dec (strip close) "---"); [|contradiction].
    f_equal. simpl. lia.
  - destruct (str_eq_dec (strip l) "---"); [contradiction|].
    rewrite IH. f_equal. simpl. lia.
Qed.

(** Parsing a well-formed document: delimiter, frontmatter lines, delimiter,
    body. *)
Lemma split_frontmatter_unlines (first close : str) (fm body : list str) :
  Forall no_linebreak (first :: fm ++ close :: body) ->
  is_delimiter first -> Forall (fun l => ~ is_delimiter l) fm ->
  is_delimiter close ->
  _split_frontmatter (unlines (first :: fm ++ close :: body))
  = (Some fm, body).
Proof.
  intros Hlb Hf Hfm Hc. unfold _split_frontmatter.
  rewrite splitlines_unlines by exact Hlb.
  destruct (str_eq_dec (strip first) "---"); [|contradiction].
  rewrite find_delimiter_app by assumption.
  destruct (slice_frontmatter first close fm body) as [S1 S2].
  rewrite S1, S2. reflexivity.
Qed.

(* ================================================================== *)
(** ** What render produces *)
(* ================================================================== *)

Lemma is_owned_line_spec (line : str) :
  is_owned_line line = true <-> owned_key_line line.
Proof.
  unfold is_owned_line, owned_key_line.
  rewrite orb_true_iff, !startswith_app. split.
  - intros [[r H]|[r H]]; exists r; [left | right]; exact H.
  - intros [r [H|H]]; [left | right]; exists r; exact H.
Qed.

Lemma filter_kept_lines (ls : list str) :
  kept_lines owned_key_line ls
    (filter (fun l => negb (is_owned_line l)) ls).
Proof.
  induction ls as [|l ls IH]; cbn [filter]; [constructor|].
  destruct (is_owned_line l) eqn:E; cbn [negb].
  - apply kept_drop; [apply is_owned_line_spec; exact E | exact IH].
  - apply kept_keep; [|exact IH].
    intros H. apply is_owned_line_spec in H. rewrite H in E. discriminate E.
Qed.

Lemma last_kept_last (p : ascii -> bool) (core : str) :
  core <> [] -> last_kept p core ->
  exists front c, core = front ++ [c] /\ p c = false.
Proof.
  intros Hne H. unfold last_kept in H.
  destruct (rev core) as [|c r] eqn:E.
  - apply (f_equal (@rev ascii)) in E. rewrite rev_involutive in E.
    simpl in E. contradiction.
  - exists (rev r), c. split; [|exact H].
    apply (f_equal (@rev ascii)) in E. rewrite rev_involutive in E.
    exact E.
Qed.

(** C6: for every title, status and existing content, with (frontmatter,
    body) the parse of the existing content (both absent when there is
    none): render and [_build_frontmatter] (the latter for every
    carried-forward frontmatter) drop from the carried-forward lines
    exactly those that, trimmed and lower-cased, begin with title: or
    status:, keep the others unchanged and in order, and put before them
    the fresh lines title: "<title>" and status: "<status>"; the body is
    the heading "# <title>" and a blank line when there is no existing
    body; the lines "---", frontmatter, "---", blank, body are joined with
    newlines; and the output is that text without its trailing
    whitespace, followed by exactly one newline. *)
Theorem render_story_content_spec (title status : str)
    (existing_content : option str) :
  let fresh_title :=
    lit "title: " ++ ["034"%char] ++ title ++ ["034"%char] in
  let fresh_status :=
    lit "status: " ++ ["034"%char] ++ status ++ ["034"%char] in
  (forall existing : option (list str),
     exists kept,
       kept_lines owned_key_line
         (match existing with Some ls => ls | None => [] end) kept
       /\ _build_frontmatter title status existing
          = fresh_title :: fresh_status :: kept)
  /\ exists frontmatter body_lines kept core trailing front last,
       match existing_content with
       | Some (c :: s) => _split_frontmatter (c :: s)
       | _ => (None, [])
       end = (frontmatter, body_lines)
       /\ kept_lines owned_key_line
            (match frontmatter with Some ls => ls | None => [] end) kept
       /\ _render_story_content title status existing_content
          = core ++ ["010"%char]
       /\ concat
            (map (fun line => line ++ ["010"%char])
               ([lit "---"; fresh_title; fresh_status] ++ kept
                ++ [lit "---"; lit ""]
                ++ match body_lines with
                   | [] => [lit "# " ++ title; lit ""]
                   | _ :: _ => body_lines
                   end))
          = core ++ trailing ++ ["010"%char]
       /\ Forall (fun c => isspace c = true) trailing
       /\ core = front ++ [last]
       /\ isspace last = false.
Proof.
  cbv zeta. split.
  - intros existing. eexists. split; [|apply build_frontmatter_filter].
    destruct existing as [ls|]; apply filter_kept_lines.
  - set (parsed := match existing_content with
                   | Some (c :: s) => _split_frontmatter (c :: s)
                   | _ => (None, [])
                   end).
    assert (EP : existing_parts existing_content = parsed)
      by (destruct existing_content as [[|c s]|]; reflexivity).
    destruct parsed as [frontmatter body_lines] eqn:P.
    set (kept := filter (fun l => negb (is_owned_line l))
                   (carried_forward frontmatter)).
    set (lines := [lit "---"; title_line title; status_line status] ++ kept
                  ++ [lit "---"; lit ""] ++ body_or_heading title body_lines).
    assert (R : _render_story_content title status existing_content
                = rstrip (join newline lines) ++ newline).
    { rewrite render_unfold, build_frontmatter_filter, EP. reflexivity. }
    destruct (rstrip_by_split isspace (join newline lines)) as [t [H1 H2]].
    fold rstrip in H1.
    assert (Hne : rstrip (join newline lines) <> []).
    { intros E. rewrite E in H1. simpl in H1.
      unfold lines in H1. unfold join in H1; fold join in H1. simpl in H1.
      rewrite <- H1 in H2. simpl in H2. discriminate H2. }
    destruct (last_kept_last isspace _ Hne (rstrip_by_last_kept isspace _))
      as [front [c [Hc1 Hc2]]].
    exists frontmatter, body_lines, kept, (rstrip (join newline lines)), t,
      front, c.
    split; [reflexivity|].
    split; [destruct frontmatter; apply filter_kept_lines|].
    split; [exact R|].
    split.
    { change (concat (map (fun line => line ++ ["010"%char]) ?l))
        with (unlines l).
      change (unlines lines
              = rstrip (join newline lines) ++ t ++ newline).
      rewrite app_assoc, <- H1. symmetry. apply join_unlines.
      discriminate. }
    split; [|split; assumption].
    apply Forall_forall. rewrite forallb_forall in H2. exact H2.
Qed.

(* ================================================================== *)
(** ** Round trip through render, parse and render *)
(* ================================================================== *)

Lemma last_kept_snoc (p : ascii -> bool) (a : str) (c : ascii) :
  p c = false -> last_kept p (a ++ [c]).
Proof. intros H. unfold last_kept. rewrite rev_app_distr. simpl. exact H. Qed.

Lemma no_linebreak_app (a b : str) :
  no_linebreak a -> no_linebreak b -> no_linebreak (a ++ b).
Proof. intros Ha Hb. apply Forall_app. split; assumption. Qed.

Lemma no_linebreak_rstrip (x : str) : no_linebreak x -> no_linebreak (rstrip x).
Proof.
  intros H. destruct (rstrip_by_split isspace x) as [t [E _]].
  unfold no_linebreak in H. rewrite E in H.
  apply Forall_app in H as [H _]. exact H.
Qed.

Lemma rstrip_cons_nonblank (c : ascii) (x : str) :
  isspace c = false -> rstrip (c :: x) <> [].
Proof.
  intros Hc E. destruct (rstrip_by_split isspace (c :: x)) as [t [H1 H2]].
  fold rstrip in H1. rewrite E in H1. simpl in H1. subst t.
  simpl in H2. rewrite Hc in H2. discriminate H2.
Qed.

Lemma rstrip_idem (x : str) : rstrip (rstrip x) = rstrip x.
Proof. apply rstrip_by_fixed, rstrip_by_last_kept. Qed.

Lemma strip_quoted (v : str) : strip (quoted v) = dquote :: v ++ [dquote].
Proof.
  unfold strip, strip_by, lstrip_by, quoted. cbn [dropwhile].
  change (isspace " ") with true. cbn [dropwhile].
  change (isspace dquote) with false. cbv iota.
  apply rstrip_by_fixed.
  change (dquote :: v ++ [dquote]) with ((dquote :: v) ++ [dquote]).
  apply last_kept_snoc. reflexivity.
Qed.

Lemma strip_char_dquote_quoted (v : str) :
  head_kept (Ascii.eqb dquote) v -> last_kept (Ascii.eqb dquote) v ->
  strip_char dquote (dquote :: v ++ [dquote]) = v.
Proof.
  intros H1 H2. unfold strip_char, strip_by, lstrip_by. cbn [dropwhile].
  rewrite Ascii.eqb_refl.
  destruct v as [|c v]; [reflexivity|].
  cbn [head_kept] in H1. cbn [app dropwhile]. rewrite H1.
  change (c :: v ++ [dquote]) with ((c :: v) ++ [dquote]).
  rewrite rstrip_by_app_all; [apply rstrip_by_fixed, H2 | reflexivity].
Qed.

Lemma unquote_quoted (v : str) :
  quote_free_ends v ->
  strip_char squote (strip_char dquote (strip (quoted v))) = v.
Proof.
  intros [H1 [H2 [H3 H4]]].
  rewrite strip_quoted, strip_char_dquote_quoted by assumption.
  apply strip_by_fixed; assumption.
Qed.

Lemma title_line_quoted (t : str) : title_line t = lit "title" ++ ":"%char :: quoted t.
Proof. reflexivity. Qed.

Lemma status_line_quoted (s : str) :
  status_line s = lit "status" ++ ":"%char :: quoted s.
Proof. reflexivity. Qed.

Lemma strip_title_line (t : str) : strip (title_line t) = title_line t.
Proof.
  apply strip_by_fixed; [reflexivity|].
  unfold title_line. rewrite !app_assoc. apply last_kept_snoc. reflexivity.
Qed.

Lemma strip_status_line (s : str) : strip (status_line s) = status_line s.
Proof.
  apply strip_by_fixed; [reflexivity|].
  unfold status_line. rewrite !app_assoc. apply last_kept_snoc. reflexivity.
Qed.

Lemma after_first_colon_title_line (t : str) :
  after_first_colon (title_line t) = quoted t.
Proof.
  unfold after_first_colon. rewrite title_line_quoted, split1_first; [reflexivity|].
  simpl. intros H. repeat (destruct H as [H|H]; [discriminate H|]). exact H.
Qed.

Lemma after_first_colon_status_line (s : str) :
  after_first_colon (status_line s) = quoted s.
Proof.
  unfold after_first_colon. rewrite status_line_quoted, split1_first; [reflexivity|].
  simpl. intros H. repeat (destruct H as [H|H]; [discriminate H|]). exact H.
Qed.

Lemma title_line_owned (t : str) : is_owned_line (title_line t) = true.
Proof. unfold is_owned_line. rewrite strip_title_line. reflexivity. Qed.

Lemma status_line_owned (s : str) : is_owned_line (status_line s) = true.
Proof. unfold is_owned_line. rewrite strip_status_line. reflexivity. Qed.

Lemma title_line_not_delimiter (t : str) : ~ is_delimiter (title_line t).
Proof. unfold is_delimiter. rewrite strip_title_line. discriminate. Qed.

Lemma status_line_not_delimiter (s : str) : ~ is_delimiter (status_line s).
Proof. unfold is_delimiter. rewrite strip_status_line. discriminate. Qed.

Lemma no_linebreak_title_line (t : str) :
  no_linebreak t -> no_linebreak (title_line t).
Proof.
  intros H. unfold title_line.
  repeat apply no_linebreak_app; try exact H; repeat constructor.
Qed.

Lemma no_linebreak_status_line (s : str) :
  no_linebreak s -> no_linebreak (status_line s).
Proof.
  intros H. unfold status_line.
  repeat apply no_linebreak_app; try exact H; repeat constructor.
Qed.

(** Extraction from a document that opens with the delimiter and the two
    rendered lines. *)
Lemma extract_title_rendered (t : str) (rest : list str) :
  quote_free_ends t ->
  _extract_frontmatter_value (lit "---" :: title_line t :: rest) "title"
  = Some t.
Proof.
  intros H. cbn [_extract_frontmatter_value].
  change (startswith (strip (lit "---")) (lit "title" ++ lit ":")) with false.
  cbv iota. rewrite strip_title_line.
  change (startswith (title_line t) (lit "title" ++ lit ":")) with true.
  cbv iota. rewrite after_first_colon_title_line, unquote_quoted by exact H.
  reflexivity.
Qed.

Lemma extract_status_rendered (t s : str) (rest : list str) :
  quote_free_ends s ->
  _extract_frontmatter_value
    (lit "---" :: title_line t :: status_line s :: rest) "status"
  = Some s.
Proof.
  intros H. cbn [_extract_frontmatter_value].
  change (startswith (strip (lit "---")) (lit "status" ++ lit ":")) with false.
  cbv iota. rewrite strip_title_line.
  change (startswith (title_line t) (lit "status" ++ lit ":")) with false.
  cbv iota. rewrite strip_status_line.
  change (startswith (status_line s) (lit "status" ++ lit ":")) with true.
  cbv iota. rewrite after_first_colon_status_line, unquote_quoted by exact H.
  reflexivity.
Qed.

Lemma heading_nonblank (title : str) : rstrip (lit "# " ++ title) <> [].
Proof. apply rstrip_cons_nonblank. reflexivity. Qed.

Lemma no_linebreak_heading (title : str) :
  no_linebreak title -> no_linebreak (heading title).
Proof.
  intros H. apply no_linebreak_rstrip, no_linebreak_app; [|exact H].
  repeat constructor.
Qed.

(** The first render, with no existing content. *)
Lemma render_fresh (title status : str) :
  _render_story_content title status None
  = unlines [lit "---"; title_line title; status_line status; lit "---";
             lit ""; heading title].
Proof.
  rewrite render_unfold. cbn [existing_parts fst snd body_or_heading].
  rewrite build_frontmatter_filter. cbn [carried_forward filter].
  exact (rstrip_join_last_blank
           [lit "---"; title_line title; status_line status; lit "---"; lit ""]
           (lit "# " ++ title) ltac:(discriminate) (heading_nonblank title)).
Qed.

Lemma existing_parts_some (c : str) :
  c <> [] -> existing_parts (Some c) = _split_frontmatter c.
Proof. destruct c; [contradiction | reflexivity]. Qed.

(** Rendering over an existing document with frontmatter [fm] and the body
    left by a first render. *)
Lemma render_existing (title status : str) (fm : list str) (doc : str) :
  doc <> [] ->
  _split_frontmatter doc = (Some fm, [lit ""; heading title]) ->
  _render_story_content title status (Some doc)
  = unlines ([lit "---"; title_line title; status_line status]
             ++ filter (fun l => negb (is_owned_line l)) fm
             ++ [lit "---"; lit ""; lit ""; heading title]).
Proof.
  intros Hdoc Hsplit. rewrite render_unfold, existing_parts_some by exact Hdoc.
  rewrite Hsplit. cbn [fst snd body_or_heading].
  rewrite build_frontmatter_filter. cbn [carried_forward].
  set (kept := filter _ fm).
  pose proof (rstrip_join_last
                ([lit "---"; title_line title; status_line status] ++ kept
                 ++ [lit "---"; lit ""; lit ""])
                (heading title) ltac:(discriminate)) as R.
  assert (Hh : rstrip (heading title) = heading title)
    by (unfold heading; apply rstrip_idem).
  rewrite Hh in R. specialize (R (heading_nonblank title)).
  rewrite <- !app_assoc in R. exact R.
Qed.

Lemma delimiter_is_delimiter : is_delimiter (lit "---").
Proof. reflexivity. Qed.

Lemma no_linebreak_lit_delimiter : no_linebreak (lit "---").
Proof. repeat constructor. Qed.

Lemma unlines_nonempty (l : str) (ls : list str) :
  l <> [] -> unlines (l :: ls) <> [].
Proof. destruct l; [contradiction | discriminate]. Qed.

(** Rendering over a first render into whose frontmatter lines were
    inserted: only the lines that are not owned are carried forward. *)
Lemma render_injected (title status : str) (fm kept : list str) :
  no_linebreak title ->
  Forall no_linebreak fm ->
  Forall (fun l => ~ is_delimiter l) fm ->
  filter (fun l => negb (is_owned_line l)) fm = kept ->
  _render_story_content title status
    (Some (unlines (lit "---" :: fm ++ lit "---" :: [lit ""; heading title])))
  = unlines ([lit "---"; title_line title; status_line status]
             ++ kept ++ [lit "---"; lit ""; lit ""; heading title]).
Proof.
  intros Ht Hfm Hd Hk. rewrite <- Hk. apply render_existing.
  - apply unlines_nonempty. discriminate.
  - apply split_frontmatter_unlines.
    + constructor; [apply no_linebreak_lit_delimiter|].
      apply Forall_app. split; [exact Hfm|].
      constructor; [apply no_linebreak_lit_delimiter|].
      constructor; [constructor|].
      constructor; [apply no_linebreak_heading, Ht | constructor].
    + apply delimiter_is_delimiter.
    + exact Hd.
    + apply delimiter_is_delimiter.
Qed.

Ltac each_line :=
  repeat (apply Forall_cons;
          [first [assumption | solve [repeat constructor]]|]);
  apply Forall_nil.

(** C2 as worded fails: a title wrapped in quote characters is not
    recovered after the round trip, because extraction removes the title's
    own quotes together with the ones render added. *)
Lemma round_trip_loses_quoted_title :
  let d1 := _render_story_content "'x'" "todo" None in
  let d2 := _render_story_content "'x'" "todo"
              (Some (insert_line 3 "owner: bob" d1)) in
  _extract_frontmatter_value (splitlines d2) "title" = Some (lit "x")
  /\ _extract_frontmatter_value (splitlines d2) "title" <> Some (lit "'x'").
Proof. split; [reflexivity | vm_compute; discriminate]. Qed.

(** C2, amended: for every title and status that contain no line-break
    character and neither begin nor end with a quote character (double or
    single), and every extra frontmatter line that contains no line-break
    character, is not itself a title: or status: line and whose trimmed
    form is not "---": rendering a document with no existing content,
    inserting the extra line anywhere among its frontmatter lines, and
    rendering again over that document yields a document from which
    extractValue recovers the original title and status exactly and whose
    frontmatter is the title line, the status line and the extra line
    unchanged.  Moreover render never drops a carried-forward frontmatter
    line that is not a title: or status: line. *)
Theorem render_round_trip (title status extra : str) (i : nat) :
  no_linebreak title -> quote_free_ends title ->
  no_linebreak status -> quote_free_ends status ->
  no_linebreak extra -> is_owned_line extra = false ->
  ~ is_delimiter extra ->
  1 <= i <= 3 ->
  let d1 := _render_story_content title status None in
  let d2 := _render_story_content title status
              (Some (insert_line i extra d1)) in
  _extract_frontmatter_value (splitlines d2) "title" = Some title
  /\ _extract_frontmatter_value (splitlines d2) "status" = Some status
  /\ fst (_split_frontmatter d2)
     = Some [title_line title; status_line status; extra]
  /\ (forall existing l,
        In l existing -> is_owned_line l = false ->
        In l (_build_frontmatter title status (Some existing))).
Proof.
  intros Ht Hqt Hs Hqs He Ho Hd Hi. cbv zeta.
  assert (Htl := no_linebreak_title_line _ Ht).
  assert (Hsl := no_linebreak_status_line _ Hs).
  assert (Hh := no_linebreak_heading _ Ht).
  assert (Hdl := no_linebreak_lit_delimiter).
  assert (D2 : _render_story_content title status
                 (Some (insert_line i extra
                          (_render_story_content title status None)))
               = unlines [lit "---"; title_line title; status_line status;
                          extra; lit "---"; lit ""; lit ""; heading title]).
  { rewrite render_fresh. unfold insert_line.
    rewrite splitlines_unlines by each_line.
    assert (Hto := title_line_owned title).
    assert (Hso := status_line_owned status).
    assert (Htd := title_line_not_delimiter title).
    assert (Hsd := status_line_not_delimiter status).
    destruct i as [|[|[|[|i]]]]; try lia; cbn [firstn skipn app].
    - apply (render_injected title status
               [extra; title_line title; status_line status] [extra]);
        [exact Ht | each_line | each_line |].
      cbn [filter]. rewrite Ho, Hto, Hso. reflexivity.
    - apply (render_injected title status
               [title_line title; extra; status_line status] [extra]);
        [exact Ht | each_line | each_line |].
      cbn [filter]. rewrite Ho, Hto, Hso. reflexivity.
    - apply (render_injected title status
               [title_line title; status_line status; extra] [extra]);
        [exact Ht | each_line | each_line |].
      cbn [filter]. rewrite Ho, Hto, Hso. reflexivity. }
  rewrite D2.
  rewrite splitlines_unlines by each_line.
  split; [apply extract_title_rendered, Hqt|].
  split; [apply extract_status_rendered, Hqs|].
  split.
  - assert (R : _split_frontmatter
                  (unlines [lit "---"; title_line title; status_line status;
                            extra; lit "---"; lit ""; lit ""; heading title])
                = (Some [title_line title; status_line status; extra],
                   [lit ""; lit ""; heading title])).
    { apply (split_frontmatter_unlines (lit "---") (lit "---")
               [title_line title; status_line status; extra]
               [lit ""; lit ""; heading title]).
      + cbn [app]. each_line.
      + apply delimiter_is_delimiter.
      + pose proof (title_line_not_delimiter title).
        pose proof (status_line_not_delimiter status). each_line.
      + apply delimiter_is_delimiter. }
    rewrite R. reflexivity.
  - intros existing l Hl Hown. rewrite build_frontmatter_filter.
    right. right. apply filter_In. split; [exact Hl|].
    rewrite Hown. reflexivity.
Qed.

Lemma render_round_trip_witness :
  let d1 := _render_story_content "Example" "in_progress" None in
  let d2 := _render_story_content "Example" "in_progress"
              (Some (insert_line 3 "owner: bob" d1)) in
  _extract_frontmatter_value (splitlines d2) "title" = Some (lit "Example")
  /\ _extract_frontmatter_value (splitlines d2) "status"
     = Some (lit "in_progress")
  /\ fst (_split_frontmatter d2)
     = Some [title_line "Example"; status_line "in_progress";
             lit "owner: bob"]
  /\ (forall existing l,
        In l existing -> is_owned_line l = false ->
        In l (_build_frontmatter "Example" "in_progress" (Some existing))).
Proof.
  apply (render_round_trip "Example" "in_progress" "owner: bob" 3).
  - repeat constructor.
  - repeat split; reflexivity.
  - repeat constructor.
  - repeat split; reflexivity.
  - repeat constructor.
  - reflexivity.
  - unfold is_delimiter. vm_compute. discriminate.
  - lia.
Defined.

(* ================================================================== *)
(** ** Sorting *)
(* ================================================================== *)

Lemma str_leb_total (a b : str) : str_leb a b = false -> str_leb b a = true.
Proof.
  revert b. induction a as [|x a IH]; intros [|y b]; simpl; try discriminate;
    try reflexivity.
  destruct (code x <? code y)%N eqn:E1; [discriminate|].
  destruct (code y <? code x)%N eqn:E2; [reflexivity|].
  apply IH.
Qed.

Lemma str_leb_trans (a b c : str) :
  str_leb a b = true -> str_leb b c = true -> str_leb a c = true.
Proof.
  revert b c. induction a as [|x a IH]; intros [|y b] [|z c]; simpl;
    try discriminate; try reflexivity.
  destruct (code x <? code y)%N eqn:E1; destruct (code y <? code x)%N eqn:E2;
    destruct (code y <? code z)%N eqn:E3; destruct (code z <? code y)%N eqn:E4;
    destruct (code x <? code z)%N eqn:E5; destruct (code z <? code x)%N eqn:E6;
    try discriminate; try reflexivity;
    rewrite ?N.ltb_lt, ?N.ltb_ge in *; try lia.
  apply IH.
Qed.

Lemma insert_sorted_perm (x : str) (l : list str) :
  Permutation (x :: l) (insert_sorted x l).
Proof.
  induction l as [|y l IH]; simpl; [reflexivity|].
  destruct (str_leb x y); [reflexivity|].
  rewrite perm_swap. constructor. exact IH.
Qed.

Lemma sorted_perm (l : list str) : Permutation l (sorted l).
Proof.
  induction l as [|x l IH]; simpl; [constructor|].
  rewrite <- insert_sorted_perm. constructor. exact IH.
Qed.

Lemma sorted_In (l : list str) (x : str) : In x (sorted l) <-> In x l.
Proof.
  split; apply Permutation_in; [symmetry|]; apply sorted_perm.
Qed.

Lemma insert_sorted_Sorted (x : str) (l : list str) :
  Sorted str_le l -> Sorted str_le (insert_sorted x l).
Proof.
  induction 1 as [|y l Hl IH Hy]; simpl; [repeat constructor|].
  destruct (str_leb x y) eqn:E.
  - constructor; [constructor; assumption | constructor; exact E].
  - constructor; [exact IH|].
    apply str_leb_total in E.
    destruct l as [|z l]; simpl; [constructor; exact E|].
    destruct (str_leb x z); constructor; [exact E|].
    inversion Hy; assumption.
Qed.

Lemma sorted_Sorted (l : list str) : Sorted str_le (sorted l).
Proof.
  induction l as [|x l IH]; simpl; [constructor|].
  apply insert_sorted_Sorted, IH.
Qed.

Lemma sorted_StronglySorted (l : list str) : StronglySorted str_le (sorted l).
Proof.
  apply Sorted_StronglySorted; [|apply sorted_Sorted].
  intros a b c. apply str_leb_trans.
Qed.

Lemma mem_In (x : str) (l : list str) : mem x l = true <-> In x l.
Proof.
  unfold mem. destruct (in_dec str_eq_dec x l); split; intros H;
    try reflexivity; try assumption; [discriminate | contradiction].
Qed.

(** The archive list of [sync_stories]: sorted, duplicate-free, and exactly
    the listed ids that were not pushed. *)
Lemma archive_list_spec (listed pushed : list str) :
  let archived := sorted (set_difference (set_of listed) (set_of pushed)) in
  (forall x, In x archived <-> In x listed /\ ~ In x pushed)
  /\ NoDup archived
  /\ StronglySorted str_le archived.
Proof.
  cbv zeta. split; [|split].
  - intros x. rewrite sorted_In. unfold set_difference, set_of.
    rewrite filter_In, nodup_In, negb_true_iff.
    split; intros [H1 H2]; (split; [exact H1|]).
    + intros Hin. apply (nodup_In str_eq_dec) in Hin. apply mem_In in Hin.
      rewrite Hin in H2. discriminate.
    + destruct (mem x (nodup str_eq_dec pushed)) eqn:E; [|reflexivity].
      apply mem_In, nodup_In in E. contradiction.
  - apply (Permutation_NoDup (sorted_perm _)).
    apply NoDup_filter, NoDup_nodup.
  - apply sorted_StronglySorted.
Qed.

(* ================================================================== *)
(** ** Runs of the synchronisers *)
(* ================================================================== *)

Lemma bind_ok_inv {S A B : Type} (m : M (S := S) A) (k : A -> M B)
    (w w' : world S) (b : B) :
  bind m k w = (Ok b, w') ->
  exists a w1, m w = (Ok a, w1) /\ k a w1 = (Ok b, w').
Proof.
  unfold bind. destruct (m w) as [[a|e] w1]; intros H; [|discriminate H].
  exists a, w1. split; [reflexivity | exact H].
Qed.

Lemma call_run {S A : Type} (ev : event) (method : S -> result A * S)
    (w : world S) :
  call ev method w
  = (fst (method (remote w)), after_call w (snd (method (remote w))) ev).
Proof. unfold call. destruct (method (remote w)); reflexivity. Qed.

Lemma is_story_file_run {S : Type} (p : str) (w : world S) :
  is_story_file p w = (Ok (is_md_file (disk w) p), w).
Proof.
  unfold is_story_file, bind, is_file, ret, is_md_file.
  destruct (lookup p (entries (disk w))) as [[c|]|]; reflexivity.
Qed.

Lemma filter_m_story_files {S : Type} (paths : list str) (w : world S) :
  filter_m is_story_file paths w
  = (Ok (filter (is_md_file (disk w)) paths), w).
Proof.
  induction paths as [|p paths IH]; [reflexivity|].
  cbn [filter_m filter]. unfold bind at 1. rewrite is_story_file_run.
  unfold bind. rewrite IH. unfold ret.
  destruct (is_md_file (disk w) p); reflexivity.
Qed.

Lemma is_md_file_file (fs : filesystem) (p : str) :
  is_md_file fs p = true ->
  lookup p (entries fs) = Some (File (file_content fs p)).
Proof.
  unfold is_md_file, file_content.
  destruct (lookup p (entries fs)) as [[c|]|]; simpl; try discriminate.
  reflexivity.
Qed.

Lemma parse_story_file_run {S : Type} (p : str) (w : world S) :
  is_md_file (disk w) p = true ->
  _parse_story_file p w = (parse_content p (file_content (disk w) p), w).
Proof.
  intros H. apply is_md_file_file in H.
  unfold _parse_story_file, bind, read_text, parse_content. rewrite H.
  cbv beta iota zeta.
  destruct (_extract_frontmatter_value
              (splitlines (file_content (disk w) p)) "title");
    destruct (_extract_frontmatter_value
                (splitlines (file_content (disk w) p)) "status");
    reflexivity.
Qed.

Lemma map_m_parse_run {S : Type} (l : list str) (w : world S) :
  Forall (fun p => is_md_file (disk w) p = true) l ->
  map_m _parse_story_file l w = (parse_all (disk w) l, w).
Proof.
  induction 1 as [|p l Hp _ IH]; [reflexivity|].
  cbn [map_m parse_all]. unfold bind at 1.
  rewrite (parse_story_file_run p w Hp).
  destruct (parse_content p (file_content (disk w) p)) as [r|e]; [|reflexivity].
  unfold bind. rewrite IH.
  destruct (parse_all (disk w) l); reflexivity.
Qed.

Lemma story_files_are_files (fs : filesystem) :
  Forall (fun p => is_md_file fs p = true) (story_files fs).
Proof.
  apply Forall_forall. intros p Hp. unfold story_files in Hp.
  apply sorted_In, filter_In in Hp. apply Hp.
Qed.

Lemma parse_all_raises (fs : filesystem) (l : list str) (p : str) (e : exn) :
  In p l -> parse_content p (file_content fs p) = Raise e ->
  exists e', parse_all fs l = Raise e'.
Proof.
  intros Hin He. induction l as [|q l IH]; [destruct Hin|].
  cbn [parse_all].
  destruct (parse_content q (file_content fs q)) as [r|e0] eqn:E;
    [|exists e0; reflexivity].
  destruct Hin as [->|Hin]; [rewrite He in E; discriminate E|].
  destruct (IH Hin) as [e' ->]. exists e'. reflexivity.
Qed.

Lemma parse_all_ok (fs : filesystem) (l : list str)
    (rs : list (str * str * str)) :
  parse_all fs l = Ok rs ->
  Forall2 (parsed_from fs) l rs /\ map id_of rs = map stem l.
Proof.
  revert rs. induction l as [|p l IH]; intros rs H; cbn [parse_all] in H.
  - injection H as <-. split; [constructor | reflexivity].
  - unfold parse_content in H.
    destruct (_extract_frontmatter_value
                (splitlines (file_content fs p)) "title") as [t|] eqn:Et;
      [|discriminate H].
    destruct (_extract_frontmatter_value
                (splitlines (file_content fs p)) "status") as [s|] eqn:Es;
      [|discriminate H].
    destruct (parse_all fs l) as [rs'|] eqn:E; [|discriminate H].
    injection H as <-. destruct (IH rs' eq_refl) as [H1 H2]. split.
    + constructor; [|exact H1]. exists t, s. repeat split; assumption.
    + simpl. f_equal. exact H2.
Qed.

(** [sync_stories] up to the end of parsing: authentication, listing the
    directory and parsing touch nothing but the trace entry of
    [validate_auth]. *)
Lemma sync_stories_run {S : Type} (github_client : client_ops S)
    (w : world S) :
  let w1 := after_call w (snd (validate_auth github_client (remote w)))
              CallValidateAuth in
  sync_stories github_client w
  = match fst (validate_auth github_client (remote w)) with
    | Raise e => (Raise e, w1)
    | Ok _ =>
        if dir_exists (disk w) then
          match parse_all (disk w) (story_files (disk w)) with
          | Raise e => (Raise e, w1)
          | Ok parsed_stories =>
              push_and_archive github_client parsed_stories w1
          end
        else (Raise (OSError "No such file or directory"), w1)
    end.
Proof.
  cbv zeta. unfold sync_stories. unfold bind at 1. rewrite call_run.
  destruct (fst (validate_auth github_client (remote w))) as [u|e];
    [|reflexivity].
  set (w1 := after_call w _ _).
  unfold bind at 1. unfold iterdir. change (disk w1) with (disk w).
  destruct (dir_exists (disk w)); [|reflexivity].
  unfold bind at 1. rewrite filter_m_story_files.
  change (disk w1) with (disk w). fold (story_files (disk w)).
  unfold bind at 1.
  rewrite map_m_parse_run by apply (story_files_are_files (disk w)).
  change (disk w1) with (disk w).
  destruct (parse_all (disk w) (story_files (disk w))); reflexivity.
Qed.

Lemma call_ok_inv {S A : Type} (ev : event) (method : S -> result A * S)
    (w w' : world S) (a : A) :
  call ev method w = (Ok a, w') ->
  method (remote w) = (Ok a, remote w')
  /\ trace w' = trace w ++ [ev] /\ disk w' = disk w.
Proof.
  rewrite call_run. destruct (method (remote w)) as [r s']. simpl.
  intros H. injection H as -> <-. repeat split; reflexivity.
Qed.

Lemma archive_loop_run {S : Type} (github_client : client_ops S)
    (l : list str) (w w' : world S) (u : unit) :
  for_each l
    (fun story_id =>
       call (CallArchiveStory story_id) (archive_story github_client story_id))
    w = (Ok u, w') ->
  trace w' = trace w ++ map CallArchiveStory l /\ disk w' = disk w.
Proof.
  revert w. induction l as [|x l IH]; intros w H; cbn [for_each] in H.
  - injection H as _ <-. rewrite app_nil_r. split; reflexivity.
  - apply bind_ok_inv in H as [a [w1 [H1 H2]]].
    apply call_ok_inv in H1 as [_ [T1 D1]].
    destruct (IH _ H2) as [T D]. rewrite T, D, T1, D1. simpl.
    rewrite <- app_assoc. split; reflexivity.
Qed.

(* ================================================================== *)
(** ** Authentication failure *)
(* ================================================================== *)

(** C3: for every run of Push.sync or Pull.sync in which validateAuth
    fails, the failure propagates immediately: the run raises the same
    exception, the only client method invoked is validate_auth, so no
    upsert_story and no archive_story call is made, and the directory is
    left as it was (no file write). *)
Theorem auth_failure_short_circuits {S : Type} (github_client : client_ops S)
    (w : world S) (e : exn) (s' : S) :
  validate_auth github_client (remote w) = (Raise e, s') ->
  sync_stories github_client w
    = (Raise e,
       {| remote := s'; disk := disk w;
          trace := trace w ++ [CallValidateAuth] |})
  /\ pull_stories github_client w
    = (Raise e,
       {| remote := s'; disk := disk w;
          trace := trace w ++ [CallValidateAuth] |}).
Proof.
  intros H. split.
  - rewrite sync_stories_run. rewrite H. reflexivity.
  - unfold pull_stories. unfold bind at 1. rewrite call_run, H. reflexivity.
Qed.

Lemma auth_failure_short_circuits_witness :
  let w := initial_world (TestClient.new false [lit "story-1"])
             sample_directory in
  sync_stories TestClient.ops w
    = (Raise (AuthenticationError "Invalid GitHub token"),
       {| remote := TestClient.new false [lit "story-1"];
          disk := sample_directory;
          trace := [CallValidateAuth] |})
  /\ pull_stories TestClient.ops w
    = (Raise (AuthenticationError "Invalid GitHub token"),
       {| remote := TestClient.new false [lit "story-1"];
          disk := sample_directory;
          trace := [CallValidateAuth] |}).
Proof.
  exact (auth_failure_short_circuits TestClient.ops
           (initial_world (TestClient.new false [lit "story-1"])
              sample_directory)
           (AuthenticationError "Invalid GitHub token")
           (TestClient.new false [lit "story-1"]) eq_refl).
Defined.

(* ================================================================== *)
(** ** Parse errors *)
(* ================================================================== *)

Lemma parse_content_error (name content : str) (e : exn) :
  parse_content name content = Raise e ->
  e = ValueError (lit "Missing frontmatter fields in " ++ name)
  /\ (_extract_frontmatter_value (splitlines content) "title" = None
      \/ _extract_frontmatter_value (splitlines content) "status" = None).
Proof.
  unfold parse_content.
  destruct (_extract_frontmatter_value (splitlines content) "title");
    destruct (_extract_frontmatter_value (splitlines content) "status");
    intros H; try discriminate H; injection H as <-;
    (split; [reflexivity | tauto]).
Qed.

Lemma parse_content_missing (name content : str) :
  _extract_frontmatter_value (splitlines content) "title" = None
  \/ _extract_frontmatter_value (splitlines content) "status" = None ->
  parse_content name content
  = Raise (ValueError (lit "Missing frontmatter fields in " ++ name)).
Proof.
  unfold parse_content. intros [H|H]; rewrite H; [reflexivity|].
  destruct (_extract_frontmatter_value (splitlines content) "title");
    reflexivity.
Qed.

(** C9: Push.sync parses every local .md file before it upserts, lists or
    archives anything: whenever some .md file of the directory fails to
    parse, the run raises and the only client method it has invoked is
    validate_auth (which precedes parsing), so no upsert_story,
    list_project_stories or archive_story call has been made and the
    client is in the state validate_auth left it in. *)
Theorem parse_error_before_remote_changes {S : Type}
    (github_client : client_ops S) (w : world S) (name content : str) :
  lookup name (entries (disk w)) = Some (File content) ->
  suffix name = lit ".md" ->
  (_extract_frontmatter_value (splitlines content) "title" = None
   \/ _extract_frontmatter_value (splitlines content) "status" = None) ->
  exists e,
    sync_stories github_client w
    = (Raise e,
       {| remote := snd (validate_auth github_client (remote w));
          disk := disk w;
          trace := trace w ++ [CallValidateAuth] |}).
Proof.
  intros Hl Hs Hp. rewrite sync_stories_run. cbv zeta. unfold after_call.
  destruct (fst (validate_auth github_client (remote w))) as [u|e];
    [|exists e; reflexivity].
  destruct (dir_exists (disk w)); [|eexists; reflexivity].
  assert (Hin : In name (story_files (disk w))).
  { unfold story_files. apply sorted_In, filter_In. split.
    - apply in_map_iff.
      assert (G : forall es, lookup name es = Some (File content) ->
                             exists y, fst y = name /\ In y es).
      { induction es as [|[n x] es IH]; cbn [lookup]; [discriminate|].
        destruct (str_eq_dec n name) as [->|_].
        - intros _. exists (name, x). split; [reflexivity | left; reflexivity].
        - intros H. destruct (IH H) as [y [H1 H2]].
          exists y. split; [exact H1 | right; exact H2]. }
      exact (G _ Hl).
    - unfold is_md_file. rewrite Hl, Hs.
      destruct (str_eq_dec (lit ".md") ".md"); [reflexivity | contradiction]. }
  assert (Hc : file_content (disk w) name = content)
    by (unfold file_content; rewrite Hl; reflexivity).
  rewrite <- Hc in Hp.
  destruct (parse_all_raises (disk w) _ name _ Hin
              (parse_content_missing name _ Hp)) as [e' ->].
  exists e'. reflexivity.
Qed.

Lemma parse_error_before_remote_changes_witness :
  exists e,
    sync_stories TestClient.ops
      (initial_world (TestClient.new true [lit "story-0"])
         directory_with_bad_file)
    = (Raise e,
       {| remote := TestClient.new true [lit "story-0"];
          disk := directory_with_bad_file;
          trace := [CallValidateAuth] |}).
Proof.
  exact (parse_error_before_remote_changes TestClient.ops
           (initial_world (TestClient.new true [lit "story-0"])
              directory_with_bad_file)
           "story-2.md" "title: only a title"
           eq_refl eq_refl (or_intror eq_refl)).
Defined.

(** C8, the code at a file whose frontmatter lacks the title key: the
    frontmatter block of a.md holds only a status line, and a line of the
    body starts with "title:".  [_parse_story_file] scans every line of the
    file, not the frontmatter block, so the run does not fail: it upserts
    story a with the title taken from the body. *)
Theorem frontmatter_without_title_is_pushed :
  _split_frontmatter title_in_body
    = (Some [lit "status: todo"], [lit "title: x"])
  /\ _extract_frontmatter_value [lit "status: todo"] "title" = None
  /\ sync_stories TestClient.ops
       (initial_world (TestClient.new true []) directory_title_in_body)
     = (Ok {| total_stories := 1; updated_stories := 1 |},
        {| remote :=
             {| TestClient._valid_token := true;
                TestClient._existing_story_ids := [];
                TestClient.upserted :=
                  [ {| TestClient.story_id := lit "a";
                       TestClient.title := lit "x";
                       TestClient.status := lit "todo" |} ];
                TestClient.archived := [] |};
           disk := directory_title_in_body;
           trace := [ CallValidateAuth;
                      CallUpsertStory "a" "x" "todo";
                      CallListProjectStories ] |}).
Proof. repeat split; reflexivity. Qed.

(* ================================================================== *)
(** ** Archiving what is no longer local *)
(* ================================================================== *)

(** The upsert loop, when it completes: one call per parsed record, in
    order, each made on the client state the previous one left. *)
Lemma upsert_loop_replay {S : Type} (github_client : client_ops S)
    (parsed : list (str * str * str)) (w w' : world S) (u : unit) :
  for_each parsed
    (fun '(story_id, title, status) =>
       call (CallUpsertStory story_id title status)
            (upsert_story github_client story_id title status))
    w = (Ok u, w') ->
  trace w' = trace w ++ map upsert_event parsed
  /\ disk w' = disk w
  /\ replay github_client (map upsert_event parsed) (remote w)
     = Some (remote w').
Proof.
  revert w. induction parsed as [|[[i t] s] parsed IH]; intros w H;
    cbn [for_each] in H.
  - injection H as _ <-. rewrite app_nil_r.
    split; [reflexivity|]. split; reflexivity.
  - apply bind_ok_inv in H as [a [w1 [H1 H2]]].
    apply call_ok_inv in H1 as [Hop [T1 D1]].
    destruct (IH _ H2) as [T [D P]]. rewrite T, D, T1, D1.
    split; [simpl; rewrite <- app_assoc; reflexivity|].
    split; [reflexivity|].
    cbn [map upsert_event replay method_of]. rewrite Hop. exact P.
Qed.


Lemma id_of_map (parsed : list (str * str * str)) :
  map (fun '(story_id, _, _) => story_id) parsed = map id_of parsed.
Proof. reflexivity. Qed.




Section Archive.

Context {S : Type}.
Variable github_client : client_ops S.

(** [present s x]: story [x] is on the board when the client is in state
    [s].  A client may keep three laws: authenticating changes nothing,
    upserting a story leaves every other story as it was, and listing
    reports what is there.  [TestClient] keeps them; [GitHubProjectClient]
    does not keep the second for story ids it cannot read back from an
    item's title. *)
Variable present : S -> str -> Prop.

Hypothesis validate_auth_keeps :
  forall s s' u, validate_auth github_client s = (Ok u, s') ->
    forall x, present s' x <-> present s x.

Hypothesis upsert_story_keeps_others :
  forall story_id title status s s' u,
    upsert_story github_client story_id title status s = (Ok u, s') ->
    forall x, x <> story_id -> (present s' x <-> present s x).

Hypothesis list_project_stories_reports :
  forall s s' listed,
    list_project_stories github_client s = (Ok listed, s') ->
    forall x, In x listed <-> present s x.

Lemma upsert_loop_run (parsed : list (str * str * str)) (w w' : world S)
    (u : unit) :
  for_each parsed
    (fun '(story_id, title, status) =>
       call (CallUpsertStory story_id title status)
            (upsert_story github_client story_id title status))
    w = (Ok u, w') ->
  forall x, ~ In x (map id_of parsed) ->
            (present (remote w') x <-> present (remote w) x).
Proof.
  revert w. induction parsed as [|[[i t] s] parsed IH]; intros w H;
    cbn [for_each] in H.
  - injection H as _ <-. intros x _. reflexivity.
  - apply bind_ok_inv in H as [a [w1 [H1 H2]]].
    apply call_ok_inv in H1 as [Hop _].
    intros x Hx. rewrite (IH _ H2).
    + apply (upsert_story_keeps_others _ _ _ _ _ _ Hop).
      intros E. apply Hx. left. symmetry. exact E.
    + intros Hin. apply Hx. right. exact Hin.
Qed.

(** For a client that keeps the three laws, the listing taken after the
    upserts differs from the board before the run only in pushed ids, so
    the ids of a completed run's archive calls are those that were on the
    board before the run and are not among the ids just pushed. *)
Lemma lawful_client_archives_prior_ids (w w' : world S) (r : SyncResult) :
  sync_stories github_client w = (Ok r, w') ->
  exists parsed archived,
    Forall2 (parsed_from (disk w)) (story_files (disk w)) parsed
    /\ trace w'
       = trace w ++ [CallValidateAuth] ++ map upsert_event parsed
         ++ [CallListProjectStories] ++ map CallArchiveStory archived
    /\ (forall x, In x archived <->
                  present (remote w) x
                  /\ ~ In x (map stem (story_files (disk w))))
    /\ NoDup archived
    /\ StronglySorted str_le archived.
Proof.
  rewrite sync_stories_run. cbv zeta.
  destruct (validate_auth github_client (remote w)) as [r0 s0] eqn:Hauth.
  cbn [fst snd]. destruct r0 as [u0|e]; [|discriminate].
  destruct (dir_exists (disk w)); [|discriminate].
  destruct (parse_all (disk w) (story_files (disk w))) as [parsed|e] eqn:Hp;
    [|discriminate].
  apply parse_all_ok in Hp as [Hfrom Hids].
  unfold push_and_archive. intros H.
  apply bind_ok_inv in H as [u1 [w1 [H1 H]]].
  pose proof (upsert_loop_run _ _ _ _ H1) as P1.
  apply upsert_loop_replay in H1 as [T1 [D1 _]].
  apply bind_ok_inv in H as [listed [w2 [H2 H]]].
  apply call_ok_inv in H2 as [Hlist [T2 D2]].
  cbv zeta in H.
  apply bind_ok_inv in H as [u3 [w3 [H3 H]]].
  apply archive_loop_run in H3 as [T3 D3].
  injection H as _ <-.
  rewrite id_of_map in T3.
  set (archived := sorted (set_difference (set_of listed)
                             (set_of (map id_of parsed)))) in *.
  exists parsed, archived.
  split; [exact Hfrom|].
  split.
  { rewrite T3, T2, T1. unfold after_call. cbn [trace].
    rewrite <- !app_assoc. reflexivity. }
  destruct (archive_list_spec listed (map id_of parsed)) as [A1 [A2 A3]].
  fold archived in A1, A2, A3.
  split; [|split; assumption].
  intros x. rewrite A1, <- Hids.
  rewrite (list_project_stories_reports _ _ _ Hlist x).
  split; intros [Hx Hn]; (split; [|exact Hn]).
  - apply (validate_auth_keeps _ _ _ Hauth).
    apply (P1 x Hn) in Hx. exact Hx.
  - apply (P1 x Hn). apply (validate_auth_keeps _ _ _ Hauth) in Hx. exact Hx.
Qed.

End Archive.

Lemma fake_validate_auth_keeps :
  forall s s' u, validate_auth TestClient.ops s = (Ok u, s') ->
    forall x, fake_present s' x <-> fake_present s x.
Proof.
  intros s s' u H x. cbn in H. unfold TestClient.validate_auth in H.
  destruct (negb (TestClient._valid_token s)); [discriminate H|].
  injection H as _ <-. reflexivity.
Qed.

Lemma fake_upsert_story_keeps_others :
  forall story_id title status s s' u,
    upsert_story TestClient.ops story_id title status s = (Ok u, s') ->
    forall x, x <> story_id -> (fake_present s' x <-> fake_present s x).
Proof.
  intros i t st s s' u H x _. cbn in H. unfold TestClient.upsert_story in H.
  injection H as _ <-. reflexivity.
Qed.

Lemma fake_list_project_stories_reports :
  forall s s' listed,
    list_project_stories TestClient.ops s = (Ok listed, s') ->
    forall x, In x listed <-> fake_present s x.
Proof.
  intros s s' listed H x. cbn in H. unfold TestClient.list_project_stories in H.
  injection H as <- _. reflexivity.
Qed.

(** The fake client of the tests keeps the laws. *)
Lemma fake_client_archives_prior_ids :
  exists parsed archived,
    Forall2 (parsed_from sample_directory) (story_files sample_directory)
      parsed
    /\ trace (snd (sync_stories TestClient.ops sample_world))
       = trace sample_world ++ [CallValidateAuth] ++ map upsert_event parsed
         ++ [CallListProjectStories] ++ map CallArchiveStory archived
    /\ (forall x, In x archived <->
                  fake_present (remote sample_world) x
                  /\ ~ In x (map stem (story_files sample_directory)))
    /\ NoDup archived
    /\ StronglySorted str_le archived.
Proof.
  exact (lawful_client_archives_prior_ids TestClient.ops fake_present
           fake_validate_auth_keeps fake_upsert_story_keeps_others
           fake_list_project_stories_reports
           sample_world (snd (sync_stories TestClient.ops sample_world))
           {| total_stories := 1; updated_stories := 1 |} eq_refl).
Qed.

(** The archive-on-removal example of the test suite: the board lists
    story-1 and story-2, the directory holds only story-2.md. *)
Example archive_on_removal :
  let dir := {| dir_exists := true;
                entries := [ (lit "story-2.md",
                              File (TestClient.story_file_content
                                      "Story Two" "todo")) ] |} in
  let run := sync_stories TestClient.ops
               (initial_world
                  (TestClient.new true [lit "story-1"; lit "story-2"]) dir) in
  fst run = Ok {| total_stories := 1; updated_stories := 1 |}
  /\ TestClient.archived (remote (snd run)) = [lit "story-1"]
  /\ trace (snd run)
     = [ CallValidateAuth;
         CallUpsertStory "story-2" "Story Two" "todo";
         CallListProjectStories;
         CallArchiveStory "story-1" ].
Proof. repeat split; reflexivity. Qed.

(** The pull example of the specification: a remote item "Example" of
    story-9 with status "In Progress" is written to story-9.md with the
    status normalised. *)
Example pull_normalizes_status :
  _normalize_status "In Progress" = lit "in_progress"
  /\ _render_story_content "Example" (_normalize_status "In Progress") None
     = unlines [ lit "---"; title_line "Example";
                 status_line "in_progress"; lit "---"; lit "";
                 lit "# Example" ].
Proof. split; reflexivity. Qed.

(* ================================================================== *)
(** ** Further properties: status normalisation *)
(* ================================================================== *)

Lemma dropwhile_nil_all (p : ascii -> bool) (a : str) :
  forallb p a = true -> dropwhile p a = [].
Proof.
  intros H. rewrite <- (app_nil_r a). rewrite dropwhile_all by exact H.
  reflexivity.
Qed.

Lemma strip_padding (a s b : str) :
  forallb isspace a = true -> forallb isspace b = true ->
  strip (a ++ s ++ b) = strip s.
Proof.
  intros Ha Hb. unfold strip, strip_by, lstrip_by.
  rewrite dropwhile_all by exact Ha.
  destruct (dropwhile_split isspace s) as [x [E Hx]].
  destruct (dropwhile isspace s) as [|c r] eqn:D.
  - rewrite app_nil_r in E. subst x.
    rewrite dropwhile_all by exact Hx.
    rewrite dropwhile_nil_all by exact Hb. reflexivity.
  - assert (Hc : isspace c = false).
    { pose proof (dropwhile_head_kept isspace s) as K. rewrite D in K. exact K. }
    rewrite E at 1. rewrite <- app_assoc, dropwhile_all by exact Hx.
    cbn [app dropwhile]. rewrite Hc.
    change (c :: r ++ b) with ((c :: r) ++ b).
    apply rstrip_by_app_all. exact Hb.
Qed.

(** X1: [_normalize_status] ignores letter case and surrounding whitespace:
    two inputs that differ only in case, and in whitespace around them,
    normalise to the same status. *)
Theorem normalize_status_case_and_padding (a b s1 s2 : str) :
  forallb isspace a = true -> forallb isspace b = true ->
  lower s1 = lower s2 ->
  _normalize_status (a ++ s1 ++ b) = _normalize_status s2.
Proof.
  intros Ha Hb Hl. unfold _normalize_status.
  rewrite strip_padding by assumption.
  rewrite <- !strip_lower, Hl. reflexivity.
Qed.

Lemma normalize_status_case_and_padding_witness :
  _normalize_status (lit "  " ++ lit "In Progress" ++ ["009"%char])
  = _normalize_status "in progress".
Proof.
  exact (normalize_status_case_and_padding (lit "  ") ["009"%char]
           "In Progress" "in progress" eq_refl eq_refl eq_refl).
Defined.

(** X2: every status [_normalize_status] returns is in normal form: it
    contains no space character, has no whitespace at either end and is
    unchanged by lower-casing. *)
Theorem normalize_status_normal_form (s : str) :
  ~ In " "%char (_normalize_status s)
  /\ strip (_normalize_status s) = _normalize_status s
  /\ lower (_normalize_status s) = _normalize_status s.
Proof.
  unfold _normalize_status. set (n := lower (strip s)).
  destruct (str_eq_dec n "todo").
  { split; [|split; reflexivity].
    simpl. intros H. repeat (destruct H as [H|H]; [discriminate H|]). exact H. }
  destruct (in_dec str_eq_dec n _).
  { split; [|split; reflexivity].
    simpl. intros H. repeat (destruct H as [H|H]; [discriminate H|]). exact H. }
  destruct (str_eq_dec n "done").
  { split; [|split; reflexivity].
    simpl. intros H. repeat (destruct H as [H|H]; [discriminate H|]). exact H. }
  destruct (normalized_kept s) as [H1 H2]. fold n in H1, H2.
  split; [apply replace_space_no_space|]. split.
  - rewrite replace_space_map. apply strip_by_fixed.
    + apply head_kept_map; [apply space_to_underscore_kept | exact H1].
    + apply last_kept_map; [apply space_to_underscore_kept | exact H2].
  - rewrite replace_space_map. unfold n, lower. rewrite !map_map.
    apply map_ext. intros c. apply space_to_underscore_lower.
Qed.

(* ================================================================== *)
(** ** Further properties: the codec on whole documents *)
(* ================================================================== *)

Lemma splitlines_unlines_app (ls : list str) (t : str) :
  Forall no_linebreak ls ->
  splitlines (unlines ls ++ t) = ls ++ splitlines t.
Proof.
  unfold splitlines. induction 1 as [|l ls Hl _ IH]; [reflexivity|].
  rewrite unlines_cons, <- !app_assoc.
  rewrite splitlines_from_line by exact Hl. simpl. f_equal. exact IH.
Qed.

Lemma splitlines_from_no_linebreak (n : nat) (s cur : str) :
  length s <= n -> no_linebreak cur ->
  Forall no_linebreak (splitlines_from cur s).
Proof.
  revert s cur. induction n as [|n IH]; intros s cur Hn Hcur.
  - destruct s; [|simpl in Hn; lia]. simpl.
    destruct cur; [constructor|].
    constructor; [|constructor]. apply Forall_rev. exact Hcur.
  - destruct s as [|c rest].
    + simpl. destruct cur; [constructor|].
      constructor; [|constructor]. apply Forall_rev. exact Hcur.
    + simpl in Hn. cbn [splitlines_from].
      destruct (is_linebreak c) eqn:E.
      * constructor; [apply Forall_rev; exact Hcur|].
        destruct rest as [|c' rest']; [constructor|].
        simpl in Hn.
        destruct (Ascii.eqb c "013" && Ascii.eqb c' "010");
          apply IH; try constructor; simpl; lia.
      * apply IH; [lia|]. constructor; [exact E | exact Hcur].
Qed.

Lemma splitlines_no_linebreak (s : str) : Forall no_linebreak (splitlines s).
Proof. apply (splitlines_from_no_linebreak (length s)); [lia | constructor]. Qed.

Lemma split_frontmatter_lines (c first close : str) (fm body : list str) :
  splitlines c = first :: fm ++ close :: body ->
  is_delimiter first -> Forall (fun l => ~ is_delimiter l) fm ->
  is_delimiter close ->
  _split_frontmatter c = (Some fm, body).
Proof.
  intros L Hf Hfm Hc. unfold _split_frontmatter. rewrite L.
  destruct (str_eq_dec (strip first) "---"); [|contradiction].
  rewrite find_delimiter_app by assumption.
  destruct (slice_frontmatter first close fm body) as [S1 S2].
  rewrite S1, S2. reflexivity.
Qed.

Lemma split_frontmatter_some_inv (c : str) (fm body : list str) :
  _split_frontmatter c = (Some fm, body) ->
  Forall (fun l => ~ is_delimiter l) fm /\ Forall no_linebreak fm.
Proof.
  unfold _split_frontmatter.
  pose proof (splitlines_no_linebreak c) as N.
  destruct (splitlines c) as [|first rest]; [discriminate|].
  destruct (str_eq_dec (strip first) "---"); [|discriminate].
  destruct (find_delimiter 1 rest) as [idx|] eqn:F; [|discriminate].
  apply find_delimiter_some in F as [fm' [close [body' [H1 [H2 [H3 H4]]]]]].
  subst rest idx.
  destruct (slice_frontmatter first close fm' body') as [S1 S2].
  rewrite S1, S2. intros H. injection H as <- <-.
  split; [exact H2|].
  inversion N as [|? ? _ N']; subst.
  apply Forall_app in N' as [N' _]. exact N'.
Qed.

Lemma join_app (a b : list str) :
  a <> [] -> b <> [] ->
  join newline (a ++ b) = join newline a ++ newline ++ join newline b.
Proof.
  intros Ha Hb. induction a as [|x a IH]; [contradiction|].
  destruct a as [|y a].
  - destruct b as [|z b]; [contradiction | reflexivity].
  - change ((x :: y :: a) ++ b) with (x :: y :: (a ++ b)).
    rewrite !join_cons_cons.
    change (y :: a ++ b) with ((y :: a) ++ b).
    rewrite IH by discriminate. rewrite <- !app_assoc. reflexivity.
Qed.

Lemma rstrip_all_blank (x : str) : rstrip x = [] -> forallb isspace x = true.
Proof.
  intros E. destruct (rstrip_by_split isspace x) as [t [H1 H2]].
  fold rstrip in H1. rewrite E in H1. simpl in H1. subst t. exact H2.
Qed.

(** Every rendered document opens with the delimiter, the two fresh lines,
    the carried-forward lines and the closing delimiter, each on a line of
    its own; [tail] is what is left of the body. *)
Lemma rendered_text (title status : str) (existing_content : option str) :
  exists tail,
    _render_story_content title status existing_content
    = unlines ([lit "---"; title_line title; status_line status]
               ++ filter (fun l => negb (is_owned_line l))
                    (carried_forward (fst (existing_parts existing_content)))
               ++ [lit "---"])
      ++ tail.
Proof.
  rewrite render_unfold, build_frontmatter_filter.
  set (kept := filter _ _).
  set (body := body_or_heading title _).
  set (A := [lit "---"; title_line title; status_line status]
            ++ kept ++ [lit "---"]).
  assert (E : [lit "---"] ++ (title_line title :: status_line status :: kept)
              ++ [lit "---"; lit ""] ++ body
              = A ++ (lit "" :: body)).
  { unfold A. cbn [app]. rewrite <- !app_assoc. reflexivity. }
  rewrite E.
  assert (HA : A <> []) by discriminate.
  rewrite join_app by (try exact HA; discriminate).
  assert (HjA : rstrip (join newline A) = join newline A).
  { unfold A. rewrite app_assoc.
    rewrite join_snoc by (destruct kept; discriminate).
    rewrite app_assoc. apply rstrip_by_app_kept; [discriminate | reflexivity]. }
  set (x := join newline (lit "" :: body)).
  destruct (rstrip x) as [|c r] eqn:R.
  - exists []. rewrite app_nil_r.
    apply rstrip_all_blank in R.
    unfold rstrip. rewrite rstrip_by_app_all.
    + fold rstrip. rewrite HjA. apply join_unlines. exact HA.
    + rewrite forallb_app. rewrite R. reflexivity.
  - exists (rstrip x ++ newline).
    rewrite (app_assoc (join newline A) newline x).
    rewrite rstrip_app_nonblank by (rewrite R; discriminate).
    rewrite <- (join_unlines A HA). rewrite <- !app_assoc. reflexivity.
Qed.

Lemma rendered_lines (title status : str) (existing_content : option str) :
  no_linebreak title -> no_linebreak status ->
  exists rest,
    splitlines (_render_story_content title status existing_content)
    = lit "---"
      :: (title_line title :: status_line status
          :: filter (fun l => negb (is_owned_line l))
               (carried_forward (fst (existing_parts existing_content))))
      ++ lit "---" :: rest
    /\ Forall (fun l => ~ is_delimiter l)
         (filter (fun l => negb (is_owned_line l))
            (carried_forward (fst (existing_parts existing_content)))).
Proof.
  intros Ht Hs. destruct (rendered_text title status existing_content)
    as [tail E].
  set (kept := filter _ _) in *.
  assert (K : Forall (fun l => ~ is_delimiter l) kept
              /\ Forall no_linebreak kept).
  { assert (C : Forall (fun l => ~ is_delimiter l)
                  (carried_forward (fst (existing_parts existing_content)))
                /\ Forall no_linebreak
                     (carried_forward (fst (existing_parts existing_content)))).
    { unfold existing_parts.
      destruct existing_content as [[|c s]|];
        try (split; constructor).
      destruct (_split_frontmatter (c :: s)) as [[fm|] body] eqn:S;
        [|split; constructor].
      exact (split_frontmatter_some_inv _ _ _ S). }
    destruct C as [C1 C2]. unfold kept. split; apply Forall_forall;
      intros l Hl; apply filter_In in Hl as [Hl _].
    - rewrite Forall_forall in C1. exact (C1 l Hl).
    - rewrite Forall_forall in C2. exact (C2 l Hl). }
  destruct K as [K1 K2].
  exists (splitlines tail). split; [|exact K1].
  rewrite E. rewrite splitlines_unlines_app.
  - cbn [app]. rewrite <- !app_assoc. reflexivity.
  - cbn [app]. constructor; [apply no_linebreak_lit_delimiter|].
    constructor; [apply no_linebreak_title_line, Ht|].
    constructor; [apply no_linebreak_status_line, Hs|].
    apply Forall_app. split; [exact K2|].
    constructor; [apply no_linebreak_lit_delimiter | constructor].
Qed.

(** X3: pull keeps foreign frontmatter.  For every existing file content
    (or none) and every title and status without line breaks, the document
    render produces parses back to a frontmatter block made of the fresh
    title and status lines followed by exactly the existing frontmatter
    lines that are not title:/status: lines, unchanged and in order. *)
Theorem render_keeps_foreign_frontmatter (title status : str)
    (existing_content : option str) :
  no_linebreak title -> no_linebreak status ->
  fst (_split_frontmatter
         (_render_story_content title status existing_content))
  = Some (title_line title :: status_line status
          :: filter (fun l => negb (is_owned_line l))
               (carried_forward (fst (existing_parts existing_content)))).
Proof.
  intros Ht Hs.
  destruct (rendered_lines title status existing_content Ht Hs)
    as [rest [L K]].
  rewrite (split_frontmatter_lines _ _ _ _ _ L); [reflexivity | | |].
  - apply delimiter_is_delimiter.
  - constructor; [apply title_line_not_delimiter|].
    constructor; [apply status_line_not_delimiter | exact K].
  - apply delimiter_is_delimiter.
Qed.

Lemma render_keeps_foreign_frontmatter_witness :
  fst (_split_frontmatter
         (_render_story_content "New" "done"
            (Some (unlines [lit "---"; lit "Title: Old"; lit "owner: bob";
                            lit "---"; lit "text"]))))
  = Some [title_line "New"; status_line "done"; lit "owner: bob"].
Proof.
  exact (render_keeps_foreign_frontmatter "New" "done"
           (Some (unlines [lit "---"; lit "Title: Old"; lit "owner: bob";
                           lit "---"; lit "text"]))
           ltac:(repeat constructor) ltac:(repeat constructor)).
Defined.

(** X4: what pull writes, push reads back.  For every existing file content
    (or none), and every title and status that contain no line break and
    neither begin nor end with a quote character, [_parse_story_file]'s
    parse of the rendered document yields that title and that status. *)
Theorem parse_after_render (name title status : str)
    (existing_content : option str) :
  no_linebreak title -> quote_free_ends title ->
  no_linebreak status -> quote_free_ends status ->
  parse_content name (_render_story_content title status existing_content)
  = Ok (stem name, title, status).
Proof.
  intros Ht Qt Hs Qs.
  destruct (rendered_lines title status existing_content Ht Hs)
    as [rest [L _]].
  unfold parse_content. rewrite L. cbn [app].
  rewrite extract_title_rendered by exact Qt.
  rewrite extract_status_rendered by exact Qs. reflexivity.
Qed.

Lemma parse_after_render_witness :
  parse_content "story-9.md"
    (_render_story_content "Example" "in_progress"
       (Some (lit "status: stale")))
  = Ok (lit "story-9", lit "Example", lit "in_progress").
Proof.
  exact (parse_after_render "story-9.md" "Example" "in_progress"
           (Some (lit "status: stale"))
           ltac:(repeat constructor) ltac:(repeat split; reflexivity)
           ltac:(repeat constructor) ltac:(repeat split; reflexivity)).
Defined.

Lemma filter_owned_fresh (title status : str) (ls : list str) :
  filter (fun l => negb (is_owned_line l))
    (title_line title :: status_line status :: ls)
  = filter (fun l => negb (is_owned_line l)) ls.
Proof.
  cbn [filter]. rewrite title_line_owned, status_line_owned. reflexivity.
Qed.

(** X5: owned lines never pile up.  Building the frontmatter over a
    frontmatter that was itself built (with any earlier title and status)
    gives the same lines as building it over the original carried-forward
    lines: the earlier title: and status: lines are replaced, not kept. *)
Theorem build_frontmatter_replaces_owned (title status title0 status0 : str)
    (existing : option (list str)) :
  _build_frontmatter title status
    (Some (_build_frontmatter title0 status0 existing))
  = _build_frontmatter title status existing.
Proof.
  rewrite !build_frontmatter_filter. cbn [carried_forward].
  rewrite filter_owned_fresh. f_equal. f_equal.
  induction (carried_forward existing) as [|l ls IH]; [reflexivity|].
  cbn [filter]. destruct (is_owned_line l) eqn:E; cbn [negb].
  - exact IH.
  - cbn [filter]. rewrite E. cbn [negb]. f_equal. exact IH.
Qed.

(** X6: rendering is not idempotent on the body.  For every title and
    status without line breaks, rendering over a freshly rendered document
    keeps the frontmatter and the heading but puts one more empty line
    before the heading, so the text grows by one newline. *)
Theorem render_again_adds_blank_line (title status : str) :
  no_linebreak title -> no_linebreak status ->
  _render_story_content title status
    (Some (_render_story_content title status None))
  = unlines [lit "---"; title_line title; status_line status; lit "---";
             lit ""; lit ""; heading title]
  /\ length (_render_story_content title status
               (Some (_render_story_content title status None)))
     = S (length (_render_story_content title status None)).
Proof.
  intros Ht Hs.
  assert (Hd := no_linebreak_lit_delimiter).
  assert (Htl := no_linebreak_title_line _ Ht).
  assert (Hsl := no_linebreak_status_line _ Hs).
  assert (Hh := no_linebreak_heading _ Ht).
  assert (E : _render_story_content title status
                (Some (_render_story_content title status None))
              = unlines [lit "---"; title_line title; status_line status;
                         lit "---"; lit ""; lit ""; heading title]).
  { rewrite render_fresh.
    apply (render_injected title status
             [title_line title; status_line status] []).
    - exact Ht.
    - each_line.
    - pose proof (title_line_not_delimiter title).
      pose proof (status_line_not_delimiter status). each_line.
    - cbn [filter]. rewrite title_line_owned, status_line_owned. reflexivity. }
  split; [exact E|]. rewrite E, render_fresh. unfold unlines.
  cbn [map concat]. rewrite !length_app. simpl. lia.
Qed.

Lemma render_again_adds_blank_line_witness :
  length (_render_story_content "Example" "todo"
            (Some (_render_story_content "Example" "todo" None)))
  = S (length (_render_story_content "Example" "todo" None)).
Proof.
  exact (proj2 (render_again_adds_blank_line "Example" "todo"
                  ltac:(repeat constructor) ltac:(repeat constructor))).
Defined.

(* ================================================================== *)
(** ** Further properties: what a run may do *)
(* ================================================================== *)

Section Steps.

Context {S : Type}.
Variable P : event -> Prop.

Lemma steps_ret {A : Type} (a : A) : steps_within (S := S) P (ret a).
Proof. intros w. exists []. rewrite app_nil_r. split; [reflexivity | constructor]. Qed.

Lemma steps_raise {A : Type} (e : exn) : steps_within (S := S) (A := A) P (raise e).
Proof. intros w. exists []. rewrite app_nil_r. split; [reflexivity | constructor]. Qed.

Lemma steps_bind {A C : Type} (m : M (S := S) A) (k : A -> M C) :
  steps_within P m -> (forall a, steps_within P (k a)) ->
  steps_within P (bind m k).
Proof.
  intros Hm Hk w. destruct (Hm w) as [t1 [T1 F1]]. unfold bind.
  destruct (m w) as [[a|e] w1]; cbn [snd] in *.
  - destruct (Hk a w1) as [t2 [T2 F2]]. exists (t1 ++ t2).
    rewrite T2, T1, app_assoc. split; [reflexivity|].
    apply Forall_app. split; assumption.
  - exists t1. split; assumption.
Qed.

Lemma steps_call {A : Type} (ev : event) (method : S -> result A * S) :
  P ev -> steps_within P (call ev method).
Proof.
  intros H w. exists [ev]. rewrite call_run. split; [reflexivity|].
  constructor; [exact H | constructor].
Qed.

Lemma steps_for_each {A : Type} (l : list A) (body : A -> M (S := S) unit) :
  (forall x, steps_within P (body x)) -> steps_within P (for_each l body).
Proof.
  intros H. induction l as [|x l IH]; cbn [for_each].
  - apply steps_ret.
  - apply steps_bind; [apply H | intros _; exact IH].
Qed.

Lemma steps_map_m {A C : Type} (f : A -> M (S := S) C) (l : list A) :
  (forall x, steps_within P (f x)) -> steps_within P (map_m f l).
Proof.
  intros H. induction l as [|x l IH]; cbn [map_m].
  - apply steps_ret.
  - apply steps_bind; [apply H|]. intros y.
    apply steps_bind; [exact IH | intros ys; apply steps_ret].
Qed.

Lemma steps_filter_m {A : Type} (p : A -> M (S := S) bool) (l : list A) :
  (forall x, steps_within P (p x)) -> steps_within P (filter_m p l).
Proof.
  intros H. induction l as [|x l IH]; cbn [filter_m].
  - apply steps_ret.
  - apply steps_bind; [apply H|]. intros b.
    apply steps_bind; [exact IH | intros ys; apply steps_ret].
Qed.

(** A computation that leaves the world alone. *)
Lemma steps_silent {A : Type} (m : M (S := S) A) :
  (forall w, snd (m w) = w) -> steps_within P m.
Proof.
  intros H w. exists []. rewrite H, app_nil_r. split; [reflexivity | constructor].
Qed.

End Steps.

Lemma iterdir_silent {S : Type} (w : world S) : snd (iterdir w) = w.
Proof. unfold iterdir. destruct (dir_exists (disk w)); reflexivity. Qed.

Lemma is_file_silent {S : Type} (p : str) (w : world S) : snd (is_file p w) = w.
Proof.
  unfold is_file. destruct (lookup p (entries (disk w))) as [[c|]|]; reflexivity.
Qed.

Lemma exists_silent {S : Type} (p : str) (w : world S) : snd (exists_ p w) = w.
Proof.
  unfold exists_. destruct (lookup p (entries (disk w))); reflexivity.
Qed.

Lemma read_text_silent {S : Type} (p : str) (w : world S) :
  snd (read_text p w) = w.
Proof.
  unfold read_text. destruct (lookup p (entries (disk w))) as [[c|]|]; reflexivity.
Qed.

Lemma is_story_file_silent {S : Type} (p : str) (w : world S) :
  snd (is_story_file p w) = w.
Proof. rewrite is_story_file_run. reflexivity. Qed.

Lemma parse_story_file_silent {S : Type} (p : str) (w : world S) :
  snd (_parse_story_file p w) = w.
Proof.
  unfold _parse_story_file, bind. pose proof (read_text_silent p w) as R.
  destruct (read_text p w) as [[c|e] w1]; cbn [snd] in R; subst w1;
    [|reflexivity].
  destruct (_extract_frontmatter_value (splitlines c) "title");
    destruct (_extract_frontmatter_value (splitlines c) "status"); reflexivity.
Qed.

Lemma sync_stories_steps {S : Type} (github_client : client_ops S) :
  steps_within is_client_call (sync_stories github_client).
Proof.
  unfold sync_stories.
  apply steps_bind; [apply steps_call; exact I | intros _].
  apply steps_bind; [apply steps_silent; apply iterdir_silent | intros paths].
  apply steps_bind.
  { apply steps_filter_m. intros p. apply steps_silent, is_story_file_silent. }
  intros kept. apply steps_bind.
  { apply steps_map_m. intros p. apply steps_silent, parse_story_file_silent. }
  intros parsed. apply steps_bind.
  { apply steps_for_each. intros [[i t] s]. apply steps_call. exact I. }
  intros _. apply steps_bind; [apply steps_call; exact I | intros listed].
  cbv zeta. apply steps_bind.
  { apply steps_for_each. intros i. apply steps_call. exact I. }
  intros _. apply steps_ret.
Qed.

Section KeepsDisk.

Context {S : Type}.

Lemma keeps_disk_ret {A : Type} (a : A) : keeps_disk (S := S) (ret a).
Proof. intros w. reflexivity. Qed.

Lemma keeps_disk_bind {A C : Type} (m : M (S := S) A) (k : A -> M C) :
  keeps_disk m -> (forall a, keeps_disk (k a)) -> keeps_disk (bind m k).
Proof.
  intros Hm Hk w. pose proof (Hm w) as D1. unfold bind.
  destruct (m w) as [[a|e] w1]; cbn [snd] in *; [|exact D1].
  rewrite (Hk a w1). exact D1.
Qed.

Lemma keeps_disk_call {A : Type} (ev : event) (method : S -> result A * S) :
  keeps_disk (call ev method).
Proof. intros w. rewrite call_run. reflexivity. Qed.

Lemma keeps_disk_silent {A : Type} (m : M (S := S) A) :
  (forall w, snd (m w) = w) -> keeps_disk m.
Proof. intros H w. rewrite H. reflexivity. Qed.

Lemma keeps_disk_for_each {A : Type} (l : list A) (body : A -> M (S := S) unit) :
  (forall x, keeps_disk (body x)) -> keeps_disk (for_each l body).
Proof.
  intros H. induction l as [|x l IH]; cbn [for_each].
  - apply keeps_disk_ret.
  - apply keeps_disk_bind; [apply H | intros _; exact IH].
Qed.

Lemma keeps_disk_map_m {A C : Type} (f : A -> M (S := S) C) (l : list A) :
  (forall x, keeps_disk (f x)) -> keeps_disk (map_m f l).
Proof.
  intros H. induction l as [|x l IH]; cbn [map_m].
  - apply keeps_disk_ret.
  - apply keeps_disk_bind; [apply H|]. intros y.
    apply keeps_disk_bind; [exact IH | intros ys; apply keeps_disk_ret].
Qed.

Lemma keeps_disk_filter_m {A : Type} (p : A -> M (S := S) bool) (l : list A) :
  (forall x, keeps_disk (p x)) -> keeps_disk (filter_m p l).
Proof.
  intros H. induction l as [|x l IH]; cbn [filter_m].
  - apply keeps_disk_ret.
  - apply keeps_disk_bind; [apply H|]. intros b.
    apply keeps_disk_bind; [exact IH | intros ys; apply keeps_disk_ret].
Qed.

End KeepsDisk.

Lemma sync_stories_keeps_disk {S : Type} (github_client : client_ops S) :
  keeps_disk (sync_stories github_client).
Proof.
  unfold sync_stories.
  apply keeps_disk_bind; [apply keeps_disk_call | intros _].
  apply keeps_disk_bind;
    [apply keeps_disk_silent; apply iterdir_silent | intros paths].
  apply keeps_disk_bind.
  { apply keeps_disk_filter_m. intros p.
    apply keeps_disk_silent, is_story_file_silent. }
  intros kept. apply keeps_disk_bind.
  { apply keeps_disk_map_m. intros p.
    apply keeps_disk_silent, parse_story_file_silent. }
  intros parsed. apply keeps_disk_bind.
  { apply keeps_disk_for_each. intros [[i t] s]. apply keeps_disk_call. }
  intros _. apply keeps_disk_bind; [apply keeps_disk_call | intros listed].
  cbv zeta. apply keeps_disk_bind.
  { apply keeps_disk_for_each. intros i. apply keeps_disk_call. }
  intros _. apply keeps_disk_ret.
Qed.

(** X7: push is read-only on the local side.  Whatever the client does and
    however the run ends (normally or by any exception), [sync_stories]
    leaves the directory exactly as it found it, and everything it adds to
    the trace is a client method call: it never creates a directory and
    never writes a file. *)
Theorem sync_never_writes {S : Type} (github_client : client_ops S)
    (w : world S) :
  disk (snd (sync_stories github_client w)) = disk w
  /\ exists t,
       trace (snd (sync_stories github_client w)) = trace w ++ t
       /\ Forall is_client_call t.
Proof.
  split; [apply sync_stories_keeps_disk | apply sync_stories_steps].
Qed.

(* ================================================================== *)
(** ** Further properties: a completed push *)
(* ================================================================== *)

Lemma upsert_loop_trace {S : Type} (github_client : client_ops S)
    (parsed : list (str * str * str)) (w w' : world S) (u : unit) :
  for_each parsed
    (fun '(story_id, title, status) =>
       call (CallUpsertStory story_id title status)
            (upsert_story github_client story_id title status))
    w = (Ok u, w') ->
  trace w' = trace w ++ map upsert_event parsed /\ disk w' = disk w.
Proof.
  revert w. induction parsed as [|[[i t] s] parsed IH]; intros w H;
    cbn [for_each] in H.
  - injection H as _ <-. rewrite app_nil_r. split; reflexivity.
  - apply bind_ok_inv in H as [a [w1 [H1 H2]]].
    apply call_ok_inv in H1 as [_ [T1 D1]].
    destruct (IH _ H2) as [T D]. rewrite T, D, T1, D1. simpl.
    rewrite <- app_assoc. split; reflexivity.
Qed.

(** The shape of every completed run of [sync_stories]. *)
Lemma sync_stories_ok_inv {S : Type} (github_client : client_ops S)
    (w w' : world S) (r : SyncResult) :
  sync_stories github_client w = (Ok r, w') ->
  exists parsed archived,
    parse_all (disk w) (story_files (disk w)) = Ok parsed
    /\ r = {| total_stories := length parsed;
              updated_stories := length parsed |}
    /\ trace w'
       = trace w ++ [CallValidateAuth] ++ map upsert_event parsed
         ++ [CallListProjectStories] ++ map CallArchiveStory archived
    /\ disk w' = disk w.
Proof.
  rewrite sync_stories_run. cbv zeta.
  destruct (fst (validate_auth github_client (remote w))) as [u0|e];
    [|discriminate].
  destruct (dir_exists (disk w)); [|discriminate].
  destruct (parse_all (disk w) (story_files (disk w))) as [parsed|e] eqn:Hp;
    [|discriminate].
  unfold push_and_archive. intros H.
  apply bind_ok_inv in H as [u1 [w1 [H1 H]]].
  apply upsert_loop_trace in H1 as [T1 D1].
  apply bind_ok_inv in H as [listed [w2 [H2 H]]].
  apply call_ok_inv in H2 as [_ [T2 D2]].
  cbv zeta in H.
  apply bind_ok_inv in H as [u3 [w3 [H3 H]]].
  apply archive_loop_run in H3 as [T3 D3].
  injection H as <- <-.
  exists parsed. eexists. split; [reflexivity|]. split; [reflexivity|].
  split.
  - rewrite T3, T2, T1. unfold after_call. cbn [trace].
    rewrite <- !app_assoc. reflexivity.
  - rewrite D3, D2, D1. reflexivity.
Qed.

Lemma parse_all_length (fs : filesystem) (l : list str)
    (rs : list (str * str * str)) :
  parse_all fs l = Ok rs -> length rs = length l.
Proof.
  intros H. apply parse_all_ok in H as [_ H].
  rewrite <- (length_map id_of rs), H, length_map. reflexivity.
Qed.

(** X8: a completed push reports what it did.  When [sync_stories] returns,
    both counts of its result equal the number of regular files with
    suffix .md in the directory, and exactly that many upsert_story calls
    were made. *)
Theorem sync_result_counts {S : Type} (github_client : client_ops S)
    (w w' : world S) (r : SyncResult) :
  sync_stories github_client w = (Ok r, w') ->
  total_stories r = length (story_files (disk w))
  /\ updated_stories r = length (story_files (disk w))
  /\ exists t,
       trace w' = trace w ++ t
       /\ length (filter is_upsert t) = length (story_files (disk w)).
Proof.
  intros H. apply sync_stories_ok_inv in H
    as [parsed [archived [Hp [-> [T _]]]]].
  apply parse_all_length in Hp. cbn [total_stories updated_stories].
  split; [exact Hp|]. split; [exact Hp|].
  eexists. split; [exact T|].
  cbn [app filter is_upsert]. rewrite filter_app. cbn [filter is_upsert].
  rewrite length_app, <- Hp.
  assert (E1 : filter is_upsert (map upsert_event parsed)
               = map upsert_event parsed).
  { clear. induction parsed as [|[[i t] s] l IH]; [reflexivity|].
    cbn [map filter upsert_event is_upsert]. f_equal. exact IH. }
  assert (E2 : filter is_upsert (map CallArchiveStory archived) = []).
  { clear. induction archived as [|x l IH]; [reflexivity | exact IH]. }
  rewrite E1, E2, length_map. simpl. lia.
Qed.

Lemma sync_result_counts_witness :
  total_stories (match fst (sync_stories TestClient.ops sample_world) with
                 | Ok r => r
                 | Raise _ => {| total_stories := 0; updated_stories := 0 |}
                 end)
  = length (story_files (disk sample_world)).
Proof.
  exact (proj1 (sync_result_counts TestClient.ops sample_world
                  (snd (sync_stories TestClient.ops sample_world))
                  {| total_stories := 1; updated_stories := 1 |} eq_refl)).
Defined.

Lemma parse_all_first_failure (fs : filesystem) (pre post : list str)
    (p : str) (e : exn) :
  Forall (fun q => exists r, parse_content q (file_content fs q) = Ok r) pre ->
  parse_content p (file_content fs p) = Raise e ->
  parse_all fs (pre ++ p :: post) = Raise e.
Proof.
  intros Hpre Hp. induction Hpre as [|q pre [r Hq] _ IH]; cbn [app parse_all].
  - rewrite Hp. reflexivity.
  - rewrite Hq, IH. reflexivity.
Qed.

(** X9: the parse error names the first offending file.  With valid
    authentication and an existing directory, if in sorted order the .md
    files before [p] all have a title and a status line and [p] lacks one
    of them, the run raises ValueError with the message
    "Missing frontmatter fields in " followed by the name [p]. *)
Theorem sync_parse_error_names_first (S : Type) (github_client : client_ops S)
    (w : world S) (u : unit) (pre post : list str) (p : str) :
  fst (validate_auth github_client (remote w)) = Ok u ->
  dir_exists (disk w) = true ->
  story_files (disk w) = pre ++ p :: post ->
  Forall (fun q => exists r,
            parse_content q (file_content (disk w) q) = Ok r) pre ->
  (_extract_frontmatter_value
     (splitlines (file_content (disk w) p)) "title" = None
   \/ _extract_frontmatter_value
        (splitlines (file_content (disk w) p)) "status" = None) ->
  fst (sync_stories github_client w)
  = Raise (ValueError (lit "Missing frontmatter fields in " ++ p)).
Proof.
  intros Ha Hd Hf Hpre Hp. rewrite sync_stories_run. cbv zeta.
  rewrite Ha, Hd, Hf.
  rewrite (parse_all_first_failure (disk w) pre post p _ Hpre
             (parse_content_missing p _ Hp)).
  reflexivity.
Qed.

Lemma sync_parse_error_names_first_witness :
  fst (sync_stories TestClient.ops
         (initial_world (TestClient.new true []) directory_with_bad_file))
  = Raise (ValueError (lit "Missing frontmatter fields in story-2.md")).
Proof.
  apply (sync_parse_error_names_first _ TestClient.ops
           (initial_world (TestClient.new true []) directory_with_bad_file)
           tt [lit "story-1.md"] [] "story-2.md").
  - reflexivity.
  - reflexivity.
  - reflexivity.
  - constructor; [|constructor]. eexists. reflexivity.
  - right. reflexivity.
Defined.

Lemma filter_upsert_run (parsed : list (str * str * str))
    (archived : list str) :
  filter is_upsert
    ([CallValidateAuth] ++ map upsert_event parsed
     ++ [CallListProjectStories] ++ map CallArchiveStory archived)
  = map upsert_event parsed.
Proof.
  cbn [app filter is_upsert]. rewrite filter_app. cbn [filter is_upsert].
  assert (E1 : filter is_upsert (map upsert_event parsed)
               = map upsert_event parsed).
  { clear. induction parsed as [|[[i t] s] l IH]; [reflexivity|].
    cbn [map filter upsert_event is_upsert]. f_equal. exact IH. }
  assert (E2 : filter is_upsert (map CallArchiveStory archived) = []).
  { clear. induction archived as [|x l IH]; [reflexivity | exact IH]. }
  rewrite E1, E2. apply app_nil_r.
Qed.

(** X10: pushing twice upserts the same stories.  If a run of
    [sync_stories] completes and a second run from the world it left
    completes too, the second run returns the same result and makes the
    same upsert_story calls, with the same arguments in the same order,
    whatever the client did in between. *)
Theorem sync_twice_same_upserts {S : Type} (github_client : client_ops S)
    (w w1 w2 : world S) (r1 r2 : SyncResult) :
  sync_stories github_client w = (Ok r1, w1) ->
  sync_stories github_client w1 = (Ok r2, w2) ->
  r2 = r1
  /\ exists t1 t2,
       trace w1 = trace w ++ t1 /\ trace w2 = trace w1 ++ t2
       /\ filter is_upsert t2 = filter is_upsert t1.
Proof.
  intros H1 H2.
  apply sync_stories_ok_inv in H1 as [p1 [a1 [P1 [-> [T1 D1]]]]].
  apply sync_stories_ok_inv in H2 as [p2 [a2 [P2 [-> [T2 D2]]]]].
  rewrite D1, P1 in P2. injection P2 as <-.
  split; [reflexivity|].
  eexists. eexists. split; [exact T1|]. split; [exact T2|].
  rewrite !filter_upsert_run. reflexivity.
Qed.

Lemma sync_twice_same_upserts_witness :
  {| total_stories := 1; updated_stories := 1 |}
  = {| total_stories := 1; updated_stories := 1 |}
  /\ exists t1 t2,
       trace (snd (sync_stories TestClient.ops sample_world))
       = trace sample_world ++ t1
       /\ trace (snd (sync_stories TestClient.ops
                        (snd (sync_stories TestClient.ops sample_world))))
          = trace (snd (sync_stories TestClient.ops sample_world)) ++ t2
       /\ filter is_upsert t2 = filter is_upsert t1.
Proof.
  exact (sync_twice_same_upserts TestClient.ops sample_world
           (snd (sync_stories TestClient.ops sample_world))
           (snd (sync_stories TestClient.ops
                   (snd (sync_stories TestClient.ops sample_world))))
           {| total_stories := 1; updated_stories := 1 |}
           {| total_stories := 1; updated_stories := 1 |}
           eq_refl eq_refl).
Defined.

Lemma rfind_from_last (i : nat) (c : ascii) (a b : str) :
  ~ In c b -> rfind_from i c (a ++ c :: b) = Some (i + length a).
Proof.
  intros Hb.
  assert (N : forall j, rfind_from j c b = None).
  { clear i a. induction b as [|x b IH]; intros j; [reflexivity|].
    cbn [rfind_from]. rewrite IH.
    - destruct (Ascii.eqb x c) eqn:E; [|reflexivity].
      apply ascii_eqb_eq in E. exfalso. apply Hb. left. exact E.
    - intros H. apply Hb. right. exact H. }
  revert i. induction a as [|x a IH]; intros i; cbn [app rfind_from].
  - rewrite N, Ascii.eqb_refl. f_equal. simpl. lia.
  - rewrite IH. f_equal. simpl. lia.
Qed.

(** X11: pull's file names are push's story files.  For every story id
    without "/" and NUL that holds a character other than ".", the name
    [id ++ ".md"] has suffix ".md" and stem [id], so the file pull writes
    for a story is one push picks up, under the same id.  (The ids made of
    dots only are left out: pathlib's reading of a name such as "..md" is
    not the same in every version.) *)
Theorem target_name_round_trip (story_id : str) :
  Exists (fun c => c <> "."%char) story_id ->
  flat_id story_id ->
  suffix (story_id ++ lit ".md") = lit ".md"
  /\ stem (story_id ++ lit ".md") = story_id.
Proof.
  intros Hdot _.
  assert (Hne : story_id <> []) by (intros ->; inversion Hdot).
  assert (R : rfind "." (story_id ++ lit ".md") = Some (length story_id)).
  { unfold rfind. change (lit ".md") with ("."%char :: lit "md").
    rewrite rfind_from_last; [reflexivity|].
    simpl. intros H. repeat (destruct H as [H|H]; [discriminate H|]). exact H. }
  unfold suffix, stem. rewrite R.
  assert (L : length (story_id ++ lit ".md") = length story_id + 3)
    by (rewrite length_app; reflexivity).
  rewrite L.
  assert (C : ((0 <? length story_id)
               && (length story_id <? length story_id + 3 - 1))%nat = true).
  { apply andb_true_iff. split; apply Nat.ltb_lt; [|lia].
    destruct story_id; [contradiction | simpl; lia]. }
  rewrite C. split.
  - rewrite skipn_app, skipn_all, Nat.sub_diag. reflexivity.
  - rewrite firstn_app, firstn_all, Nat.sub_diag. simpl. apply app_nil_r.
Qed.

Lemma target_name_round_trip_witness :
  suffix (lit "story-9" ++ lit ".md") = lit ".md"
  /\ stem (lit "story-9" ++ lit ".md") = lit "story-9".
Proof.
  apply (target_name_round_trip "story-9").
  - apply Exists_cons_hd. discriminate.
  - split; simpl; intuition discriminate.
Defined.

(* ================================================================== *)
(** ** Further properties: pull *)
(* ================================================================== *)

(** One turn of the loop of [pull_stories]. *)
Lemma pull_one_run {S : Type} (written : nat) (story : StoryRecord)
    (w : world S) :
  pull_one written story w
  = match lookup (target_of story) (entries (disk w)) with
    | Some Directory => (Raise (OSError "Is a directory"), w)
    | _ =>
        if dir_exists (disk w) then
          (Ok (written + 1),
           {| remote := remote w;
              disk := {| dir_exists := true;
                         entries := store (target_of story)
                                      (File (written_content (disk w) story))
                                      (entries (disk w)) |};
              trace := trace w
                       ++ [FsWriteText (target_of story)
                             (written_content (disk w) story)] |})
        else (Raise (OSError "No such file or directory"), w)
    end.
Proof.
  unfold pull_one, written_content, previous, target_of.
  unfold bind, exists_, read_text, write_text, ret.
  destruct (lookup (story_id story ++ lit ".md") (entries (disk w)))
    as [[c|]|] eqn:L; cbn [disk entries]; rewrite ?L;
    try reflexivity;
    destruct (dir_exists (disk w)); reflexivity.
Qed.

Lemma lookup_store_same (name : str) (x : node) (es : list (str * node)) :
  lookup name (store name x es) = Some x.
Proof.
  induction es as [|[n y] es IH]; cbn [store lookup].
  - destruct (str_eq_dec name name); [reflexivity | contradiction].
  - destruct (str_eq_dec n name) as [E|E]; cbn [lookup].
    + destruct (str_eq_dec n name); [reflexivity | contradiction].
    + destruct (str_eq_dec n name); [contradiction | exact IH].
Qed.

Lemma lookup_store_other (name other : str) (x : node)
    (es : list (str * node)) :
  other <> name -> lookup name (store other x es) = lookup name es.
Proof.
  intros Hne. induction es as [|[n y] es IH]; cbn [store lookup].
  - destruct (str_eq_dec other name); [contradiction | reflexivity].
  - destruct (str_eq_dec n other) as [E|E]; cbn [lookup].
    + subst n. destruct (str_eq_dec other name); [contradiction | reflexivity].
    + destruct (str_eq_dec n name); [reflexivity | exact IH].
Qed.

Lemma pull_loop_steps {S : Type} (stories : list StoryRecord) (written : nat) :
  steps_within (S := S) is_pull_event (pull_loop written stories).
Proof.
  revert written. induction stories as [|st stories IH]; intros written;
    cbn [pull_loop].
  - apply steps_ret.
  - apply steps_bind; [|intros n; apply IH].
    intros w. rewrite pull_one_run.
    destruct (lookup (target_of st) (entries (disk w))) as [[c|]|];
      try destruct (dir_exists (disk w)); cbn [snd trace];
      try (exists []; rewrite app_nil_r; split; [reflexivity | constructor]);
      (eexists; split; [reflexivity | constructor; [exact I | constructor]]).
Qed.

(** X12: pull never changes the board.  Whatever the client answers and
    however the run ends, the only client methods [pull_stories] invokes
    are validate_auth and list_project_story_details: it makes no
    upsert_story, archive_story or list_project_stories call. *)
Theorem pull_never_mutates_board {S : Type} (github_client : client_ops S)
    (w : world S) :
  exists t,
    trace (snd (pull_stories github_client w)) = trace w ++ t
    /\ Forall is_pull_event t.
Proof.
  revert w. change (steps_within is_pull_event (pull_stories github_client)).
  unfold pull_stories.
  apply steps_bind; [apply steps_call; exact I | intros _].
  apply steps_bind.
  { intros w. exists [FsMkdir]. split; [reflexivity|].
    constructor; [exact I | constructor]. }
  intros _. apply steps_bind; [apply steps_call; exact I | intros stories].
  apply steps_bind; [apply pull_loop_steps | intros n; apply steps_ret].
Qed.

Section KeepsEntry.

Context {S : Type}.
Variable name : str.





End KeepsEntry.



Lemma pull_loop_ok {S : Type} (stories : list StoryRecord) (written n' : nat)
    (w w' : world S) :
  pull_loop written stories w = (Ok n', w') ->
  n' = written + length stories
  /\ remote w' = remote w
  /\ exists writes,
       trace w' = trace w ++ writes /\ Forall2 write_of stories writes.
Proof.
  revert written w. induction stories as [|st stories IH]; intros written w H;
    cbn [pull_loop] in H.
  - injection H as <- <-. split; [simpl; lia|]. split; [reflexivity|].
    exists []. rewrite app_nil_r. split; [reflexivity | constructor].
  - apply bind_ok_inv in H as [n1 [w1 [H1 H2]]].
    rewrite pull_one_run in H1.
    assert (G : n1 = written + 1 /\ remote w1 = remote w
                /\ trace w1 = trace w
                              ++ [FsWriteText (target_of st)
                                    (written_content (disk w) st)]).
    { destruct (lookup (target_of st) (entries (disk w))) as [[c|]|];
        try discriminate H1;
        destruct (dir_exists (disk w)); try discriminate H1;
        injection H1 as <- <-; repeat split; reflexivity. }
    destruct G as [-> [R1 T1]].
    destruct (IH _ _ H2) as [-> [R [writes [T F]]]].
    split; [simpl; lia|]. split; [rewrite R; exact R1|].
    exists (FsWriteText (target_of st) (written_content (disk w) st) :: writes).
    split.
    + rewrite T, T1, <- app_assoc. reflexivity.
    + constructor; [eexists; reflexivity | exact F].
Qed.

(** X14: a completed pull reports what it did.  When [pull_stories]
    returns, both counts of its result equal the number of stories the
    client listed, and after validate_auth, the creation of the directory
    and the listing, the run made exactly one write per listed story, in
    listing order, each to the file named after the story's id. *)
Theorem pull_result_counts {S : Type} (github_client : client_ops S)
    (w w' : world S) (r : PullResult) :
  pull_stories github_client w = (Ok r, w') ->
  exists stories writes,
    fst (list_project_story_details github_client
           (snd (validate_auth github_client (remote w)))) = Ok stories
    /\ total_items r = length stories
    /\ written_stories r = length stories
    /\ trace w'
       = trace w ++ [CallValidateAuth; FsMkdir; CallListProjectStoryDetails]
         ++ writes
    /\ Forall2 write_of stories writes.
Proof.
  unfold pull_stories. intros H.
  apply bind_ok_inv in H as [u [w1 [H1 H]]].
  apply call_ok_inv in H1 as [A1 [T1 D1]].
  apply bind_ok_inv in H as [u2 [w2 [H2 H]]].
  unfold mkdir in H2. injection H2 as _ <-.
  apply bind_ok_inv in H as [stories [w3 [H3 H]]].
  apply call_ok_inv in H3 as [A3 [T3 D3]]. cbn [remote trace disk] in *.
  apply bind_ok_inv in H as [n [w4 [H4 H]]].
  apply pull_loop_ok in H4 as [-> [R4 [writes [T4 F4]]]].
  injection H as <- <-.
  exists stories, writes. rewrite A1. cbn [snd]. rewrite A3.
  split; [reflexivity|]. split; [reflexivity|]. split; [reflexivity|].
  split; [|exact F4].
  rewrite T4, T3, T1, <- !app_assoc. reflexivity.
Qed.

Lemma pull_result_counts_witness :
  exists stories writes,
    fst (list_project_story_details (listing_ops sample_stories)
           (snd (validate_auth (listing_ops sample_stories)
                   (remote pull_world)))) = Ok stories
    /\ total_items {| total_items := 2; written_stories := 2 |}
       = length stories
    /\ written_stories {| total_items := 2; written_stories := 2 |}
       = length stories
    /\ trace (snd (pull_stories (listing_ops sample_stories) pull_world))
       = trace pull_world
         ++ [CallValidateAuth; FsMkdir; CallListProjectStoryDetails]
         ++ writes
    /\ Forall2 write_of stories writes.
Proof.
  exact (pull_result_counts (listing_ops sample_stories) pull_world
           (snd (pull_stories (listing_ops sample_stories) pull_world))
           {| total_items := 2; written_stories := 2 |} eq_refl).
Defined.

Lemma target_of_injective (a b : StoryRecord) :
  target_of a = target_of b -> story_id a = story_id b.
Proof. unfold target_of. apply app_inv_tail. Qed.

Lemma previous_store_other (fs : filesystem) (name other : str) (x : node) :
  other <> name ->
  previous {| dir_exists := true; entries := store other x (entries fs) |} name
  = previous fs name.
Proof.
  intros H. unfold previous. cbn [entries].
  rewrite lookup_store_other by exact H. reflexivity.
Qed.

Lemma pull_loop_files {S : Type} (stories : list StoryRecord)
    (written n' : nat) (w w' : world S) :
  pull_loop written stories w = (Ok n', w') ->
  NoDup (map story_id stories) ->
  (forall st, In st stories ->
     lookup (target_of st) (entries (disk w'))
     = Some (File (written_content (disk w) st)))
  /\ (forall name, ~ In name (map target_of stories) ->
        lookup name (entries (disk w')) = lookup name (entries (disk w))).
Proof.
  revert written w. induction stories as [|s0 stories IH];
    intros written w H ND; cbn [pull_loop] in H.
  - injection H as _ <-. split; [intros st [] | intros; reflexivity].
  - apply bind_ok_inv in H as [n1 [w1 [H1 H2]]].
    rewrite pull_one_run in H1.
    assert (G : disk w1
                = {| dir_exists := true;
                     entries := store (target_of s0)
                                  (File (written_content (disk w) s0))
                                  (entries (disk w)) |}).
    { destruct (lookup (target_of s0) (entries (disk w))) as [[c|]|];
        try discriminate H1;
        destruct (dir_exists (disk w)); try discriminate H1;
        injection H1 as _ <-; reflexivity. }
    inversion ND as [|? ? Hnotin ND']; subst.
    destruct (IH _ _ H2 ND') as [F1 F2].
    assert (Hfresh : ~ In (target_of s0) (map target_of stories)).
    { intros Hin. apply in_map_iff in Hin as [st [E Hst]].
      apply target_of_injective in E. apply Hnotin.
      rewrite <- E. apply in_map. exact Hst. }
    split.
    + intros st [<-|Hst].
      * rewrite (F2 _ Hfresh), G. cbn [entries]. apply lookup_store_same.
      * rewrite (F1 st Hst). f_equal. f_equal.
        unfold written_content. f_equal. rewrite G.
        apply previous_store_other. intros E.
        apply Hfresh. rewrite E. apply in_map. exact Hst.
    + intros name Hn. rewrite F2.
      * rewrite G. cbn [entries]. apply lookup_store_other.
        intros E. apply Hn. left. exact E.
      * intros Hin. apply Hn. right. exact Hin.
Qed.

(** X15: what a completed pull leaves on disk.  When [pull_stories] returns
    and the listed stories have pairwise distinct ids, none of which holds
    a "/" or a NUL, the file named after each story's id holds the document
    rendered from the story's title, its normalised status and the content
    that file had before the run (none if it did not exist). *)
Theorem pull_writes_rendered_stories {S : Type} (github_client : client_ops S)
    (w w' : world S) (r : PullResult) (stories : list StoryRecord)
    (st : StoryRecord) :
  pull_stories github_client w = (Ok r, w') ->
  fst (list_project_story_details github_client
         (snd (validate_auth github_client (remote w)))) = Ok stories ->
  NoDup (map story_id stories) ->
  Forall (fun st => flat_id (story_id st)) stories ->
  In st stories ->
  lookup (story_id st ++ lit ".md") (entries (disk w'))
  = Some (File (_render_story_content (title st)
                  (_normalize_status (status st))
                  (previous (disk w) (story_id st ++ lit ".md")))).
Proof.
  unfold pull_stories. intros H L ND _ Hin.
  apply bind_ok_inv in H as [u [w1 [H1 H]]].
  apply call_ok_inv in H1 as [A1 [T1 D1]].
  apply bind_ok_inv in H as [u2 [w2 [H2 H]]].
  unfold mkdir in H2. injection H2 as _ <-.
  apply bind_ok_inv in H as [stories' [w3 [H3 H]]].
  apply call_ok_inv in H3 as [A3 [T3 D3]]. cbn [remote trace disk] in *.
  rewrite A1 in L. cbn [snd] in L. rewrite A3 in L. cbn [fst] in L.
  injection L as ->.
  apply bind_ok_inv in H as [n [w4 [H4 H]]].
  injection H as _ <-.
  destruct (pull_loop_files _ _ _ _ _ H4 ND) as [F _].
  change (story_id st ++ lit ".md") with (target_of st).
  rewrite (F st Hin). unfold written_content, previous.
  rewrite D3. cbn [entries disk]. rewrite D1. reflexivity.
Qed.

Lemma pull_writes_rendered_stories_witness :
  lookup (lit "story-2" ++ lit ".md")
    (entries (disk (snd (pull_stories (listing_ops sample_stories)
                           pull_world))))
  = Some (File (_render_story_content "Story Two, renamed"
                  (_normalize_status "done")
                  (previous (disk pull_world) (lit "story-2" ++ lit ".md")))).
Proof.
  apply (pull_writes_rendered_stories (listing_ops sample_stories) pull_world
           (snd (pull_stories (listing_ops sample_stories) pull_world))
           {| total_items := 2; written_stories := 2 |} sample_stories
           {| story_id := lit "story-2"; title := lit "Story Two, renamed";
              status := lit "done" |}).
  - reflexivity.
  - reflexivity.
  - constructor; [simpl; intros [H|[]]; discriminate H|].
    constructor; [intros [] | constructor].
  - repeat (apply Forall_cons; [split; simpl; intuition discriminate|]).
    apply Forall_nil.
  - right. left. reflexivity.
Defined.

(** X16: pull cannot succeed with [GitHubProjectClient].  The class defines
    no list_project_story_details, so for every service and every world a
    run of [pull_stories] over this client ends in an exception, and it
    writes no file: the entries of the directory are what they were. *)
Theorem pull_with_github_client_fails {B : Type} (api : GitHub.service B)
    (w : world (GitHub.session B)) :
  (exists e, fst (pull_stories (GitHub.ops api) w) = Raise e)
  /\ entries (disk (snd (pull_stories (GitHub.ops api) w)))
     = entries (disk w).
Proof.
  assert (E : exists e w',
             pull_stories (GitHub.ops api) w = (Raise e, w')
             /\ entries (disk w') = entries (disk w)).
  { unfold pull_stories, bind. rewrite call_run.
    destruct (fst (validate_auth (GitHub.ops api) (remote w))) as [u|e];
      [|exists e; eexists; split; reflexivity].
    unfold mkdir. rewrite call_run.
    cbn [list_project_story_details GitHub.ops].
    unfold GitHub.list_project_story_details, GitHub.graise. cbn [fst snd].
    eexists. eexists. split; reflexivity. }
  destruct E as [e [w' [E D]]]. rewrite E. cbn [fst snd].
  split; [exists e; reflexivity | exact D].
Qed.

(* ================================================================== *)
(** ** Further properties: story ids in board titles *)
(* ================================================================== *)

Lemma dropwhile_length (p : ascii -> bool) (l : str) :
  length (dropwhile p l) <= length l.
Proof.
  induction l as [|c l IH]; simpl; [lia|].
  destruct (p c); simpl; lia.
Qed.

Lemma dropwhile_sub (p : ascii -> bool) (l : str) (c : ascii) :
  In c (dropwhile p l) -> In c l.
Proof.
  destruct (dropwhile_split p l) as [a [E _]]. intros H.
  rewrite E. apply in_or_app. right. exact H.
Qed.

Lemma mem_char_In (c : ascii) (s : str) : GitHub.mem_char c s = true <-> In c s.
Proof.
  unfold GitHub.mem_char. rewrite existsb_exists. split.
  - intros [x [H E]]. apply ascii_eqb_eq in E. subst x. exact H.
  - intros H. exists c. split; [exact H | apply Ascii.eqb_refl].
Qed.

(** What [_extract_story_id] returns, in terms of the first "]". *)
Lemma extract_story_id_some (title sid : str) :
  GitHub._extract_story_id title = Some sid ->
  exists before rest,
    title = before ++ "]"%char :: rest /\ ~ In "]"%char before
    /\ sid = dropwhile (Ascii.eqb "[") before.
Proof.
  unfold GitHub._extract_story_id.
  destruct (startswith title "[" && GitHub.mem_char "]" title) eqn:C;
    [|discriminate].
  apply andb_true_iff in C as [_ C]. apply mem_char_In in C.
  destruct (first_occurrence _ _ C) as [before [rest [-> Hb]]].
  rewrite (split1_first _ _ _ Hb). cbn [nth]. intros H. injection H as <-.
  exists before, rest. repeat split. exact Hb.
Qed.

Lemma extract_story_id_draft (sid title : str) :
  ~ In "]"%char sid ->
  GitHub._extract_story_id (draft_title sid title)
  = Some (dropwhile (Ascii.eqb "[") sid).
Proof.
  intros H. unfold GitHub._extract_story_id, draft_title.
  assert (M : GitHub.mem_char "]" (lit "[" ++ sid ++ lit "] " ++ title) = true).
  { apply mem_char_In. apply in_or_app. right. apply in_or_app. right.
    left. reflexivity. }
  rewrite M.
  change (startswith (lit "[" ++ sid ++ lit "] " ++ title) "[") with true.
  cbn [andb].
  change (lit "[" ++ sid ++ lit "] " ++ title)
    with (("["%char :: sid) ++ "]"%char :: " "%char :: title).
  rewrite split1_first.
  - cbn [nth]. unfold lstrip_by. cbn [dropwhile].
    rewrite Ascii.eqb_refl. reflexivity.
  - intros [E|E]; [discriminate E | exact (H E)].
Qed.

(** X17: the draft title round trip.  [_extract_story_id] recovers the
    story id from the title upsert_story gives a new draft issue,
    "[<id>] <title>", exactly when the id contains no "]" and does not
    begin with "[". *)
Theorem extract_story_id_round_trip (sid title : str) :
  GitHub._extract_story_id (draft_title sid title) = Some sid
  <-> (~ In "]"%char sid /\ head_kept (Ascii.eqb "[") sid).
Proof.
  split.
  - intros H.
    assert (Hb : ~ In "]"%char sid).
    { intros Hin. destruct (first_occurrence _ _ Hin) as [a [b [E Ha]]].
      assert (T : draft_title sid title
                  = ("["%char :: a) ++ "]"%char :: (b ++ lit "] " ++ title)).
      { unfold draft_title. rewrite E.
        change (lit "[") with ["["%char]. cbn [app].
        rewrite <- app_assoc. reflexivity. }
      unfold GitHub._extract_story_id in H. rewrite T in H.
      destruct (startswith _ "[" && GitHub.mem_char "]" _); [|discriminate H].
      rewrite split1_first in H.
      - cbn [nth] in H.
        assert (H' : dropwhile (Ascii.eqb "[") a = sid).
        { injection H as H. exact H. }
        apply (f_equal (@length ascii)) in H'.
        rewrite E, length_app in H'. simpl in H'.
        pose proof (dropwhile_length (Ascii.eqb "[") a) as L. lia.
      - intros [X|X]; [discriminate X | exact (Ha X)]. }
    split; [exact Hb|].
    rewrite (extract_story_id_draft _ _ Hb) in H. injection H as H.
    destruct sid as [|c r]; [exact I|]. cbn [head_kept].
    destruct (Ascii.eqb "[" c) eqn:E; [|reflexivity].
    cbn [dropwhile] in H. rewrite E in H.
    apply (f_equal (@length ascii)) in H.
    pose proof (dropwhile_length (Ascii.eqb "[") r) as L.
    rewrite H in L. simpl in L. lia.
  - intros [Hb Hh]. rewrite (extract_story_id_draft _ _ Hb).
    rewrite (dropwhile_fixed _ _ Hh). reflexivity.
Qed.

Lemma items_of_nodes_findable (nodes : list GitHub.node) :
  Forall (fun item => findable (GitHub.story_id item))
    (GitHub.items_of_nodes nodes).
Proof.
  induction nodes as [|n nodes IH]; cbn [GitHub.items_of_nodes];
    [constructor|].
  destruct (GitHub._extract_story_id (GitHub._extract_title n))
    as [[|c sid]|] eqn:E; try exact IH.
  constructor; [|exact IH]. cbn [GitHub.story_id].
  apply extract_story_id_some in E as [before [rest [_ [Hb E]]]].
  split; [discriminate|]. split.
  - intros H. rewrite E in H. apply dropwhile_sub in H. exact (Hb H).
  - rewrite E. apply dropwhile_head_kept.
Qed.

Lemma graphql_run {B A : Type} (rq : GitHub.request)
    (reply : B -> result A * B) (s : GitHub.session B) :
  GitHub._graphql rq reply s
  = (fst (reply (GitHub.backend s)),
     {| GitHub.self := GitHub.self s;
        GitHub.backend := snd (reply (GitHub.backend s));
        GitHub.sent := GitHub.sent s ++ [rq] |}).
Proof.
  unfold GitHub._graphql. destruct (reply (GitHub.backend s)); reflexivity.
Qed.


(* ================================================================== *)
(** ** Further properties: the methods of GitHubProjectClient *)
(* ================================================================== *)

Lemma list_project_items_run {B : Type} (api : GitHub.service B)
    (s : GitHub.session B) :
  GitHub._list_project_items api s
  = (match fst (GitHub.project_items api
                  (GitHub._project_id (GitHub.self s)) (GitHub.backend s)) with
     | Ok nodes => Ok (GitHub.items_of_nodes nodes)
     | Raise e => Raise e
     end,
     after_items api s).
Proof.
  unfold GitHub._list_project_items, GitHub.gbind, GitHub.get_self.
  rewrite graphql_run. cbn [GitHub.self GitHub.backend].
  unfold after_items.
  destruct (fst (GitHub.project_items api
                   (GitHub._project_id (GitHub.self s)) (GitHub.backend s)));
    reflexivity.
Qed.

(** X18: the ids a listing returns are findable.  Every story id
    [list_project_stories] returns is non-empty, contains no "]" and does
    not begin with "[": items whose title yields no such id are left out
    of the listing. *)
Theorem listed_story_ids_findable {B : Type} (api : GitHub.service B)
    (s s' : GitHub.session B) (ids : list str) :
  GitHub.list_project_stories api s = (Ok ids, s') ->
  Forall findable ids.
Proof.
  unfold GitHub.list_project_stories, GitHub.gbind.
  rewrite list_project_items_run.
  destruct (fst (GitHub.project_items api _ _)) as [nodes|e]; [|discriminate].
  unfold GitHub.gret. intros H. injection H as <- _.
  pose proof (items_of_nodes_findable nodes) as F.
  induction F as [|item items Hi _ IH]; cbn [map]; constructor; assumption.
Qed.

Lemma listed_story_ids_findable_witness :
  Forall findable [lit "story-1"].
Proof.
  exact (listed_story_ids_findable memory_service sample_session
           (snd (GitHub.list_project_stories memory_service sample_session))
           [lit "story-1"] eq_refl).
Defined.

Lemma find_item_some (sid : str) (items : list GitHub.ProjectItem)
    (existing : GitHub.ProjectItem) :
  GitHub.find_item sid items = Some existing ->
  In existing items /\ GitHub.story_id existing = sid.
Proof.
  unfold GitHub.find_item. intros H. apply find_some in H as [H1 H2].
  split; [exact H1|].
  destruct (str_eq_dec (GitHub.story_id existing) sid); [assumption | discriminate].
Qed.

Lemma update_status_run {B : Type} (api : GitHub.service B)
    (item_id status : str) (s : GitHub.session B) :
  GitHub._update_status api item_id status s
  = match GitHub._status_option_id (GitHub.self s) status with
    | Raise e => (Raise e, s)
    | Ok option_id =>
        GitHub._graphql
          (GitHub.UpdateItemStatus (GitHub._project_id (GitHub.self s))
             item_id (GitHub._status_field_id (GitHub.self s)) option_id)
          (GitHub.update_item_status api (GitHub._project_id (GitHub.self s))
             item_id (GitHub._status_field_id (GitHub.self s)) option_id)
          s
    end.
Proof.
  unfold GitHub._update_status, GitHub.gbind, GitHub.get_self.
  destruct (GitHub._status_option_id (GitHub.self s) status); reflexivity.
Qed.

(** X19: upsert_story never duplicates a listed story.  When the items
    query succeeds and lists an item with this story id, [upsert_story]
    sends after the query at most one more request, the status update of
    that existing item (none when the status is unsupported): it adds no
    draft issue. *)
Theorem upsert_existing_story_adds_no_draft {B : Type}
    (api : GitHub.service B) (s : GitHub.session B)
    (story_id title status : str) (nodes : list GitHub.node)
    (existing : GitHub.ProjectItem) :
  fst (GitHub.project_items api (GitHub._project_id (GitHub.self s))
         (GitHub.backend s)) = Ok nodes ->
  GitHub.find_item story_id (GitHub.items_of_nodes nodes)
    = Some existing ->
  GitHub.sent (snd (GitHub.upsert_story api story_id title status s))
  = GitHub.sent s
    ++ [GitHub.ItemsQuery (GitHub._project_id (GitHub.self s))]
    ++ match GitHub._status_option_id (GitHub.self s) status with
       | Ok option_id =>
           [GitHub.UpdateItemStatus (GitHub._project_id (GitHub.self s))
              (GitHub.item_id existing)
              (GitHub._status_field_id (GitHub.self s)) option_id]
       | Raise _ => []
       end.
Proof.
  intros Hn Hf. unfold GitHub.upsert_story. unfold GitHub.gbind at 1.
  rewrite list_project_items_run, Hn, Hf.
  unfold GitHub.gbind, GitHub.gret. rewrite update_status_run.
  cbn [after_items GitHub.self].
  destruct (GitHub._status_option_id (GitHub.self s) status).
  - rewrite graphql_run. cbn [snd GitHub.sent after_items].
    rewrite <- app_assoc. reflexivity.
  - cbn [snd GitHub.sent after_items]. reflexivity.
Qed.

Lemma upsert_existing_story_adds_no_draft_witness :
  GitHub.sent (snd (GitHub.upsert_story memory_service "story-1" "One" "Done"
                      sample_session))
  = [GitHub.ItemsQuery "P"; GitHub.UpdateItemStatus "P" "I1" "F" "o3"].
Proof.
  exact (upsert_existing_story_adds_no_draft memory_service sample_session
           "story-1" "One" "Done" (GitHub.backend sample_session)
           {| GitHub.item_id := lit "I1"; GitHub.story_id := lit "story-1" |}
           eq_refl eq_refl).
Defined.

(** X20: an unsupported status is detected too late for a new story.  When
    the items query succeeds without listing the story and the draft issue
    is added, a status that is none of todo, in_progress, in-progress, done
    (after trimming and lower-casing) makes [upsert_story] raise ValueError
    naming the status, after the draft issue has been created and without
    any status update. *)
Theorem upsert_new_story_bad_status {B : Type} (api : GitHub.service B)
    (s : GitHub.session B) (story_id title status : str)
    (nodes : list GitHub.node) (new_id : str) :
  fst (GitHub.project_items api (GitHub._project_id (GitHub.self s))
         (GitHub.backend s)) = Ok nodes ->
  GitHub.find_item story_id (GitHub.items_of_nodes nodes) = None ->
  fst (GitHub.add_draft_issue api (GitHub._project_id (GitHub.self s))
         (draft_title story_id title) (GitHub.backend (after_items api s)))
    = Ok new_id ->
  ~ In (lower (strip status))
       [lit "todo"; lit "in_progress"; lit "in-progress"; lit "done"] ->
  fst (GitHub.upsert_story api story_id title status s)
    = Raise (ValueError (lit "Unsupported status value: " ++ status))
  /\ GitHub.sent (snd (GitHub.upsert_story api story_id title status s))
     = GitHub.sent s
       ++ [GitHub.ItemsQuery (GitHub._project_id (GitHub.self s));
           GitHub.AddDraftIssue (GitHub._project_id (GitHub.self s))
             (draft_title story_id title)].
Proof.
  intros Hn Hf Ha Hs.
  assert (E : GitHub._status_option_id (GitHub.self s) status
              = Raise (ValueError (lit "Unsupported status value: " ++ status))).
  { unfold GitHub._status_option_id.
    destruct (str_eq_dec (lower (strip status)) "todo") as [X|_];
      [exfalso; apply Hs; rewrite X; simpl; tauto|].
    destruct (in_dec str_eq_dec (lower (strip status)) _) as [X|_].
    { exfalso. apply Hs. destruct X as [X|[X|[]]]; rewrite <- X; simpl; tauto. }
    destruct (str_eq_dec (lower (strip status)) "done") as [X|_];
      [exfalso; apply Hs; rewrite X; simpl; tauto|].
    reflexivity. }
  assert (R : exists b',
             GitHub.upsert_story api story_id title status s
             = (Raise (ValueError (lit "Unsupported status value: " ++ status)),
                {| GitHub.self := GitHub.self s;
                   GitHub.backend := b';
                   GitHub.sent :=
                     (GitHub.sent s
                      ++ [GitHub.ItemsQuery
                            (GitHub._project_id (GitHub.self s))])
                     ++ [GitHub.AddDraftIssue
                           (GitHub._project_id (GitHub.self s))
                           (draft_title story_id title)] |})).
  { unfold GitHub.upsert_story, GitHub.gbind.
    rewrite list_project_items_run, Hn, Hf.
    unfold GitHub._add_draft_issue, GitHub.gbind, GitHub.get_self.
    rewrite graphql_run. fold (draft_title story_id title).
    cbn [after_items GitHub.self GitHub.backend GitHub.sent] in *.
    rewrite Ha. rewrite update_status_run. cbn [GitHub.self]. rewrite E.
    eexists. reflexivity. }
  destruct R as [b' R]. rewrite R. cbn [fst snd GitHub.sent].
  split; [reflexivity|]. rewrite <- app_assoc. reflexivity.
Qed.

Lemma upsert_new_story_bad_status_witness :
  fst (GitHub.upsert_story memory_service "story-7" "Seven" "In Progress"
         sample_session)
    = Raise (ValueError (lit "Unsupported status value: In Progress"))
  /\ GitHub.sent (snd (GitHub.upsert_story memory_service "story-7" "Seven"
                         "In Progress" sample_session))
     = [GitHub.ItemsQuery "P"; GitHub.AddDraftIssue "P" "[story-7] Seven"].
Proof.
  apply (upsert_new_story_bad_status memory_service sample_session
           "story-7" "Seven" "In Progress" (GitHub.backend sample_session)
           "new").
  - reflexivity.
  - reflexivity.
  - reflexivity.
  - vm_compute. intros H.
    repeat (destruct H as [H|H]; [discriminate H|]). exact H.
Defined.

(** X21: a story id that cannot be found is drafted again on every push.
    If the story id is empty, contains "]" or begins with "[", then
    whenever the items query succeeds [upsert_story] requests a new draft
    issue for it, whatever the board already holds. *)
Theorem upsert_unfindable_story_adds_draft {B : Type}
    (api : GitHub.service B) (s : GitHub.session B)
    (story_id title status : str) (nodes : list GitHub.node) :
  ~ findable story_id ->
  fst (GitHub.project_items api (GitHub._project_id (GitHub.self s))
         (GitHub.backend s)) = Ok nodes ->
  In (GitHub.AddDraftIssue (GitHub._project_id (GitHub.self s))
        (draft_title story_id title))
     (GitHub.sent (snd (GitHub.upsert_story api story_id title status s))).
Proof.
  intros Hu Hn.
  assert (Hf : GitHub.find_item story_id (GitHub.items_of_nodes nodes)
               = None).
  { destruct (GitHub.find_item story_id (GitHub.items_of_nodes nodes))
      as [existing|] eqn:F; [|reflexivity].
    apply find_item_some in F as [Hin E].
    pose proof (items_of_nodes_findable nodes) as A.
    rewrite Forall_forall in A. specialize (A _ Hin).
    rewrite E in A. contradiction. }
  unfold GitHub.upsert_story. unfold GitHub.gbind at 1.
  rewrite list_project_items_run, Hn, Hf.
  unfold GitHub.gbind at 1. unfold GitHub._add_draft_issue.
  unfold GitHub.gbind at 1. unfold GitHub.get_self.
  rewrite graphql_run. fold (draft_title story_id title).
  cbn [after_items GitHub.self GitHub.backend GitHub.sent].
  set (s1 := {| GitHub.self := GitHub.self s; GitHub.backend := _;
                GitHub.sent := _ |}).
  assert (S1 : In (GitHub.AddDraftIssue (GitHub._project_id (GitHub.self s))
                     (draft_title story_id title)) (GitHub.sent s1)).
  { unfold s1. cbn [GitHub.sent]. apply in_or_app. right. left. reflexivity. }
  destruct (fst (GitHub.add_draft_issue api _ _ _)) as [new_id|e];
    [|exact S1].
  rewrite update_status_run.
  destruct (GitHub._status_option_id (GitHub.self s1) status);
    [|exact S1].
  rewrite graphql_run. cbn [snd GitHub.sent].
  apply in_or_app. left. exact S1.
Qed.

Lemma upsert_unfindable_story_adds_draft_witness :
  In (GitHub.AddDraftIssue "P" "[[draft]] Title")
     (GitHub.sent (snd (GitHub.upsert_story memory_service "[draft]" "Title"
                          "todo" sample_session))).
Proof.
  apply (upsert_unfindable_story_adds_draft memory_service sample_session
           "[draft]" "Title" "todo" (GitHub.backend sample_session)).
  - intros [_ [_ H]]. discriminate H.
  - reflexivity.
Defined.

(** X22: archiving an unlisted story does nothing.  When the items query
    succeeds and lists no item with this story id, [archive_story] returns
    normally having sent the items query and no other request. *)
Theorem archive_unlisted_story_is_noop {B : Type} (api : GitHub.service B)
    (s : GitHub.session B) (story_id : str) (nodes : list GitHub.node) :
  fst (GitHub.project_items api (GitHub._project_id (GitHub.self s))
         (GitHub.backend s)) = Ok nodes ->
  GitHub.find_item story_id (GitHub.items_of_nodes nodes) = None ->
  fst (GitHub.archive_story api story_id s) = Ok tt
  /\ GitHub.sent (snd (GitHub.archive_story api story_id s))
     = GitHub.sent s
       ++ [GitHub.ItemsQuery (GitHub._project_id (GitHub.self s))].
Proof.
  intros Hn Hf. unfold GitHub.archive_story, GitHub.gbind.
  rewrite list_project_items_run, Hn, Hf. split; reflexivity.
Qed.

Lemma archive_unlisted_story_is_noop_witness :
  fst (GitHub.archive_story memory_service "story-5" sample_session) = Ok tt
  /\ GitHub.sent (snd (GitHub.archive_story memory_service "story-5"
                         sample_session))
     = [GitHub.ItemsQuery "P"].
Proof.
  exact (archive_unlisted_story_is_noop memory_service sample_session
           "story-5" (GitHub.backend sample_session) eq_refl eq_refl).
Defined.

(* ================================================================== *)
(** ** Further properties: statuses and configuration *)
(* ================================================================== *)

Lemma normalize_status_stable (s : str) :
  lower (strip (_normalize_status s)) = _normalize_status s.
Proof.
  unfold _normalize_status. set (n := lower (strip s)).
  destruct (str_eq_dec n "todo"); [reflexivity|].
  destruct (in_dec str_eq_dec n _); [reflexivity|].
  destruct (str_eq_dec n "done"); [reflexivity|].
  apply fallthrough_stable.
Qed.

Lemma normalize_status_never_hyphen (s : str) :
  _normalize_status s <> lit "in-progress".
Proof.
  unfold _normalize_status. set (n := lower (strip s)).
  destruct (str_eq_dec n "todo"); [discriminate|].
  destruct (in_dec str_eq_dec n _) as [|Hout]; [discriminate|].
  destruct (str_eq_dec n "done"); [discriminate|].
  intros E. apply replace_space_inv_plain in E.
  - apply Hout. rewrite E. simpl. tauto.
  - simpl. intros H. repeat (destruct H as [H|H]; [discriminate H|]). exact H.
Qed.

(** X23: which pulled statuses can be pushed.  For every status string,
    the board option [_status_option_id] finds for its normalised form is
    the todo, in_progress or done option exactly when the normalised form
    is "todo", "in_progress" or "done"; every other normalised status is
    rejected with ValueError naming it. *)
Theorem status_option_of_normalized (me : GitHub.GitHubProjectClient)
    (s : str) :
  (_normalize_status s = lit "todo"
   /\ GitHub._status_option_id me (_normalize_status s)
      = Ok (GitHub.todo (GitHub._status_options me)))
  \/ (_normalize_status s = lit "in_progress"
      /\ GitHub._status_option_id me (_normalize_status s)
         = Ok (GitHub.in_progress (GitHub._status_options me)))
  \/ (_normalize_status s = lit "done"
      /\ GitHub._status_option_id me (_normalize_status s)
         = Ok (GitHub.done (GitHub._status_options me)))
  \/ (~ In (_normalize_status s) [lit "todo"; lit "in_progress"; lit "done"]
      /\ GitHub._status_option_id me (_normalize_status s)
         = Raise (ValueError (lit "Unsupported status value: "
                              ++ _normalize_status s))).
Proof.
  pose proof (normalize_status_stable s) as St.
  pose proof (normalize_status_never_hyphen s) as Nh.
  unfold GitHub._status_option_id. rewrite St.
  set (n := _normalize_status s) in *.
  destruct (str_eq_dec n "todo") as [E|N1]; [left; split; [exact E | reflexivity]|].
  destruct (in_dec str_eq_dec n _) as [Hin|Hout].
  { right. left. split; [|reflexivity].
    destruct Hin as [E|[E|[]]]; [symmetry; exact E | symmetry in E; contradiction]. }
  destruct (str_eq_dec n "done") as [E|N3].
  { right. right. left. split; [exact E | reflexivity]. }
  right. right. right. split; [|reflexivity].
  intros [E|[E|[E|[]]]]; symmetry in E.
  - contradiction.
  - apply Hout. rewrite E. simpl. tauto.
  - contradiction.
Qed.

Lemma required_env_cases (env : GitHub.environ) (name : str) :
  (exists value, env name = Some value /\ value <> []
                 /\ GitHub._required_env env name = Ok value)
  \/ (env_unset env name
      /\ GitHub._required_env env name
         = Raise (ValueError (lit "Missing required environment variable: "
                              ++ name))).
Proof.
  unfold GitHub._required_env, env_unset.
  destruct (env name) as [[|c v]|].
  - right. split; [right|]; reflexivity.
  - left. exists (c :: v). repeat split. discriminate.
  - right. split; [left|]; reflexivity.
Qed.

Ltac env_step env name :=
  destruct (required_env_cases env name) as [[? [? [? ->]]]|[? ->]];
  cbn [GitHub.rbind].

(** X24: the client is built only from a complete environment.
    [build_client_from_env] returns a client exactly when the six required
    variables are all set to non-empty values, and the client then holds
    those values; otherwise it raises ValueError naming the first variable,
    in the order token, project id, status field id, todo id, in-progress
    id, done id, that is unset or empty. *)
Theorem build_client_from_env_cases (env : GitHub.environ) :
  (exists c,
      GitHub.build_client_from_env env = Ok c
      /\ Forall (env_set env) required_names
      /\ env "GITHUB_TOKEN" = Some (GitHub._token c)
      /\ env "GITHUB_PROJECT_ID" = Some (GitHub._project_id c)
      /\ env "GITHUB_STATUS_FIELD_ID" = Some (GitHub._status_field_id c)
      /\ env "GITHUB_STATUS_TODO_ID"
         = Some (GitHub.todo (GitHub._status_options c))
      /\ env "GITHUB_STATUS_IN_PROGRESS_ID"
         = Some (GitHub.in_progress (GitHub._status_options c))
      /\ env "GITHUB_STATUS_DONE_ID"
         = Some (GitHub.done (GitHub._status_options c)))
  \/ (exists before name after,
        required_names = before ++ name :: after
        /\ Forall (env_set env) before
        /\ env_unset env name
        /\ GitHub.build_client_from_env env
           = Raise (ValueError
                      (lit "Missing required environment variable: "
                       ++ name))).
Proof.
  unfold GitHub.build_client_from_env.
  env_step env (lit "GITHUB_TOKEN");
    [|right; exists [], (lit "GITHUB_TOKEN"); eexists;
      split; [reflexivity|]; split; [constructor|]; split;
      [assumption | reflexivity]].
  env_step env (lit "GITHUB_PROJECT_ID");
    [|right; exists [lit "GITHUB_TOKEN"], (lit "GITHUB_PROJECT_ID"); eexists;
      split; [reflexivity|]; split;
      [repeat (constructor; [eexists; split; eassumption|]); constructor|];
      split; [assumption | reflexivity]].
  env_step env (lit "GITHUB_STATUS_FIELD_ID");
    [|right; exists [lit "GITHUB_TOKEN"; lit "GITHUB_PROJECT_ID"],
        (lit "GITHUB_STATUS_FIELD_ID"); eexists;
      split; [reflexivity|]; split;
      [repeat (constructor; [eexists; split; eassumption|]); constructor|];
      split; [assumption | reflexivity]].
  env_step env (lit "GITHUB_STATUS_TODO_ID");
    [|right; exists [lit "GITHUB_TOKEN"; lit "GITHUB_PROJECT_ID";
                     lit "GITHUB_STATUS_FIELD_ID"],
        (lit "GITHUB_STATUS_TODO_ID"); eexists;
      split; [reflexivity|]; split;
      [repeat (constructor; [eexists; split; eassumption|]); constructor|];
      split; [assumption | reflexivity]].
  env_step env (lit "GITHUB_STATUS_IN_PROGRESS_ID");
    [|right; exists [lit "GITHUB_TOKEN"; lit "GITHUB_PROJECT_ID";
                     lit "GITHUB_STATUS_FIELD_ID";
                     lit "GITHUB_STATUS_TODO_ID"],
        (lit "GITHUB_STATUS_IN_PROGRESS_ID"); eexists;
      split; [reflexivity|]; split;
      [repeat (constructor; [eexists; split; eassumption|]); constructor|];
      split; [assumption | reflexivity]].
  env_step env (lit "GITHUB_STATUS_DONE_ID");
    [|right; exists [lit "GITHUB_TOKEN"; lit "GITHUB_PROJECT_ID";
                     lit "GITHUB_STATUS_FIELD_ID";
                     lit "GITHUB_STATUS_TODO_ID";
                     lit "GITHUB_STATUS_IN_PROGRESS_ID"],
        (lit "GITHUB_STATUS_DONE_ID"); eexists;
      split; [reflexivity|]; split;
      [repeat (constructor; [eexists; split; eassumption|]); constructor|];
      split; [assumption | reflexivity]].
  left. eexists. split; [reflexivity|]. cbn.
  split; [|repeat split; assumption].
  repeat (constructor; [eexists; split; eassumption|]). constructor.
Qed.

Lemma find_item_exists (sid : str) (items : list GitHub.ProjectItem)
    (item : GitHub.ProjectItem) :
  In item items -> GitHub.story_id item = sid ->
  exists found, GitHub.find_item sid items = Some found.
Proof.
  intros Hin E. unfold GitHub.find_item.
  destruct (find _ items) as [found|] eqn:F; [exists found; reflexivity|].
  pose proof (find_none _ _ F _ Hin) as N. cbv beta in N.
  destruct (str_eq_dec (GitHub.story_id item) sid); [discriminate | contradiction].
Qed.

Lemma items_of_nodes_In (nodes : list GitHub.node) (n : GitHub.node)
    (c : ascii) (sid : str) :
  In n nodes ->
  GitHub._extract_story_id (GitHub._extract_title n) = Some (c :: sid) ->
  In {| GitHub.item_id := GitHub.node_id n; GitHub.story_id := c :: sid |}
     (GitHub.items_of_nodes nodes).
Proof.
  intros Hin E. induction nodes as [|m nodes IH]; [destruct Hin|].
  cbn [GitHub.items_of_nodes]. destruct Hin as [->|Hin].
  - rewrite E. left. reflexivity.
  - destruct (GitHub._extract_story_id (GitHub._extract_title m))
      as [[|c' sid']|]; [| right |]; apply IH; exact Hin.
Qed.

(** X25: a drafted story is found by the next listing.  If the story id is
    non-empty, contains no "]" and does not begin with "[", then in any
    items reply that holds a node whose content carries the title
    upsert_story gave its draft issue, "[<id>] <title>", the lookup
    upsert_story and archive_story make finds an item for that id. *)
Theorem drafted_story_is_found (story_id title : str)
    (nodes : list GitHub.node) (n : GitHub.node) :
  findable story_id ->
  In n nodes ->
  GitHub.node_content n = Some (Some (draft_title story_id title)) ->
  exists item,
    GitHub.find_item story_id (GitHub.items_of_nodes nodes) = Some item
    /\ GitHub.story_id item = story_id.
Proof.
  intros [Hne [Hb Hh]] Hin Hc.
  assert (T : GitHub._extract_title n = draft_title story_id title).
  { unfold GitHub._extract_title. rewrite Hc. reflexivity. }
  assert (E : GitHub._extract_story_id (GitHub._extract_title n)
              = Some story_id).
  { rewrite T, (extract_story_id_draft _ _ Hb), (dropwhile_fixed _ _ Hh).
    reflexivity. }
  destruct story_id as [|c sid]; [contradiction|].
  pose proof (items_of_nodes_In nodes n c sid Hin E) as I.
  destruct (find_item_exists (c :: sid) _ _ I eq_refl) as [found F].
  exists found. split; [exact F|].
  apply find_item_some in F. apply F.
Qed.

Lemma drafted_story_is_found_witness :
  exists item,
    GitHub.find_item "story-7"
      (GitHub.items_of_nodes
         (GitHub.backend
            (snd (GitHub.upsert_story memory_service "story-7" "Seven"
                    "todo" sample_session))))
    = Some item
    /\ GitHub.story_id item = lit "story-7".
Proof.
  apply (drafted_story_is_found "story-7" "Seven" _
           {| GitHub.node_id := lit "new";
              GitHub.node_content := Some (Some (lit "[story-7] Seven"));
              GitHub.node_title := None |}).
  - split; [discriminate|]. split; [|reflexivity].
    simpl. intros H. repeat (destruct H as [H|H]; [discriminate H|]). exact H.
  - right. right. left. reflexivity.
  - reflexivity.
Defined.

(* ================================================================== *)
(** ** Further properties: the hangman game *)
(* ================================================================== *)

Lemma mem_true (x : str) (l : list str) : mem x l = true <-> In x l.
Proof. apply mem_In. Qed.

Lemma mem_false (x : str) (l : list str) : mem x l = false <-> ~ In x l.
Proof.
  unfold mem. destruct (in_dec str_eq_dec x l); split; intros H;
    try reflexivity; try assumption; [discriminate | contradiction].
Qed.

(** X26: how a guess is scored.  [guess] lower-cases the letter and never
    changes the word or the error limit.  It counts one error exactly when
    the lower-cased letter is non-empty, was not guessed before and does not
    occur in the word; it answers True exactly when the letter is non-empty
    and occurs in the word; and the guessed set gains the lower-cased
    letter, when non-empty, and nothing else. *)
Theorem guess_accounting (letter : str) (g : Hangman.HangmanGame) :
  let l := lower letter in
  let after := snd (Hangman.guess letter g) in
  let wrong := match l with [] => false | _ :: _ => true end
               && negb (mem l (Hangman.guessed_letters g))
               && negb (Hangman.contains (Hangman.word g) l) in
  Hangman.word after = Hangman.word g
  /\ Hangman.max_errors after = Hangman.max_errors g
  /\ Hangman.score after
     = (Hangman.score g + if wrong then 1 else 0)%Z
  /\ fst (Hangman.guess letter g)
     = match l with [] => false | _ :: _ => true end
       && Hangman.contains (Hangman.word g) l
  /\ (forall x, In x (Hangman.guessed_letters after) <->
                In x (Hangman.guessed_letters g) \/ (l <> [] /\ x = l)).
Proof.
  cbv zeta. unfold Hangman.guess.
  destruct (lower letter) as [|c l] eqn:L.
  - cbn. repeat split; try lia.
    + intros H. left. exact H.
    + intros [H|[H _]]; [exact H | contradiction].
  - destruct (mem (c :: l) (Hangman.guessed_letters g)) eqn:M.
    + cbn. repeat split; try lia.
      * intros H. left. exact H.
      * intros [H|[_ ->]]; [exact H | apply mem_true; exact M].
    + destruct (Hangman.contains (Hangman.word g) (c :: l)) eqn:C;
        cbn; repeat split; try lia;
        try (intros [H|H]; [right; split; [discriminate | symmetry; exact H]
                           | left; exact H]);
        try (intros [H|[_ H]]; [right; exact H | left; symmetry; exact H]).
Qed.

(** X27: repeating a guess is free.  Guessing the same letter a second
    time gives the same answer as the first time and leaves the game
    exactly as the first guess left it: no further error is counted. *)
Theorem guess_twice (letter : str) (g : Hangman.HangmanGame) :
  Hangman.guess letter (snd (Hangman.guess letter g))
  = (fst (Hangman.guess letter g), snd (Hangman.guess letter g)).
Proof.
  unfold Hangman.guess.
  destruct (lower letter) as [|c l] eqn:L; [reflexivity|].
  destruct (mem (c :: l) (Hangman.guessed_letters g)) eqn:M.
  - cbn [snd fst]. rewrite M. reflexivity.
  - destruct (Hangman.contains (Hangman.word g) (c :: l)) eqn:C;
      cbv zeta; cbn [snd fst Hangman.guessed_letters Hangman.word];
      (destruct (mem (c :: l) (_ :: Hangman.guessed_letters g)) eqn:M2;
       [rewrite C; reflexivity
       | exfalso; apply mem_false in M2; apply M2; left; reflexivity]).
Qed.

Lemma guess_keeps_guessed (letter x : str) (g : Hangman.HangmanGame) :
  In x (Hangman.guessed_letters g) ->
  In x (Hangman.guessed_letters (snd (Hangman.guess letter g))).
Proof.
  intros H. unfold Hangman.guess.
  destruct (lower letter) as [|c l]; [exact H|].
  destruct (mem (c :: l) (Hangman.guessed_letters g)); [exact H|].
  destruct (Hangman.contains (Hangman.word g) (c :: l)); right; exact H.
Qed.

Lemma guess_keeps_word (letter : str) (g : Hangman.HangmanGame) :
  Hangman.word (snd (Hangman.guess letter g)) = Hangman.word g
  /\ Hangman.max_errors (snd (Hangman.guess letter g)) = Hangman.max_errors g.
Proof.
  unfold Hangman.guess.
  destruct (lower letter) as [|c l]; [split; reflexivity|].
  destruct (mem (c :: l) (Hangman.guessed_letters g)); [split; reflexivity|].
  destruct (Hangman.contains (Hangman.word g) (c :: l)); split; reflexivity.
Qed.

Lemma guess_score_grows (letter : str) (g : Hangman.HangmanGame) :
  (Hangman.score g <= Hangman.score (snd (Hangman.guess letter g)))%Z.
Proof.
  unfold Hangman.guess.
  destruct (lower letter) as [|c l]; [cbn; lia|].
  destruct (mem (c :: l) (Hangman.guessed_letters g)); [cbn; lia|].
  destruct (Hangman.contains (Hangman.word g) (c :: l)); cbn; lia.
Qed.

Lemma outcome_persists (letters : list str) (g : Hangman.HangmanGame) :
  (Hangman.is_won g = true -> Hangman.is_won (Hangman.play letters g) = true)
  /\ (Hangman.is_lost g = true ->
      Hangman.is_lost (Hangman.play letters g) = true).
Proof.
  revert g. induction letters as [|letter letters IH]; intros g;
    cbn [Hangman.play]; [split; trivial|].
  destruct (IH (snd (Hangman.guess letter g))) as [IW IL].
  destruct (guess_keeps_word letter g) as [Hw Hm].
  split; intros H.
  - apply IW. unfold Hangman.is_won in *. rewrite Hw.
    rewrite forallb_forall in *. intros c Hc.
    apply mem_true, guess_keeps_guessed, mem_true, H, Hc.
  - apply IL. unfold Hangman.is_lost in *. rewrite Hm.
    apply Z.leb_le. apply Z.leb_le in H.
    pose proof (guess_score_grows letter g). lia.
Qed.

(** X28: a finished game stays finished.  Once the status of a game is
    "won" or "lost", no sequence of further guesses brings it back to
    "ongoing": a won game remains won and a lost game remains lost or
    becomes won. *)
Theorem finished_stays_finished (letters : list str)
    (g : Hangman.HangmanGame) :
  Hangman.status g <> lit "ongoing" ->
  Hangman.status (Hangman.play letters g) <> lit "ongoing"
  /\ Hangman.is_won (Hangman.play letters g)
     = Hangman.is_won g || Hangman.is_won (Hangman.play letters g)
  /\ Hangman.is_lost (Hangman.play letters g)
     = Hangman.is_lost g || Hangman.is_lost (Hangman.play letters g).
Proof.
  intros H. destruct (outcome_persists letters g) as [PW PL].
  unfold Hangman.status in *.
  destruct (Hangman.is_won g) eqn:W.
  - rewrite (PW eq_refl). split; [discriminate|]. split; [reflexivity|].
    destruct (Hangman.is_lost g) eqn:Lo; [rewrite (PL eq_refl)|]; reflexivity.
  - destruct (Hangman.is_lost g) eqn:Lo; [|contradiction].
    rewrite (PL eq_refl).
    destruct (Hangman.is_won (Hangman.play letters g));
      (split; [discriminate | split; reflexivity]).
Qed.

Lemma finished_stays_finished_witness :
  Hangman.status
    (Hangman.play [lit "z"; lit "a"]
       {| Hangman.word := lit "chat"; Hangman.max_errors := 5%Z;
          Hangman.guessed_letters := []; Hangman.score := 5%Z |})
  <> lit "ongoing".
Proof.
  exact (proj1 (finished_stays_finished [lit "z"; lit "a"]
                  {| Hangman.word := lit "chat"; Hangman.max_errors := 5%Z;
                     Hangman.guessed_letters := [];
                     Hangman.score := 5%Z |}
                  ltac:(vm_compute; discriminate))).
Defined.

Lemma contains_single (s : str) (x : ascii) :
  In x s -> Hangman.contains s [x] = true.
Proof.
  induction s as [|c s IH]; intros H; [destruct H|].
  cbn [Hangman.contains startswith]. destruct H as [->|H].
  - rewrite Ascii.eqb_refl. reflexivity.
  - rewrite (IH H). apply orb_true_r.
Qed.

Lemma guess_letter_of_word (c : ascii) (g : Hangman.HangmanGame) :
  In (lower_char c) (Hangman.word g) ->
  Hangman.score (snd (Hangman.guess [c] g)) = Hangman.score g
  /\ In [lower_char c] (Hangman.guessed_letters (snd (Hangman.guess [c] g))).
Proof.
  intros H. unfold Hangman.guess. cbn [lower map].
  destruct (mem [lower_char c] (Hangman.guessed_letters g)) eqn:M.
  - split; [reflexivity | apply mem_true; exact M].
  - rewrite (contains_single _ _ H). split; [reflexivity | left; reflexivity].
Qed.

Lemma play_letters_of_word (w : str) (g : Hangman.HangmanGame) :
  (forall c, In c w -> In (lower_char c) (Hangman.word g)) ->
  Hangman.word (Hangman.play (map (fun c => [c]) w) g) = Hangman.word g
  /\ Hangman.score (Hangman.play (map (fun c => [c]) w) g) = Hangman.score g
  /\ (forall x, In x (Hangman.guessed_letters g) ->
        In x (Hangman.guessed_letters
                (Hangman.play (map (fun c => [c]) w) g)))
  /\ (forall c, In c w ->
        In [lower_char c]
           (Hangman.guessed_letters
              (Hangman.play (map (fun c => [c]) w) g))).
Proof.
  revert g. induction w as [|a w IH]; intros g H; cbn [map Hangman.play].
  - repeat split; [intros x Hx; exact Hx | intros c []].
  - destruct (guess_keeps_word [a] g) as [Hw _].
    destruct (guess_letter_of_word a g (H a (or_introl eq_refl))) as [Hs Ha].
    destruct (IH (snd (Hangman.guess [a] g))) as [I1 [I2 [I3 I4]]].
    { intros c Hc. rewrite Hw. apply H. right. exact Hc. }
    split; [rewrite I1; exact Hw|]. split; [rewrite I2; exact Hs|]. split.
    + intros x Hx. apply I3, guess_keeps_guessed, Hx.
    + intros c [<-|Hc]; [apply I3; exact Ha | apply I4; exact Hc].
Qed.

(** X29: guessing every letter of the word wins without an error.  For
    every secret word, a new game in which the letters of the word as the
    game stores it (lower-cased) are guessed one by one ends won with
    score 0. *)
Theorem guessing_the_word_wins (w : str) :
  let game := Hangman.new w in
  let final := Hangman.play (map (fun c => [c]) (Hangman.word game)) game in
  Hangman.is_won final = true
  /\ Hangman.score final = 0%Z
  /\ Hangman.status final = lit "won".
Proof.
  cbv zeta.
  assert (L : forall c, In c (Hangman.word (Hangman.new w)) ->
                        lower_char c = c).
  { intros c Hc. cbn [Hangman.new Hangman.word] in Hc. unfold lower in Hc.
    apply in_map_iff in Hc as [c' [<- _]]. apply lower_char_idem. }
  destruct (play_letters_of_word (Hangman.word (Hangman.new w))
              (Hangman.new w)) as [Hw [Hs [_ Hg]]].
  { intros c Hc. rewrite (L c Hc). exact Hc. }
  assert (W : Hangman.is_won
                (Hangman.play
                   (map (fun c => [c]) (Hangman.word (Hangman.new w)))
                   (Hangman.new w)) = true).
  { unfold Hangman.is_won. rewrite Hw.
    apply forallb_forall. intros x Hx.
    apply mem_true. rewrite <- (L x Hx). apply Hg, Hx. }
  split; [exact W|]. split; [rewrite Hs; reflexivity|].
  unfold Hangman.status. rewrite W. reflexivity.
Qed.

(** X30: the mask of a won game is the word.  When every letter of the
    word has been guessed, [masked_word] shows the word itself, its letters
    separated by single spaces, with no underscore put in place of a
    letter. *)
Theorem masked_word_of_won_game (g : Hangman.HangmanGame) :
  Hangman.is_won g = true ->
  Hangman.masked_word g
  = join (lit " ") (map (fun letter => [letter]) (Hangman.word g)).
Proof.
  unfold Hangman.is_won, Hangman.masked_word. intros H.
  rewrite forallb_forall in H. f_equal. apply map_ext_in.
  intros c Hc. rewrite (H c Hc). reflexivity.
Qed.

Lemma masked_word_of_won_game_witness :
  Hangman.masked_word
    (Hangman.play [lit "c"; lit "H"; lit "a"; lit "t"] (Hangman.new "Chat"))
  = join (lit " ")
      (map (fun letter => [letter])
         (Hangman.word
            (Hangman.play [lit "c"; lit "H"; lit "a"; lit "t"]
               (Hangman.new "Chat")))).
Proof.
  exact (masked_word_of_won_game
           (Hangman.play [lit "c"; lit "H"; lit "a"; lit "t"]
              (Hangman.new "Chat")) eq_refl).
Defined.
